(** * thermo: vapour-liquid equilibrium and activity-coefficient routines

    A shallow embedding of [thermo/activity.py] and [thermo/nrtl.py].

    Python floats are rendered as real numbers ([R]); an operation that
    raises in Python ([ZeroDivisionError], [TypeError] on [None], [IndexError]
    on a short list, [ValueError] of [math.log]) raises in the model too,
    through the [res] monad.  Rounding, overflow, infinities and NaN are
    outside the model. *)

From Stdlib Require Import Reals Lra Lia ZArith.
From stdpp Require Import gmap strings list fin_maps.

(* ===================================================================== *)
(** * Python runtime fragment *)
(* ===================================================================== *)

#[global] Instance R_eq_dec : EqDecision R := Req_dec_T.
#[global] Instance Rlt_decision (x y : R) : Decision (x < y)%R := Rlt_dec x y.
#[global] Instance Rle_decision (x y : R) : Decision (x <= y)%R := Rle_dec x y.
#[global] Instance Rgt_decision (x y : R) : Decision (x > y)%R := Rgt_dec x y.
#[global] Instance Rge_decision (x y : R) : Decision (x >= y)%R := Rge_dec x y.

(** The exceptions the modelled code can raise.  [Exception msg] is a bare
    [Exception] carrying a literal message, [ExceptionFmt] one whose message
    is a format string applied to floats, [ValueErrorMsg] a [ValueError]
    raised with a message. *)
Inductive exn : Type :=
| TypeError
| ValueError
| ValueErrorMsg (msg : string)
| IndexError
| ZeroDivisionError
| AttributeError
| AssertionError
| RecursionError
| Exception (msg : string)
| ExceptionFmt (fmt : string) (args : list R).

(** Outcome of a Python computation: a value, or a raised exception. *)
Inductive res (A : Type) : Type :=
| Ok (a : A)
| Raise (e : exn).
Arguments Ok {A} a.
Arguments Raise {A} e.

#[global] Instance res_ret : MRet res := fun A a => Ok a.
#[global] Instance res_bind : MBind res :=
  fun A B f m => match m with Ok a => f a | Raise e => Raise e end.

(** [try: m except Exception as e: handler e] *)
Definition try_except {A} (m : res A) (handler : exn -> res A) : res A :=
  match m with
  | Ok a => Ok a
  | Raise e => handler e
  end.

(** [try: m except TypeError: handler] *)
Definition try_except_TypeError {A} (m : res A) (handler : res A) : res A :=
  try_except m (fun e => match e with TypeError => handler | _ => Raise e end).

(** [try: m except ValueError: handler] *)
Definition try_except_ValueError {A} (m : res A) (handler : res A) : res A :=
  try_except m (fun e => match e with
                        | ValueError | ValueErrorMsg _ => handler
                        | _ => Raise e
                        end).

(** [assert b] *)
Definition assert (b : bool) : res unit :=
  if b then Ok tt else Raise AssertionError.

(** A Python scalar that may be [None]. *)
Abbreviation pyfloat := (option R).

(** A Python list whose items are floats or [None]. *)
Abbreviation pylist := (list (option R)).

(** Truth value of an optional float: [None] and [0.0] are false. *)
Definition truthy (v : pyfloat) : bool :=
  match v with
  | Some x => bool_decide (x <> 0%R)
  | None => false
  end.

(** The operand as a float; arithmetic on [None] is a [TypeError]. *)
Definition as_float (v : pyfloat) : res R :=
  match v with
  | Some x => Ok x
  | None => Raise TypeError
  end.

Definition is_None {A} (v : option A) : bool :=
  match v with
  | None => true
  | Some _ => false
  end.

Section Floats.
Local Open Scope R_scope.

(** [x / y] on floats. *)
Definition pydiv (x y : R) : res R :=
  if decide (y = 0) then Raise ZeroDivisionError else Ok (x / y).

(** [a * b] and [a / b] on operands that may be [None]; the operand types
    are checked before the divisor is. *)
Definition fmul (a b : pyfloat) : res R :=
  x ← as_float a; y ← as_float b; Ok (x * y).

Definition fdiv (a b : pyfloat) : res R :=
  x ← as_float a; y ← as_float b; pydiv x y.

(** [math.log]: a domain error outside the positive reals. *)
Definition pylog (x : R) : res R :=
  if decide (0 < x) then Ok (ln x) else Raise ValueError.

(** [x ** 0.5].  A negative radicand leaves the real-valued model (Python 2
    raises [ValueError], Python 3 yields a complex number); it is rendered
    as [ValueError]. *)
Definition pysqrt (x : R) : res R :=
  if decide (0 <= x) then Ok (sqrt x) else Raise ValueError.

(** [sum(l)], and equally an accumulator started at [0.0] and updated with
    [+=] over [l]: a left-to-right fold. *)
Definition pysum (l : list R) : R := fold_left Rplus l 0.

(** [min(l)] and [max(l)]: the first extremal item; [ValueError] on []. *)
Definition pymin (l : list R) : res R :=
  match l with
  | [] => Raise ValueError
  | x :: t => Ok (fold_left (fun m y => if decide (y < m) then y else m) t x)
  end.

Definition pymax (l : list R) : res R :=
  match l with
  | [] => Raise ValueError
  | x :: t => Ok (fold_left (fun m y => if decide (y > m) then y else m) t x)
  end.

End Floats.

Arguments pydiv : simpl never.
Arguments pylog : simpl never.
Arguments pysqrt : simpl never.

(** [l[i]] for [i] drawn from a [range]. *)
Definition getitem {A} (l : list A) (i : nat) : res A :=
  match l !! i with
  | Some x => Ok x
  | None => Raise IndexError
  end.

(** [m[i][j]] *)
Definition getitem2 {A} (m : list (list A)) (i j : nat) : res A :=
  row ← getitem m i; getitem row j.

(** [l[i]] where [l] itself may be [None]. *)
Definition getitem_opt {A} (l : option (list A)) (i : nat) : res A :=
  match l with
  | Some l => getitem l i
  | None => Raise TypeError
  end.

(** [l.index(x)] *)
Fixpoint index (l : list R) (x : R) : res nat :=
  match l with
  | [] => Raise ValueError
  | y :: t => if decide (y = x) then Ok 0%nat else i ← index t x; Ok (S i)
  end.

(** [range(n)] *)
Definition range (n : nat) : list nat := seq 0 n.

(** [[f(i) for i in range(n)]] *)
Definition comprehension {A} (n : nat) (f : nat -> res A) : res (list A) :=
  mapM f (range n).

(** [[f(a, b) for a, b in zip(la, lb)]] *)
Definition zip_comprehension {A B C} (f : A -> B -> res C)
    (la : list A) (lb : list B) : res (list C) :=
  mapM (fun ab => f ab.1 ab.2) (zip la lb).

(** A loop [for a in l: st = body(a, st)] that may raise. *)
Fixpoint foldM {S A} (body : A -> S -> res S) (l : list A) (st : S) : res S :=
  match l with
  | [] => Ok st
  | a :: l => st' ← body a st; foldM body l st'
  end.

(** [for i in range(n): st = body(i, st)] *)
Definition for_range {S} (n : nat) (body : nat -> S -> res S) (init : S) : res S :=
  foldM body (range n) init.

(* ===================================================================== *)
(** * thermo.utils *)
(* ===================================================================== *)

(** Modelled from the spec: [none_and_length_check] of [thermo.utils] is not
    among the sources.  The spec describes the failure it guards as "array
    lengths/presence are inconsistent": the check holds when no input holds
    a [None] item and every input is as long as the first. *)
Definition none_and_length_check (all_inputs : list pylist) : bool :=
  match all_inputs with
  | [] => true
  | first :: _ =>
      forallb (fun things =>
                 negb (existsb is_None things)
                 && bool_decide (length things = length first))
              all_inputs
  end.

(* ===================================================================== *)
(** * thermo/activity.py *)
(* ===================================================================== *)

Section Activity.
Local Open Scope R_scope.

Definition K_value_message : string :=
  "Input must consist of one set from (P, Psat, phi_l, phi_g, gamma), (P, Psat, gamma), (phi_l, phi_g), (P, Psat)".

(** [K_value(P=None, Psat=None, phi_l=None, phi_g=None, gamma=None, Poynting=1)].
    Every argument is passed explicitly here; [K_value_Poynting_default] is
    the value [Poynting] takes in a call that leaves it out. *)
Definition K_value (P Psat phi_l phi_g gamma Poynting : pyfloat) : res R :=
  try_except_TypeError
    (if truthy gamma then
       if truthy phi_l then
         a ← fmul gamma Psat;
         b ← fmul (Some a) phi_l;
         c ← fmul (Some b) Poynting;
         d ← fmul phi_g P;
         pydiv c d
       else
         a ← fmul gamma Psat;
         b ← fmul (Some a) Poynting;
         fdiv (Some b) P
     else if truthy phi_l then
       fdiv phi_l phi_g
     else
       fdiv Psat P)
    (Raise (Exception K_value_message)).

Definition K_value_Poynting_default : pyfloat := Some 1.

(** [Wilson_K_value(T, P, Tc, Pc, omega)] *)
Definition Wilson_K_value (T P Tc Pc omega : R) : res R :=
  a ← pydiv Pc P;
  b ← pydiv Tc T;
  Ok (a * exp (5.37 * (1.0 + omega) * (1.0 - b))).

(** [NRTL(xs, taus, alphas)] *)
Definition NRTL (xs : list R) (taus alphas : list (list R)) : res (list R) :=
  let N := length xs in
  Gs ← comprehension N (fun i =>
         comprehension N (fun j =>
           a ← getitem2 alphas i j;
           t ← getitem2 taus i j;
           Ok (exp (- a * t))));
  comprehension N (fun i =>
    Gsi ← getitem Gs i;
    tausi ← getitem taus i;
    acc ← for_range N (fun j '(tn1, td1, total2) =>
             xj ← getitem xs j;
             tau_ji ← getitem2 taus j i;
             G_ji ← getitem2 Gs j i;
             let tn1 := tn1 + xj * tau_ji * G_ji in
             let td1 := td1 + xj * G_ji in
             Gsi_j ← getitem Gsi j;
             let tn2 := xj * Gsi_j in
             terms ← comprehension N (fun k =>
                        xk ← getitem xs k; G_kj ← getitem2 Gs k j; Ok (xk * G_kj));
             let td2 := pysum terms in
             let td3 := td2 in
             terms3 ← comprehension N (fun m =>
                         xm ← getitem xs m;
                         tau_mj ← getitem2 taus m j;
                         G_mj ← getitem2 Gs m j;
                         Ok (xm * tau_mj * G_mj));
             let tn3 := pysum terms3 in
             q ← pydiv tn2 td2;
             tausi_j ← getitem tausi j;
             r ← pydiv tn3 td3;
             Ok (tn1, td1, total2 + q * (tausi_j - r)))
           (0, 0, 0);
    let '(tn1, td1, total2) := acc in
    q ← pydiv tn1 td1;
    Ok (exp (q + total2))).

(** [Wilson(xs, params)] *)
Definition Wilson (xs : list R) (params : list (list R)) : res (list R) :=
  let N := length xs in
  comprehension N (fun i =>
    terms ← comprehension N (fun j =>
               p ← getitem2 params i j; xj ← getitem xs j; Ok (p * xj));
    tot1 ← pylog (pysum terms);
    tot2 ← for_range N (fun j tot2 =>
              p ← getitem2 params j i;
              xj ← getitem xs j;
              den ← comprehension N (fun k =>
                       p' ← getitem2 params j k; xk ← getitem xs k; Ok (p' * xk));
              q ← pydiv (p * xj) (pysum den);
              Ok (tot2 + q))
            0;
    Ok (exp (1 - tot1 - tot2))).

(** What [dew_at_T] and [bubble_at_T] can hand back through [return]: a
    float, an exception object, or an exception class. *)
Inductive pyret : Type :=
| RetFloat (x : R)
| RetExnObject (e : exn)
| RetExnClass (name : string).

Definition dimensions_message : string :=
  "Input dimentions are inconsistent or some input parameters are missing.".

(** The handler shared by every branch of [dew_at_T] and by the first two of
    [bubble_at_T]:
    [if not none_and_length_check(inputs): raise Exception(...)]
    [raise e]. *)
Definition check_then_raise (inputs : list pylist) (e : exn) : res pyret :=
  if negb (none_and_length_check inputs)
  then Raise (Exception dimensions_message)
  else Raise e.

(** The handler of the last two branches of [bubble_at_T], which ends in
    [return e]. *)
Definition check_then_return (inputs : list pylist) (e : exn) : res pyret :=
  if negb (none_and_length_check inputs)
  then Raise (Exception dimensions_message)
  else Ok (RetExnObject e).

(** An optional list argument as a list, for [none_and_length_check]; the
    handlers only pass arguments their branch found not to be [None]. *)
Definition listof (l : option pylist) : pylist := default [] l.

(** [dew_at_T(zs, Psats, fugacities=None, gammas=None)] *)
Definition dew_at_T (zs Psats : pylist) (fugacities gammas : option pylist)
    : res pyret :=
  if is_None fugacities && is_None gammas then
    try_except
      (terms ← comprehension (length zs) (fun i =>
                  z ← getitem zs i; p ← getitem Psats i; fdiv z p);
       q ← pydiv 1 (pysum terms);
       Ok (RetFloat q))
      (check_then_raise [Psats])
  else if negb (is_None gammas) && is_None fugacities then
    try_except
      (terms ← comprehension (length zs) (fun i =>
                  z ← getitem zs i;
                  p ← getitem Psats i;
                  gm ← getitem_opt gammas i;
                  d ← fmul p gm;
                  fdiv z (Some d));
       q ← pydiv 1 (pysum terms);
       Ok (RetFloat q))
      (check_then_raise [Psats; listof gammas])
  else if negb (is_None fugacities) && is_None gammas then
    try_except
      (terms ← comprehension (length zs) (fun i =>
                  z ← getitem zs i;
                  f ← getitem_opt fugacities i;
                  n ← fmul z f;
                  p ← getitem Psats i;
                  fdiv (Some n) p);
       q ← pydiv 1 (pysum terms);
       Ok (RetFloat q))
      (check_then_raise [Psats; listof fugacities])
  else if negb (is_None fugacities) && negb (is_None gammas) then
    try_except
      (terms ← comprehension (length zs) (fun i =>
                  z ← getitem zs i;
                  f ← getitem_opt fugacities i;
                  n ← fmul z f;
                  p ← getitem Psats i;
                  gm ← getitem_opt gammas i;
                  d ← fmul p gm;
                  pydiv n d);
       q ← pydiv 1 (pysum terms);
       Ok (RetFloat q))
      (check_then_raise [zs; Psats; listof fugacities; listof gammas])
  else Ok (RetExnClass "ValueError").

(** [bubble_at_T(zs, Psats, fugacities=None, gammas=None)] *)
Definition bubble_at_T (zs Psats : pylist) (fugacities gammas : option pylist)
    : res pyret :=
  let l := length zs in
  if is_None fugacities && is_None gammas then
    try_except
      (terms ← comprehension l (fun i =>
                  z ← getitem zs i; p ← getitem Psats i; fmul z p);
       Ok (RetFloat (pysum terms)))
      (check_then_raise [Psats])
  else if negb (is_None gammas) && is_None fugacities then
    try_except
      (terms ← comprehension l (fun i =>
                  z ← getitem zs i;
                  p ← getitem Psats i;
                  n ← fmul z p;
                  gm ← getitem_opt gammas i;
                  fmul (Some n) gm);
       Ok (RetFloat (pysum terms)))
      (check_then_raise [Psats; listof gammas])
  else if negb (is_None fugacities) && is_None gammas then
    try_except
      (terms ← comprehension l (fun i =>
                  z ← getitem zs i;
                  p ← getitem Psats i;
                  n ← fmul z p;
                  f ← getitem_opt fugacities i;
                  fdiv (Some n) f);
       Ok (RetFloat (pysum terms)))
      (check_then_return [Psats; listof fugacities])
  else if negb (is_None fugacities) && negb (is_None gammas) then
    try_except
      (terms ← comprehension l (fun i =>
                  z ← getitem zs i;
                  p ← getitem Psats i;
                  n ← fmul z p;
                  gm ← getitem_opt gammas i;
                  n' ← fmul (Some n) gm;
                  f ← getitem_opt fugacities i;
                  fdiv (Some n') f);
       Ok (RetFloat (pysum terms)))
      (check_then_return [zs; Psats; listof fugacities; listof gammas])
  else Raise ValueError.

(** [identify_phase(T, P, Tm=None, Tb=None, Tc=None, Psat=None)]; the result
    is ['s'], ['l'], ['g'] or [None]. *)
Definition identify_phase (T P : R) (Tm Tb Tc Psat : pyfloat) : option string :=
  if truthy Tm && bool_decide (T <= default 0 Tm) then Some "s"
  else if truthy Tc && bool_decide (T >= default 0 Tc) then Some "g"
  else if truthy Psat then
    if bool_decide (P <= default 0 Psat) then Some "g"
    else if bool_decide (P > default 0 Psat) then Some "l"
    else None
  else if truthy Tb then
    if bool_decide (90000 < P) && bool_decide (P < 110000) then
      if bool_decide (T < default 0 Tb) then Some "l" else Some "g"
    else if bool_decide (P > 110000) && bool_decide (T <= default 0 Tb) then Some "l"
    else None
  else None.

End Activity.

(* ===================================================================== *)
(** * The numerical toolkit consumed at the boundary *)
(* ===================================================================== *)

(** Keyword arguments of [fluids.numerics.newton]. *)
Record newton_kwargs : Type := {
  kw_fprime : option (R -> res R);
  kw_fprime2 : option (R -> res R);
  kw_high : option R;
  kw_low : option R;
  kw_maxiter : option nat;
}.

Definition no_kwargs : newton_kwargs :=
  {| kw_fprime := None; kw_fprime2 := None; kw_high := None; kw_low := None;
     kw_maxiter := None |}.

(** What [thermo/activity.py] imports from [fluids.numerics] and NumPy.  The
    root finders are arbitrary: they take the objective, which may raise, and
    return a root or raise.  [brenth_calls] lists the abscissae at which
    [brenth] evaluates its objective, in call order; the closures of
    [flash_wilson] record their last evaluation.
    [Rachford_Rice_solution_numpy] runs on NumPy arrays, whose arithmetic
    (no exception on a zero divisor, broadcasting) has no counterpart in the
    real-valued model; it stays a parameter. *)
Class Numerics : Type := {
  newton : (R -> res R) -> R -> newton_kwargs -> res R;
  brenth : (R -> res R) -> R -> R -> option R -> res R;
  brenth_calls : (R -> res R) -> R -> R -> option R -> list R;
  IS_PYPY : bool;
  one_epsilon_larger : R;
  one_epsilon_smaller : R;
  Rachford_Rice_solution_numpy : list R -> list R -> res (R * list R * list R);
}.

(** A toolkit whose root finders never converge and that has no NumPy: the
    closed-form paths do not call it, so it serves to run them on literal
    inputs. *)
Definition diverging_numerics : Numerics :=
  {| newton := fun _ _ _ => Raise (Exception "Failed to converge");
     brenth := fun _ _ _ _ => Raise ValueError;
     brenth_calls := fun _ _ _ _ => [];
     IS_PYPY := false;
     one_epsilon_larger := (1 + / 2 ^ 52)%R;
     one_epsilon_smaller := (1 - / 2 ^ 52)%R;
     Rachford_Rice_solution_numpy := fun _ _ => Raise (Exception "NumPy is missing") |}.

(* ===================================================================== *)
(** * thermo/activity.py: flash calculations *)
(* ===================================================================== *)

Section Flash.
Context `{Numerics}.
Local Open Scope R_scope.

(** [Rachford_Rice_solution(zs, Ks, fprime=False, fprime2=False)] *)
Definition Rachford_Rice_solution (zs Ks : list R) (fprime fprime2 : bool)
    : res (R * list R * list R) :=
  Kmin ← pymin Ks;
  Kmax ← pymax Ks;
  i ← index Ks Kmax;
  z_of_Kmax ← getitem zs i;
  V_over_F_min ← pydiv ((Kmax - Kmin) * z_of_Kmax - (1 - Kmin))
                       ((1 - Kmin) * (Kmax - 1));
  V_over_F_max ← pydiv 1 (1 - Kmin);
  let V_over_F_min2 := if decide (V_over_F_min > 0) then V_over_F_min else 0 in
  let V_over_F_max2 := if decide (V_over_F_max < 1) then V_over_F_max else 1 in
  let x0 := (V_over_F_min2 + V_over_F_max2) * 0.5 in
  let K_minus_1 := map (fun Ki => Ki - 1) Ks in
  let zs_k_minus_1 := zip_with (fun zi Kim1 => zi * Kim1) zs K_minus_1 in
  let err := fun V_over_F =>
    terms ← zip_comprehension (fun num Kim1 => pydiv num (1 + V_over_F * Kim1))
                              zs_k_minus_1 K_minus_1;
    Ok (pysum terms) in
  let zs_k_minus_1_2 :=
    zip_with (fun first Kim1 => - first * Kim1) zs_k_minus_1 K_minus_1 in
  let fprime_obj := fun V_over_F =>
    let denom := map (fun Kim1 => V_over_F * Kim1 + 1) K_minus_1 in
    let denom2 := map (fun d1 => d1 * d1) denom in
    terms ← zip_comprehension pydiv zs_k_minus_1_2 denom2;
    Ok (pysum terms) in
  let zs_k_minus_1_3 :=
    zip_with (fun second Kim1 => -2 * second * Kim1) zs_k_minus_1_2 K_minus_1 in
  let fprime2_obj := fun V_over_F =>
    let denom := map (fun Kim1 => V_over_F * Kim1 + 1) K_minus_1 in
    let denom2 := map (fun d1 => d1 * d1) denom in
    let denom3 := zip_with (fun d1 d2 => d2 * d1) denom denom2 in
    terms ← zip_comprehension pydiv zs_k_minus_1_3 denom3;
    Ok (pysum terms) in
  V_over_F ←
    try_except
      (if fprime && fprime2 then
         newton err x0 {| kw_fprime := Some fprime_obj;
                          kw_fprime2 := Some fprime2_obj;
                          kw_high := None; kw_low := None; kw_maxiter := None |}
       else if fprime then
         newton err x0 {| kw_fprime := Some fprime_obj; kw_fprime2 := None;
                          kw_high := None; kw_low := None; kw_maxiter := None |}
       else
         newton err x0 {| kw_fprime := None; kw_fprime2 := None;
                          kw_high := Some (V_over_F_max * one_epsilon_smaller);
                          kw_low := Some (V_over_F_min * one_epsilon_larger);
                          kw_maxiter := None |})
      (fun _ => brenth err (V_over_F_max * one_epsilon_smaller)
                       (V_over_F_min * one_epsilon_larger) None);
  xs ← zip_comprehension (fun zi Ki => pydiv zi (1 + V_over_F * (Ki - 1))) zs Ks;
  let ys := zip_with (fun xi Ki => Ki * xi) xs Ks in
  Ok (V_over_F, xs, ys).

(** Tuple order on [(K, z)] pairs, as [sorted] compares them. *)
Definition pair_lt (a b : R * R) : bool :=
  bool_decide (a.1 < b.1) || (bool_decide (a.1 = b.1) && bool_decide (a.2 < b.2)).

(** [sorted(l, reverse=True)] on pairs: a stable insertion sort, largest
    first. *)
Fixpoint insert_desc (a : R * R) (l : list (R * R)) : list (R * R) :=
  match l with
  | [] => [a]
  | b :: t => if pair_lt b a then a :: b :: t else b :: insert_desc a t
  end.

Definition sorted_reverse (l : list (R * R)) : list (R * R) :=
  foldr insert_desc [] l.

(** [Li_Johns_Ahmadi_solution(zs, Ks)] *)
Definition Li_Johns_Ahmadi_solution (zs Ks : list R) : res (R * list R * list R) :=
  let p := sorted_reverse (zip Ks zs) in
  let Ks_sorted := map fst p in
  let zs_sorted := map snd p in
  k1 ← getitem Ks_sorted 0;
  z1 ← getitem zs_sorted 0;
  kn ← getitem Ks_sorted (length Ks_sorted - 1);
  q ← pydiv (1 - kn) (k1 - kn);
  let x_min := q * z1 in
  x_max ← pydiv (1 - kn) (k1 - kn);
  let x_min2 := if decide (x_min > 0) then x_min else 0 in
  let x_max2 := if decide (x_max < 1) then x_max else 1 in
  let x_guess := (x_min2 + x_max2) * 0.5 in
  let len := (length zs - 1)%nat in
  let kn_m_1 := kn - 1 in
  let k1_m_1 := k1 - 1 in
  t1 ← pydiv (k1 - kn) (kn - 1);
  let objective := fun x1 =>
    terms ← zip_comprehension
               (fun ki zi =>
                  a ← pydiv (ki - kn) kn_m_1;
                  pydiv (a * zi * k1_m_1 * x1) ((ki - 1) * z1 + (k1 - ki) * x1))
               (drop 1 (take len Ks_sorted)) (drop 1 (take len zs_sorted));
    Ok (1 + t1 * x1 + pysum terms) in
  '(x1, V_over_F) ←
    try_except
      (x1 ← newton objective x_guess no_kwargs;
       _ ← assert (bool_decide (x1 >= x_min2));
       _ ← assert (bool_decide (x1 <= x_max2));
       V_over_F ← pydiv (- x1 + z1) (x1 * (k1 - 1));
       _ ← assert (bool_decide (0 <= V_over_F) && bool_decide (V_over_F <= 1));
       Ok (x1, V_over_F))
      (fun _ =>
         x1 ← brenth objective x_min x_max None;
         V_over_F ← pydiv (- x1 + z1) (x1 * (k1 - 1));
         Ok (x1, V_over_F));
  xs ← zip_comprehension (fun zi Ki => pydiv zi (1 + V_over_F * (Ki - 1))) zs Ks;
  let ys := zip_with (fun xi Ki => Ki * xi) xs Ks in
  Ok (V_over_F, xs, ys).

Definition FLASH_INNER_ANALYTICAL : string := "Analytical".
Definition FLASH_INNER_SECANT : string := "Rachford-Rice (Secant)".
Definition FLASH_INNER_NR : string := "Rachford-Rice (Newton-Raphson)".
Definition FLASH_INNER_HALLEY : string := "Rachford-Rice (Halley)".
Definition FLASH_INNER_NUMPY : string := "Rachford-Rice (NumPy)".
Definition FLASH_INNER_LJA : string := "Li-Johns-Ahmadi".

(** [flash_inner_loop_list_methods(l)] *)
Definition flash_inner_loop_list_methods (l : nat) : list string :=
  (if bool_decide (l = 2%nat) || bool_decide (l = 3%nat)
   then [FLASH_INNER_ANALYTICAL] else [])
  ++ (if bool_decide (10 ≤ l)%nat && negb IS_PYPY then [FLASH_INNER_NUMPY] else [])
  ++ (if bool_decide (2 ≤ l)%nat
      then [FLASH_INNER_SECANT; FLASH_INNER_NR; FLASH_INNER_HALLEY]
           ++ (if bool_decide (l < 10)%nat && negb IS_PYPY
               then [FLASH_INNER_NUMPY] else [])
      else [])
  ++ (if bool_decide (3 ≤ l)%nat then [FLASH_INNER_LJA] else []).

(** The two-component closed form of the Analytical method. *)
Definition analytical_2 (z1 z2 K1 K2 : R) : res R :=
  pydiv (- K1 * z1 - K2 * z2 + z1 + z2)
        (K1 * K2 * z1 + K1 * K2 * z2 - K1 * z1 - K1 * z2 - K2 * z1 - K2 * z2
         + z1 + z2).

(** The three-component closed form of the Analytical method:
    [(A - B**0.5/2)/C]. *)
Definition analytical_3_A (z1 z2 z3 K1 K2 K3 : R) : R :=
  -K1*K2*z1/2 - K1*K2*z2/2 - K1*K3*z1/2 - K1*K3*z3/2 + K1*z1 + K1*z2/2 +
  K1*z3/2 - K2*K3*z2/2 - K2*K3*z3/2 + K2*z1/2 + K2*z2 + K2*z3/2 + K3*z1/2
  + K3*z2/2 + K3*z3 - z1 - z2 - z3.

Definition analytical_3_B (z1 z2 z3 K1 K2 K3 : R) : R :=
  K1^2*K2^2*z1^2 + 2*K1^2*K2^2*z1*z2 + K1^2*K2^2*z2^2 - 2*K1^2*K2*K3*z1^2
  - 2*K1^2*K2*K3*z1*z2 - 2*K1^2*K2*K3*z1*z3 + 2*K1^2*K2*K3*z2*z3 -
  2*K1^2*K2*z1*z2 + 2*K1^2*K2*z1*z3 - 2*K1^2*K2*z2^2 - 2*K1^2*K2*z2*z3 +
  K1^2*K3^2*z1^2 + 2*K1^2*K3^2*z1*z3 + K1^2*K3^2*z3^2 + 2*K1^2*K3*z1*z2 -
  2*K1^2*K3*z1*z3 - 2*K1^2*K3*z2*z3 - 2*K1^2*K3*z3^2 + K1^2*z2^2 +
  2*K1^2*z2*z3 + K1^2*z3^2 - 2*K1*K2^2*K3*z1*z2 + 2*K1*K2^2*K3*z1*z3 -
  2*K1*K2^2*K3*z2^2 - 2*K1*K2^2*K3*z2*z3 - 2*K1*K2^2*z1^2 -
  2*K1*K2^2*z1*z2 - 2*K1*K2^2*z1*z3 + 2*K1*K2^2*z2*z3 +
  2*K1*K2*K3^2*z1*z2 - 2*K1*K2*K3^2*z1*z3 - 2*K1*K2*K3^2*z2*z3 -
  2*K1*K2*K3^2*z3^2 + 4*K1*K2*K3*z1^2 + 4*K1*K2*K3*z1*z2 +
  4*K1*K2*K3*z1*z3 + 4*K1*K2*K3*z2^2 + 4*K1*K2*K3*z2*z3 + 4*K1*K2*K3*z3^2
  + 2*K1*K2*z1*z2 - 2*K1*K2*z1*z3 - 2*K1*K2*z2*z3 - 2*K1*K2*z3^2 -
  2*K1*K3^2*z1^2 - 2*K1*K3^2*z1*z2 - 2*K1*K3^2*z1*z3 + 2*K1*K3^2*z2*z3 -
  2*K1*K3*z1*z2 + 2*K1*K3*z1*z3 - 2*K1*K3*z2^2 - 2*K1*K3*z2*z3 +
  K2^2*K3^2*z2^2 + 2*K2^2*K3^2*z2*z3 + K2^2*K3^2*z3^2 + 2*K2^2*K3*z1*z2 -
  2*K2^2*K3*z1*z3 - 2*K2^2*K3*z2*z3 - 2*K2^2*K3*z3^2 + K2^2*z1^2 +
  2*K2^2*z1*z3 + K2^2*z3^2 - 2*K2*K3^2*z1*z2 + 2*K2*K3^2*z1*z3 -
  2*K2*K3^2*z2^2 - 2*K2*K3^2*z2*z3 - 2*K2*K3*z1^2 - 2*K2*K3*z1*z2 -
  2*K2*K3*z1*z3 + 2*K2*K3*z2*z3 + K3^2*z1^2 + 2*K3^2*z1*z2 + K3^2*z2^2.

Definition analytical_3_C (z1 z2 z3 K1 K2 K3 : R) : R :=
  K1*K2*K3*z1 + K1*K2*K3*z2 + K1*K2*K3*z3 - K1*K2*z1 - K1*K2*z2 -
  K1*K2*z3 - K1*K3*z1 - K1*K3*z2 - K1*K3*z3 + K1*z1 + K1*z2 + K1*z3 -
  K2*K3*z1 - K2*K3*z2 - K2*K3*z3 + K2*z1 + K2*z2 + K2*z3 + K3*z1 + K3*z2
  + K3*z3 - z1 - z2 - z3.

Definition analytical_3 (z1 z2 z3 K1 K2 K3 : R) : res R :=
  root ← pysqrt (analytical_3_B z1 z2 z3 K1 K2 K3);
  pydiv (analytical_3_A z1 z2 z3 K1 K2 K3 - root / 2)
        (analytical_3_C z1 z2 z3 K1 K2 K3).

(** [a, b = l] and [a, b, c = l] *)
Definition unpack2 (l : list R) : res (R * R) :=
  match l with
  | [a; b] => Ok (a, b)
  | _ => Raise ValueError
  end.

Definition unpack3 (l : list R) : res (R * R * R) :=
  match l with
  | [a; b; c] => Ok (a, b, c)
  | _ => Raise ValueError
  end.

(** What [flash_inner_loop] returns: the list of method names when
    [AvailableMethods] is set, else the tuple [(V_over_F, xs, ys)]. *)
Inductive inner_loop_result : Type :=
| Methods (names : list string)
| Solution (V_over_F : R) (xs ys : list R).

Definition solution (r : res (R * list R * list R)) : res inner_loop_result :=
  '(V_over_F, xs, ys) ← r; Ok (Solution V_over_F xs ys).

(** The tail of the Analytical branch:
    [xs = [zi/(1.+V_over_F*(Ki-1.)) for zi, Ki in zip(zs, Ks) if zi != 0.0]]
    [ys = [Ki*xi for xi, Ki in zip(xs, Ks)]]. *)
Definition analytical_xs_ys (V_over_F : R) (zs Ks : list R) : res inner_loop_result :=
  xs ← mapM (fun zK => pydiv zK.1 (1 + V_over_F * (zK.2 - 1)))
            (filter (fun zK => zK.1 <> 0) (zip zs Ks));
  let ys := zip_with (fun xi Ki => Ki * xi) xs Ks in
  Ok (Solution V_over_F xs ys).

(** [flash_inner_loop(zs, Ks, AvailableMethods=False, Method=None)] *)
Definition flash_inner_loop (zs Ks : list R) (AvailableMethods : bool)
    (Method : option string) : res inner_loop_result :=
  if AvailableMethods then Ok (Methods (flash_inner_loop_list_methods (length zs)))
  else
    let Method :=
      match Method with
      | None =>
          let l := length zs in
          if bool_decide (l < 4)%nat then FLASH_INNER_ANALYTICAL
          else if negb IS_PYPY && bool_decide (10 ≤ l)%nat then FLASH_INNER_NUMPY
          else FLASH_INNER_SECANT
      | Some m => m
      end in
    if bool_decide (Method = FLASH_INNER_SECANT) then
      solution (Rachford_Rice_solution zs Ks false false)
    else if bool_decide (Method = FLASH_INNER_ANALYTICAL) then
      let l := length zs in
      if bool_decide (l = 2%nat) then
        '(z1, z2) ← unpack2 zs;
        '(K1, K2) ← unpack2 Ks;
        match analytical_2 z1 z2 K1 K2 with
        | Ok V_over_F => analytical_xs_ys V_over_F zs Ks
        | Raise ZeroDivisionError =>
            solution (Rachford_Rice_solution zs Ks false false)
        | Raise e => Raise e
        end
      else if bool_decide (l = 3%nat) then
        '(z1, z2, z3) ← unpack3 zs;
        '(K1, K2, K3) ← unpack3 Ks;
        V_over_F ← analytical_3 z1 z2 z3 K1 K2 K3;
        analytical_xs_ys V_over_F zs Ks
      else
        Raise (Exception
                 "Only solutions of one or two variables are available analytically")
    else if bool_decide (Method = FLASH_INNER_NUMPY) then
      solution (Rachford_Rice_solution_numpy zs Ks)
    else if bool_decide (Method = FLASH_INNER_NR) then
      solution (Rachford_Rice_solution zs Ks true false)
    else if bool_decide (Method = FLASH_INNER_HALLEY) then
      solution (Rachford_Rice_solution zs Ks true true)
    else if bool_decide (Method = FLASH_INNER_LJA) then
      solution (Li_Johns_Ahmadi_solution zs Ks)
    else Raise (Exception "Incorrect Method input").

(** [V_over_F, xs, ys = flash_inner_loop(...)] *)
Definition unpack_solution (r : inner_loop_result) : res (R * list R * list R) :=
  match r with
  | Solution V_over_F xs ys => Ok (V_over_F, xs, ys)
  | Methods _ => Raise ValueError
  end.

#[global] Arguments flash_inner_loop : simpl never.

(** What [flash_wilson] returns: [(T, P, VF, xs, ys)], or the empty tuple
    that [tuple(info)] is when no evaluation filled [info]. *)
Inductive flash_result : Type :=
| FlashTuple (T P VF : R) (xs ys : list R)
| EmptyTuple.

(** [r[0]], [r[1]] and [T_calc, P_calc, VF_calc, xs, ys = r] *)
Definition result_T (r : flash_result) : res R :=
  match r with
  | FlashTuple T _ _ _ _ => Ok T
  | EmptyTuple => Raise IndexError
  end.

Definition result_P (r : flash_result) : res R :=
  match r with
  | FlashTuple _ P _ _ _ => Ok P
  | EmptyTuple => Raise IndexError
  end.

Definition result_VF (r : flash_result) : res R :=
  match r with
  | FlashTuple _ _ VF _ _ => Ok VF
  | EmptyTuple => Raise ValueError
  end.

(** The content of [info] once the solver is done: what the last call of
    [err] that reached [info[:] = ...] stored. *)
Definition last_info (run : R -> res flash_result) (calls : list R) : flash_result :=
  fold_left (fun info x => match run x with
                           | Ok (FlashTuple T P VF xs ys) => FlashTuple T P VF xs ys
                           | _ => info
                           end)
            calls EmptyTuple.

(** The accumulation of [P_bubble] (lines 301-303 and 349-351). *)
Definition P_bubble_loop (zs Tcs Pcs omegas : list R) (T : R) : res R :=
  for_range (length zs) (fun i P_bubble =>
      z ← getitem zs i;
      Pc ← getitem Pcs i;
      w ← getitem omegas i;
      Tc ← getitem Tcs i;
      q ← pydiv Tc T;
      Ok (P_bubble + z * Pc * exp (5.37 * (1.0 + w) * (1.0 - q))))
    0.

(** The accumulation of [P_dew] and its inversion (lines 306-309 and
    326-329). *)
Definition P_dew_loop (zs Tcs Pcs omegas : list R) (T : R) : res R :=
  P_dew ← for_range (length zs) (fun i P_dew =>
              z ← getitem zs i;
              Pc ← getitem Pcs i;
              w ← getitem omegas i;
              Tc ← getitem Tcs i;
              q ← pydiv Tc T;
              t ← pydiv z (Pc * exp (5.37 * (1.0 + w) * (1.0 - q)));
              Ok (P_dew + t))
            0;
  pydiv 1 P_dew.

(** [sum([c*Tcs[i]*zs[i] for i in cmps])] *)
Definition T_guess_sum (c : R) (zs Tcs : list R) : res R :=
  terms ← comprehension (length zs) (fun i =>
             Tc ← getitem Tcs i; z ← getitem zs i; Ok (c * Tc * z));
  Ok (pysum terms).

Definition T_MAX : R := 50000.

Definition bisect_message : string :=
  "Bisecting solver could not find a solution between %g K and %g K".

(** The [T]-and-[P] mode of [flash_wilson], its first branch (lines
    297-299). *)
Definition flash_wilson_TP (zs Tcs Pcs omegas : list R) (T P : R)
    : res flash_result :=
  Ks ← comprehension (length zs) (fun i =>
          Tc ← getitem Tcs i;
          Pc ← getitem Pcs i;
          w ← getitem omegas i;
          Wilson_K_value T P Tc Pc w);
  r ← flash_inner_loop zs Ks false None;
  '(V_over_F, xs, ys) ← unpack_solution r;
  Ok (FlashTuple T P V_over_F xs ys).

(** The body of [flash_wilson(zs, Tcs, Pcs, omegas, T=None, P=None, VF=None)];
    [self] stands for the recursive calls. *)
Definition flash_wilson_body
    (self : list R -> list R -> list R -> list R -> pyfloat -> pyfloat -> pyfloat
            -> res flash_result)
    (zs Tcs Pcs omegas : list R) (T P VF : pyfloat) : res flash_result :=
  match T, P with
  | Some T, Some P => flash_wilson_TP zs Tcs Pcs omegas T P
  | _, _ =>
  if negb (is_None T) && bool_decide (VF = Some 0) then
    P_bubble ← P_bubble_loop zs Tcs Pcs omegas (default 0 T);
    self zs Tcs Pcs omegas T (Some P_bubble) None
  else if negb (is_None T) && bool_decide (VF = Some 1) then
    P_dew ← P_dew_loop zs Tcs Pcs omegas (default 0 T);
    self zs Tcs Pcs omegas T (Some P_dew) None
  else if negb (is_None T) && negb (is_None VF) then
    r_low ← self zs Tcs Pcs omegas T None (Some 1);
    P_low ← result_P r_low;
    r_high ← self zs Tcs Pcs omegas T None (Some 0);
    P_high ← result_P r_high;
    let run := fun P => self zs Tcs Pcs omegas T (Some P) None in
    let err := fun P => r ← run P; VF_calc ← result_VF r; Ok (VF_calc - default 0 VF) in
    _ ← brenth err P_low P_high None;
    Ok (last_info run (brenth_calls err P_low P_high None))
  else if negb (is_None P) && bool_decide (VF = Some 1) then
    let to_solve := fun T_guess =>
      P_dew ← P_dew_loop zs Tcs Pcs omegas (Rabs T_guess);
      Ok (P_dew - default 0 P) in
    T_guess ← T_guess_sum 0.666 zs Tcs;
    let T_dew :=
      match newton to_solve T_guess
                   {| kw_fprime := None; kw_fprime2 := None; kw_high := None;
                      kw_low := None; kw_maxiter := Some 50%nat |} with
      | Ok x => Some (Rabs x)
      | Raise _ => None
      end in
    T_dew ←
      (if is_None T_dew || bool_decide (default 0 T_dew > T_MAX * 5.0) then
         T_low_guess ← T_guess_sum 0.1 zs Tcs;
         try_except_ValueError
           (brenth to_solve T_MAX T_low_guess None)
           (Raise (ExceptionFmt bisect_message [T_MAX; T_low_guess]))
       else Ok (default 0 T_dew));
    self zs Tcs Pcs omegas (Some T_dew) P None
  else if negb (is_None P) && bool_decide (VF = Some 0) then
    let to_solve := fun T_guess =>
      P_bubble ← P_bubble_loop zs Tcs Pcs omegas (Rabs T_guess);
      Ok (P_bubble - default 0 P) in
    T_guess ← T_guess_sum 0.55 zs Tcs;
    x ← newton to_solve T_guess no_kwargs;
    let T_bubble := Rabs x in
    T_bubble ←
      (if bool_decide (T_bubble > T_MAX * 5.0) then
         T_low_guess ← T_guess_sum 0.1 zs Tcs;
         try_except_ValueError
           (brenth to_solve T_MAX T_low_guess None)
           (Raise (ExceptionFmt bisect_message [T_MAX; T_low_guess]))
       else Ok T_bubble);
    self zs Tcs Pcs omegas (Some T_bubble) P None
  else if negb (is_None P) && negb (is_None VF) then
    r_low ← self zs Tcs Pcs omegas None P (Some 1);
    T_low ← result_T r_low;
    r_high ← self zs Tcs Pcs omegas None P (Some 0);
    T_high ← result_T r_high;
    let run := fun T => self zs Tcs Pcs omegas (Some T) P None in
    let err := fun T => r ← run T; VF_calc ← result_VF r; Ok (VF_calc - default 0 VF) in
    _ ← brenth err T_low T_high (Some 1e-14);
    Ok (last_info run (brenth_calls err T_low T_high (Some 1e-14)))
  else Raise (ValueErrorMsg "Provide two of P, T, and VF")
  end.

(** The recursion of [flash_wilson], unfolded [depth] times. *)
Fixpoint flash_wilson_depth (depth : nat)
    (zs Tcs Pcs omegas : list R) (T P VF : pyfloat) : res flash_result :=
  match depth with
  | O => Raise RecursionError
  | S depth => flash_wilson_body (flash_wilson_depth depth) zs Tcs Pcs omegas T P VF
  end.

(** [flash_wilson]: a call recurses at most twice (a mode with [VF] strictly
    inside calls a bubble or dew mode, which calls the [T]-and-[P] mode). *)
Definition flash_wilson := flash_wilson_depth 3.

(** [valid_range(zs, Ks)], the local function of [flash]. *)
Definition valid_range (zs : pylist) (Ks : list R) : res bool :=
  let valid := true in
  terms ← comprehension (length Ks) (fun i =>
             z ← getitem zs i; K ← getitem Ks i; fmul z (Some K));
  let valid := if decide (pysum terms < 1) then false else valid in
  terms ← comprehension (length Ks) (fun i =>
             z ← getitem zs i; K ← getitem Ks i; fdiv z (Some K));
  let valid := if decide (pysum terms < 1) then false else valid in
  Ok valid.

(** [flash(P, zs, Psats)].  The composition reaches [flash_inner_loop] as a
    list of floats: [none_and_length_check] has excluded [None] items. *)
Definition flash (P : pyfloat) (zs Psats : pylist) : res (list R * list R * R) :=
  if negb (none_and_length_check [zs; Psats]) then
    Raise (Exception dimensions_message)
  else
    Ks ← comprehension (length zs) (fun i =>
            Psat ← getitem Psats i;
            K_value P Psat None None None K_value_Poynting_default);
    valid ← valid_range zs Ks;
    if negb valid then Raise (Exception "Solution does not exist")
    else
      zs' ← mapM as_float zs;
      r ← flash_inner_loop zs' Ks false None;
      '(V_over_F, xs, ys) ← unpack_solution r;
      if decide (V_over_F < 0) then Raise (Exception "V_over_F is negative!")
      else Ok (xs, ys, V_over_F).

End Flash.

(* ===================================================================== *)
(** * Objects: the store behind [thermo/nrtl.py] *)
(* ===================================================================== *)

(** Objects live in a heap and are named by their location; an attribute or
    a variable holding a list holds a reference to it, so that two instances
    can share one coefficient matrix. *)
Abbreviation loc := positive.

Inductive value : Type :=
| VNone
| VFloat (x : R)
| VInt (n : nat)
| VRange (n : nat)
| VRef (l : loc).

(** A list of floats, a list of lists of floats (a matrix), a list of lists
    of tuples of floats (the [tau_coeffs] and [alpha_coeffs] a constructor
    takes), or an instance with its attribute dictionary. *)
Inductive object : Type :=
| OList (items : list R)
| OMatrix (rows : list (list R))
| OTensor (cells : list (list (list R)))
| OInstance (attrs : gmap string value).

Abbreviation heap := (gmap loc object).

(** A location not in use. *)
Definition alloc (h : heap) : loc := fresh (dom h).

(** [self.name] *)
Definition getattr (h : heap) (self : loc) (name : string) : res value :=
  match h !! self with
  | Some (OInstance attrs) =>
      match attrs !! name with
      | Some v => Ok v
      | None => Raise AttributeError
      end
  | _ => Raise AttributeError
  end.

(** [self.name = v] *)
Definition setattr (h : heap) (self : loc) (name : string) (v : value) : heap :=
  match h !! self with
  | Some (OInstance attrs) => <[self := OInstance (<[name := v]> attrs)]> h
  | _ => h
  end.

(** A value used as a number. *)
Definition vfloat (v : value) : res R :=
  match v with
  | VFloat x => Ok x
  | VInt n => Ok (INR n)
  | _ => Raise TypeError
  end.

(** A value used as a list of floats, as a matrix, as a [range]. *)
Definition vlist (h : heap) (v : value) : res (list R) :=
  match v with
  | VRef l => match h !! l with
              | Some (OList items) => Ok items
              | _ => Raise TypeError
              end
  | _ => Raise TypeError
  end.

Definition vmatrix (h : heap) (v : value) : res (list (list R)) :=
  match v with
  | VRef l => match h !! l with
              | Some (OMatrix rows) => Ok rows
              | _ => Raise TypeError
              end
  | _ => Raise TypeError
  end.

Definition vtensor (h : heap) (v : value) : res (list (list (list R))) :=
  match v with
  | VRef l => match h !! l with
              | Some (OTensor cells) => Ok cells
              | _ => Raise TypeError
              end
  | _ => Raise TypeError
  end.

Definition vrange (v : value) : res (list nat) :=
  match v with
  | VRange n => Ok (range n)
  | _ => Raise TypeError
  end.

(** [len(v)] *)
Definition vlen (h : heap) (v : value) : res nat :=
  match v with
  | VRef l => match h !! l with
              | Some (OList items) => Ok (length items)
              | Some (OMatrix rows) => Ok (length rows)
              | Some (OTensor cells) => Ok (length cells)
              | _ => Raise TypeError
              end
  | VRange n => Ok n
  | _ => Raise TypeError
  end.

(** [m[i]] on a value that should be a matrix, and [m[i][j]]. *)
Definition vrow (h : heap) (m : value) (i : nat) : res (list R) :=
  rows ← vmatrix h m; getitem rows i.

(** [a == b] for a float [a]. *)
Definition float_eq (a : R) (b : value) : bool :=
  match b with
  | VFloat x => bool_decide (a = x)
  | VInt n => bool_decide (a = INR n)
  | _ => false
  end.

(* ===================================================================== *)
(** * thermo/nrtl.py: the NRTL Gibbs-excess model *)
(* ===================================================================== *)

Section NRTLClass.
Local Open Scope R_scope.

(** Modelled from the spec: [NRTL_gammas], which [thermo/nrtl.py] imports from
    [thermo.activity], is not defined in the sources; the spec has [gammas()]
    call "the same closed-form activity-coefficient formula documented for
    the stateless NRTL function", which is [NRTL] above. *)
Definition NRTL_gammas (xs : list R) (taus alphas : list (list R)) : res (list R) :=
  NRTL xs taus alphas.

(** The names of the eight coefficient matrices, in the order of the
    [ABEFGHCD] tuple. *)
Definition coefficient_names : list string :=
  ["tau_coeffs_A"; "tau_coeffs_B"; "tau_coeffs_E"; "tau_coeffs_F";
   "tau_coeffs_G"; "tau_coeffs_H"; "alpha_coeffs_c"; "alpha_coeffs_d"].

(** [[[i[k] for i in l] for l in coeffs]] *)
Definition component (k : nat) (cells : list (list (list R))) : res (list (list R)) :=
  mapM (fun l => mapM (fun i => getitem i k) l) cells.

(** [self.name = [[i[k] for i in l] for l in coeffs]] for each of [names],
    [k] counting from [k0]; every matrix is a new object. *)
Fixpoint store_components (h : heap) (self : loc) (cells : list (list (list R)))
    (names : list string) (k0 : nat) : res heap :=
  match names with
  | [] => Ok h
  | name :: names =>
      m ← component k0 cells;
      let l := alloc h in
      let h := setattr (<[l := OMatrix m]> h) self name (VRef l) in
      store_components h self cells names (S k0)
  end.

(** [self.name = None] for each of [names]. *)
Definition store_None (h : heap) (self : loc) (names : list string) : heap :=
  foldl (fun h name => setattr h self name VNone) h names.

(** [NRTL(T, xs, tau_coeffs=None, alpha_coeffs=None, ABEFGHCD=None)]: a new
    instance, initialised by [__init__]. *)
Definition NRTL_new (h : heap) (T xs tau_coeffs alpha_coeffs : value)
    (ABEFGHCD : option (list value)) : res (heap * loc) :=
  let self := alloc h in
  let h := <[self := OInstance ∅]> h in
  let h := setattr h self "T" T in
  let h := setattr h self "xs" xs in
  h ← match ABEFGHCD with
      | Some coeffs =>
          if bool_decide (length coeffs = 8%nat)
          then Ok (foldl (fun h nv => setattr h self nv.1 nv.2) h
                         (zip coefficient_names coeffs))
          else Raise ValueError
      | None =>
          let h := setattr h self "tau_coeffs" tau_coeffs in
          h ← match tau_coeffs with
              | VNone => Ok (store_None h self (take 6 coefficient_names))
              | _ => cells ← vtensor h tau_coeffs;
                     store_components h self cells (take 6 coefficient_names) 0
              end;
          let h := setattr h self "alpha_coeffs" alpha_coeffs in
          match alpha_coeffs with
          | VNone => Ok (store_None h self (drop 6 coefficient_names))
          | _ => cells ← vtensor h alpha_coeffs;
                 store_components h self cells (drop 6 coefficient_names) 0
          end
      end;
  A ← getattr h self "tau_coeffs_A";
  N ← vlen h A;
  let h := setattr h self "N" (VInt N) in
  let h := setattr h self "cmps" (VRange N) in
  let z := alloc h in
  let h := <[z := OMatrix (replicate N (replicate N 0))]> h in
  Ok (setattr h self "zero_coeffs" (VRef z), self).

(** The attributes [to_T_xs] copies from [self] to [new], in order. *)
Definition copied_names : list string :=
  ["N"; "cmps"; "zero_coeffs"] ++ coefficient_names.

(** [new.name = self.name] for each of [names]. *)
Fixpoint copy_attrs (h : heap) (self : loc) (names : list string)
    (new : gmap string value) : res (gmap string value) :=
  match names with
  | [] => Ok new
  | name :: names =>
      v ← getattr h self name;
      copy_attrs h self names (<[name := v]> new)
  end.

(** [to_T_xs(self, T, xs)].  The new object becomes reachable only through
    the returned reference, so it enters the heap when the method returns. *)
Definition to_T_xs (h : heap) (self : loc) (T : R) (xs : value) : res (heap * loc) :=
  let new : gmap string value := ∅ in
  let new := <["T" := VFloat T]> new in
  let new := <["xs" := xs]> new in
  new ← copy_attrs h self copied_names new;
  self_T ← getattr h self "T";
  new ← (if float_eq T self_T then
           match getattr h self "_lambdas" with
           | Ok v => Ok (<["_lambdas" := v]> new)
           | Raise AttributeError => Ok new
           | Raise e => Raise e
           end
         else Ok new);
  let l := alloc h in
  Ok (<[l := OInstance new]> h, l).

(** [taus(self)] *)
Definition taus (h : heap) (self : loc) : res (list (list R)) :=
  tau_coeffs_A ← getattr h self "tau_coeffs_A";
  tau_coeffs_B ← getattr h self "tau_coeffs_B";
  tau_coeffs_E ← getattr h self "tau_coeffs_E";
  tau_coeffs_F ← getattr h self "tau_coeffs_F";
  tau_coeffs_G ← getattr h self "tau_coeffs_G";
  tau_coeffs_H ← getattr h self "tau_coeffs_H";
  T ← getattr h self "T";
  N ← getattr h self "N";
  cmps ← getattr h self "cmps";
  T ← vfloat T;
  let T2 := T * T in
  Tinv ← pydiv 1.0 T;
  let T2inv := Tinv * Tinv in
  logT ← pylog T;
  taus ← vmatrix h tau_coeffs_A;
  cmps ← vrange cmps;
  foldM (fun i taus =>
      tau_coeffs_Bi ← vrow h tau_coeffs_B i;
      tau_coeffs_Ei ← vrow h tau_coeffs_E i;
      tau_coeffs_Fi ← vrow h tau_coeffs_F i;
      tau_coeffs_Gi ← vrow h tau_coeffs_G i;
      tau_coeffs_Hi ← vrow h tau_coeffs_H i;
      tausi ← getitem taus i;
      tausi ← foldM (fun j tausi =>
                  old ← getitem tausi j;
                  b ← getitem tau_coeffs_Bi j;
                  e ← getitem tau_coeffs_Ei j;
                  f ← getitem tau_coeffs_Fi j;
                  g ← getitem tau_coeffs_Gi j;
                  hh ← getitem tau_coeffs_Hi j;
                  Ok (<[j := old + (b * Tinv + e * logT + f * T + g * T2inv + hh * T2)]>
                        tausi))
                cmps tausi;
      Ok (<[i := tausi]> taus))
    cmps taus.

(** [alphas(self)] *)
Definition alphas (h : heap) (self : loc) : res (list (list R)) :=
  T ← getattr h self "T";
  cmps ← getattr h self "cmps";
  alpha_coeffs_c ← getattr h self "alpha_coeffs_c";
  alpha_coeffs_d ← getattr h self "alpha_coeffs_d";
  cmps ← vrange cmps;
  mapM (fun i =>
      alpha_coeffs_ci ← vrow h alpha_coeffs_c i;
      alpha_coeffs_di ← vrow h alpha_coeffs_d i;
      mapM (fun j =>
          c ← getitem alpha_coeffs_ci j;
          d ← getitem alpha_coeffs_di j;
          t ← vfloat T;
          Ok (c + d * t))
        cmps)
    cmps.

(** [Gs(self)] *)
Definition Gs (h : heap) (self : loc) : res (list (list R)) :=
  alphas ← alphas h self;
  taus ← taus h self;
  cmps ← getattr h self "cmps";
  cmps ← vrange cmps;
  mapM (fun i =>
      alphasi ← getitem alphas i;
      tausi ← getitem taus i;
      mapM (fun j =>
          a ← getitem alphasi j;
          t ← getitem tausi j;
          Ok (exp (- a * t)))
        cmps)
    cmps.

(** [gammas(self)] *)
Definition gammas (h : heap) (self : loc) : res (list R) :=
  alphas ← alphas h self;
  taus ← taus h self;
  xs ← getattr h self "xs";
  xs ← vlist h xs;
  NRTL_gammas xs taus alphas.

(** [xj_Gs_jis.append(tot)] on the list at [c]. *)
Definition append (h : heap) (c : loc) (x : R) : heap :=
  match h !! c with
  | Some (OList items) => <[c := OList (items ++ [x])]> h
  | _ => h
  end.

(** The loop of [xj_Gs_jis], filling the list at [c]; the heap is handed
    back on a raise too, since what was appended stays appended. *)
Fixpoint xj_Gs_jis_loop (h : heap) (c : loc) (xs : value) (Gs : list (list R))
    (cmps rest : list nat) : heap * res unit :=
  match rest with
  | [] => (h, Ok tt)
  | i :: rest =>
      match foldM (fun j tot =>
                     xs ← vlist h xs;
                     xj ← getitem xs j;
                     G_ji ← getitem2 Gs j i;
                     Ok (tot + xj * G_ji))
                  cmps 0 with
      | Ok tot => xj_Gs_jis_loop (append h c tot) c xs Gs cmps rest
      | Raise e => (h, Raise e)
      end
  end.

(** [xj_Gs_jis(self)]: the cached list if there is one, else a new list,
    stored in [self._xj_Gs_jis] before it is filled. *)
Definition xj_Gs_jis (h : heap) (self : loc) : heap * res value :=
  match getattr h self "_xj_Gs_jis" with
  | Ok v => (h, Ok v)
  | Raise _ =>
      let Gs := match getattr h self "_Gs" with
                | Ok m => vmatrix h m
                | Raise _ => Gs h self
                end in
      match (Gs ← Gs;
             xs ← getattr h self "xs";
             cmps ← getattr h self "cmps";
             Ok (Gs, xs, cmps)) with
      | Raise e => (h, Raise e)
      | Ok (Gs, xs, cmps) =>
          let c := alloc h in
          let h := setattr (<[c := OList []]> h) self "_xj_Gs_jis" (VRef c) in
          match vrange cmps with
          | Raise e => (h, Raise e)
          | Ok cmps =>
              let '(h, r) := xj_Gs_jis_loop h c xs Gs cmps cmps in
              (h, _ ← r; Ok (VRef c))
          end
      end
  end.

End NRTLClass.

#[global] Arguments vmatrix : simpl never.
#[global] Arguments vlist : simpl never.
#[global] Arguments getattr : simpl never.

(** An instance for two species at [T = 1]: [tau_coeffs_A] at location 1, a
    zero matrix at location 2 that serves as [B], [E], [F], [G], [H],
    [alpha_coeffs_d] and [zero_coeffs], [alpha_coeffs_c] at location 3, the
    composition at location 4 and the instance at location 5. *)
Definition example_attrs : gmap string value :=
  list_to_map
    [("T", VFloat 1); ("xs", VRef 4); ("N", VInt 2); ("cmps", VRange 2);
     ("zero_coeffs", VRef 2);
     ("tau_coeffs_A", VRef 1); ("tau_coeffs_B", VRef 2); ("tau_coeffs_E", VRef 2);
     ("tau_coeffs_F", VRef 2); ("tau_coeffs_G", VRef 2); ("tau_coeffs_H", VRef 2);
     ("alpha_coeffs_c", VRef 3); ("alpha_coeffs_d", VRef 2)].

Definition example_heap : heap :=
  list_to_map
    [(1%positive, OMatrix [[0; 1]; [2; 0]]%R);
     (2%positive, OMatrix [[0; 0]; [0; 0]]%R);
     (3%positive, OMatrix [[0; 0.3]; [0.3; 0]]%R);
     (4%positive, OList [0.25; 0.75]%R);
     (5%positive, OInstance example_attrs)].

(* ===================================================================== *)
(** * Further functions of thermo/activity.py and thermo/nrtl.py *)
(* ===================================================================== *)

Section MoreActivity.
Local Open Scope R_scope.

(** [Rachford_Rice_flash_error(V_over_F, zs, Ks)] *)
Definition Rachford_Rice_flash_error (V_over_F : R) (zs Ks : list R) : res R :=
  terms ← zip_comprehension
             (fun Ki zi => pydiv (zi * (Ki - 1)) (1 + V_over_F * (Ki - 1)))
             Ks zs;
  Ok (pysum terms).

(** [UNIQUAC(xs, rs, qs, taus)] *)
Definition UNIQUAC (xs rs qs : list R) (taus : list (list R)) : res (list R) :=
  let N := length xs in
  rsxs ← comprehension N (fun i => r ← getitem rs i; x ← getitem xs i; Ok (r * x));
  let rsxs_sum := pysum rsxs in
  phis ← comprehension N (fun i => rx ← getitem rsxs i; pydiv rx rsxs_sum);
  qsxs ← comprehension N (fun i => q ← getitem qs i; x ← getitem xs i; Ok (q * x));
  let qsxs_sum := pysum qsxs in
  vs ← comprehension N (fun i => qx ← getitem qsxs i; pydiv qx qsxs_sum);
  Ss ← comprehension N (fun i =>
          terms ← comprehension N (fun j =>
                     v ← getitem vs j; t ← getitem2 taus j i; Ok (v * t));
          Ok (pysum terms));
  VsSs ← comprehension N (fun j => v ← getitem vs j; S ← getitem Ss j; pydiv v S);
  comprehension N (fun i =>
    phi ← getitem phis i;
    x ← getitem xs i;
    x1 ← pydiv phi x;
    phi ← getitem phis i;
    v ← getitem vs i;
    x2 ← pydiv phi v;
    l1 ← pylog x1;
    q ← getitem qs i;
    l2 ← pylog x2;
    let loggammac := l1 + 1.0 - x1 - 5.0 * q * (l2 + 1.0 - x2) in
    q ← getitem qs i;
    S ← getitem Ss i;
    lS ← pylog S;
    terms ← comprehension N (fun j =>
               t ← getitem2 taus i j; w ← getitem VsSs j; Ok (t * w));
    let loggammar := q * (1.0 - lS - pysum terms) in
    Ok (exp (loggammac + loggammar))).

(** [flash_inner_loop_methods], the module-level list of accepted names
    (the Secant name is listed twice in the source). *)
Definition flash_inner_loop_methods : list string :=
  [FLASH_INNER_ANALYTICAL;
   FLASH_INNER_SECANT; FLASH_INNER_SECANT;
   FLASH_INNER_NR; FLASH_INNER_HALLEY;
   FLASH_INNER_NUMPY; FLASH_INNER_LJA].

End MoreActivity.

(** A toolkit whose open root finder hands back [root] at once; it serves to
    run the solver paths on literal inputs. *)
Definition oracle_numerics (root : R) : Numerics :=
  {| newton := fun _ _ _ => Ok root;
     brenth := fun _ _ _ _ => Raise ValueError;
     brenth_calls := fun _ _ _ _ => [];
     IS_PYPY := false;
     one_epsilon_larger := (1 + / 2 ^ 52)%R;
     one_epsilon_smaller := (1 - / 2 ^ 52)%R;
     Rachford_Rice_solution_numpy := fun _ _ => Raise (Exception "NumPy is missing") |}.

(** The example instance with a composition that is one entry short: two
    species, but [xs] holds one fraction. *)
Definition short_heap : heap :=
  list_to_map
    [(1%positive, OMatrix [[0; 1]; [2; 0]]%R);
     (2%positive, OMatrix [[0; 0]; [0; 0]]%R);
     (3%positive, OMatrix [[0; 0.3]; [0.3; 0]]%R);
     (4%positive, OList [0.25]%R);
     (5%positive, OInstance example_attrs)].

(* ===================================================================== *)
(** * The vocabulary of the specification *)
(* ===================================================================== *)

Section Vocabulary.
Local Open Scope R_scope.

(** A rule of [identify_phase] fires when its property is supplied, is not
    zero, and passes the rule's comparison. *)
Definition fires (v : pyfloat) (test : R -> Prop) : Prop :=
  exists x, v = Some x /\ x <> 0 /\ test x.

(** The sum of a list of reals, from the right. *)
Definition Rsum (l : list R) : R := foldr Rplus 0 l.

(** The closed-form bubble pressure of the Wilson correlation, in the
    spec's words: the sum over the species of
    [zs[i] * Pcs[i] * exp(5.37 * (1 + omegas[i]) * (1 - Tcs[i]/T))]. *)
Definition P_bubble_closed_form (zs Tcs Pcs omegas : list R) (T : R) : R :=
  Rsum (zip_with (fun z '(Pc, w, Tc) =>
                    z * Pc * exp (5.37 * (1 + w) * (1 - Tc / T)))
                 zs (zip (zip Pcs omegas) Tcs)).

(** A composition vector: mole fractions, none negative, that sum to 1. *)
Definition composition (xs : list R) : Prop :=
  Forall (fun x => 0 <= x) xs /\ Rsum xs = 1.

End Vocabulary.

(* ===================================================================== *)
(** * Closed forms used by the further properties *)
(* ===================================================================== *)

Section ClosedForms.
Local Open Scope R_scope.

(** The sum that [flash_wilson] accumulates for the dew pressure, the sum
    over the species of
    [zs[i] / (Pcs[i] * exp(5.37 * (1 + omegas[i]) * (1 - Tcs[i]/T)))], and
    the dew pressure, its inverse. *)
Definition P_dew_inverse (zs Tcs Pcs omegas : list R) (T : R) : R :=
  Rsum (zip_with (fun z '(Pc, w, Tc) =>
                    z / (Pc * exp (5.37 * (1 + w) * (1 - Tc / T))))
                 zs (zip (zip Pcs omegas) Tcs)).

Definition P_dew_closed_form (zs Tcs Pcs omegas : list R) (T : R) : R :=
  1 / P_dew_inverse zs Tcs Pcs omegas T.

(** The K-values [flash_wilson] evaluates at [T] and [P] (line 298). *)
Definition Wilson_Ks (n : nat) (Tcs Pcs omegas : list R) (T P : R) : res (list R) :=
  comprehension n (fun i =>
    Tc ← getitem Tcs i;
    Pc ← getitem Pcs i;
    w ← getitem omegas i;
    Wilson_K_value T P Tc Pc w).

End ClosedForms.

Section HeapExtension.

(** What the steps of a method keep: in the later heap [h], [self] is an
    instance with attributes [attrs], and every other object of the earlier
    heap [h0] is as it was. *)
Definition extends (h0 h : heap) (self : loc) (attrs : gmap string value) : Prop :=
  h !! self = Some (OInstance attrs)
  /\ forall l o, l <> self -> h0 !! l = Some o -> h !! l = Some o.

End HeapExtension.

(* ===================================================================== *)
(** * Properties *)
(* ===================================================================== *)

(** ** Evaluating the runtime fragment *)

Section RuntimeFacts.
Local Open Scope R_scope.

Lemma pydiv_ok (x y : R) : y <> 0 -> pydiv x y = Ok (x / y).
Proof. intros Hy. unfold pydiv. case_decide; [contradiction | reflexivity]. Qed.

Lemma pydiv_zero (x : R) : pydiv x 0 = Raise ZeroDivisionError.
Proof. unfold pydiv. case_decide; [reflexivity | contradiction]. Qed.

Lemma truthy_Some (x : R) : x <> 0 -> truthy (Some x) = true.
Proof. intros Hx. unfold truthy. apply bool_decide_eq_true_2, Hx. Qed.

Lemma truthy_zero : truthy (Some 0) = false.
Proof. unfold truthy. apply bool_decide_eq_false_2. intros Hne. apply Hne. reflexivity. Qed.

Lemma truthy_true_inv (v : pyfloat) : truthy v = true -> exists x, v = Some x /\ x <> 0.
Proof.
  destruct v as [x|]; simpl; [|discriminate].
  intros Hx. apply bool_decide_eq_true_1 in Hx. eauto.
Qed.

Lemma truthy_false_inv (v : pyfloat) : truthy v = false -> v = None \/ v = Some 0.
Proof.
  destruct v as [x|]; simpl; [|auto].
  intros Hx. apply bool_decide_eq_false_1 in Hx. right. f_equal.
  destruct (decide (x = 0)) as [->|Hne]; [reflexivity | contradiction].
Qed.

End RuntimeFacts.

(** Case analysis on every optional float left in the context. *)
Ltac destruct_pyfloats :=
  repeat match goal with v : option R |- _ => destruct v end.

(** Unfolds the arithmetic on optional operands and the handlers. *)
Ltac py_unfold :=
  unfold fdiv, fmul, as_float, try_except_TypeError, try_except_ValueError,
    try_except; simpl.

(** Equalities between constant real expressions, and between lists of
    them. *)
Ltac Rconst := first [lra | field; lra | field].

Ltac Rlist :=
  repeat match goal with
         | |- _ :: _ = _ :: _ => apply (f_equal2 cons); [Rconst|]
         | |- [] = [] => reflexivity
         end.

(** Decides the tests met while a definition is run on literal floats. *)
Ltac run_floats :=
  repeat (first
    [ progress simpl
    | rewrite pydiv_ok by lra
    | rewrite bool_decide_eq_true_2 by lra
    | rewrite bool_decide_eq_false_2 by lra
    | case_decide; try lra; try contradiction ]).

(** ** K-values *)

Section KValue.
Local Open Scope R_scope.

(** C10: [K_value] tests its optional arguments for truth, not for presence.
    A supplied [0.0] is false: with [P] and [Psat] supplied and [gamma = 0.0]
    the call returns [Psat/P], and a supplied [0.0] for [gamma] or for [phi_l]
    gives the call the result it has with that argument left at [None].  A
    supplied nonzero value, negative ones included, is true and selects its
    formula: a nonzero [gamma] without [phi_l] gives [gamma*Psat*Poynting/P],
    a nonzero [phi_l] without [gamma] gives [phi_l/phi_g], and both nonzero
    give [gamma*Psat*phi_l*Poynting/(phi_g*P)]. *)
Theorem K_value_tests_truthiness :
  (forall p psat phi_g Poynting,
      p <> 0 ->
      K_value (Some p) (Some psat) None phi_g (Some 0) Poynting = Ok (psat / p))
  /\ (forall P Psat phi_l phi_g Poynting,
         K_value P Psat phi_l phi_g (Some 0) Poynting
         = K_value P Psat phi_l phi_g None Poynting)
  /\ (forall P Psat phi_g gamma Poynting,
         K_value P Psat (Some 0) phi_g gamma Poynting
         = K_value P Psat None phi_g gamma Poynting)
  /\ (forall p psat g py phi_l phi_g,
         g <> 0 -> p <> 0 -> phi_l = None \/ phi_l = Some 0 ->
         K_value (Some p) (Some psat) phi_l phi_g (Some g) (Some py)
         = Ok (g * psat * py / p))
  /\ (forall P Psat pl pg gamma Poynting,
         pl <> 0 -> pg <> 0 -> gamma = None \/ gamma = Some 0 ->
         K_value P Psat (Some pl) (Some pg) gamma Poynting = Ok (pl / pg))
  /\ (forall p psat pl pg g py,
         g <> 0 -> pl <> 0 -> pg * p <> 0 ->
         K_value (Some p) (Some psat) (Some pl) (Some pg) (Some g) (Some py)
         = Ok (g * psat * pl * py / (pg * p))).
Proof.
  split; [|split; [|split; [|split; [|split]]]].
  - intros p psat phi_g Poynting Hp. unfold K_value. rewrite truthy_zero. py_unfold.
    rewrite pydiv_ok by assumption. reflexivity.
  - intros. unfold K_value. rewrite truthy_zero. reflexivity.
  - intros. unfold K_value. rewrite truthy_zero. reflexivity.
  - intros p psat g py phi_l phi_g Hg Hp Hl. unfold K_value.
    rewrite (truthy_Some g Hg).
    assert (truthy phi_l = false) as ->
      by (destruct Hl as [-> | ->]; [reflexivity | apply truthy_zero]).
    py_unfold. rewrite pydiv_ok by assumption. reflexivity.
  - intros P Psat pl pg gamma Poynting Hpl Hpg Hgamma. unfold K_value.
    assert (truthy gamma = false) as ->
      by (destruct Hgamma as [-> | ->]; [reflexivity | apply truthy_zero]).
    rewrite (truthy_Some pl Hpl). py_unfold.
    rewrite pydiv_ok by assumption. reflexivity.
  - intros p psat pl pg g py Hg Hpl Hden. unfold K_value.
    rewrite (truthy_Some g Hg), (truthy_Some pl Hpl). py_unfold.
    rewrite pydiv_ok by assumption. reflexivity.
Qed.

Lemma K_value_tests_truthiness_witness :
  K_value (Some 101325) (Some 3000) None None (Some 0) K_value_Poynting_default
  = Ok (3000 / 101325)
  /\ K_value (Some 101325) (Some 3000) None None (Some (- (0.92))) (Some 1)
     = Ok (- (0.92) * 3000 * 1 / 101325)
  /\ K_value None None (Some 1.4356) (Some 0.88427) (Some 0) None
     = Ok (1.4356 / 0.88427).
Proof.
  destruct K_value_tests_truthiness as (Hzero & _ & _ & Hgamma & Hphi & _).
  split; [|split].
  - apply Hzero. lra.
  - apply Hgamma; [lra | lra | left; reflexivity].
  - apply Hphi; [lra | lra | right; reflexivity].
Defined.

(** C2, as stated, fails: with [gamma = 0.0] supplied and [phi_l] absent the
    call returns [Psat/P], not [gamma*Psat*Poynting/P]. *)
Lemma K_value_supplied_zero_gamma :
  K_value (Some 1) (Some 2) None None (Some 0) (Some 1) = Ok (2 / 1)
  /\ K_value (Some 1) (Some 2) None None (Some 0) (Some 1) <> Ok (0 * 2 * 1 / 1).
Proof.
  assert (K_value (Some 1) (Some 2) None None (Some 0) (Some 1) = Ok (2 / 1)) as E.
  { unfold K_value. rewrite truthy_zero. py_unfold.
    rewrite pydiv_ok by lra. reflexivity. }
  split; [exact E|]. rewrite E. intros Heq. injection Heq. lra.
Qed.

(** C2, amended: the formula is selected by which of [gamma] and [phi_l] are
    supplied and nonzero.  Each formula is returned when its operands are
    floats and its divisor is not zero; when an operand of the selected
    formula is [None] the call raises the descriptive [Exception];
    [Poynting] defaults to [1]. *)
Theorem K_value_priority (P Psat phi_l phi_g gamma Poynting : pyfloat) :
  (truthy gamma = true -> truthy phi_l = true ->
     (forall p psat pl pg g py,
        P = Some p -> Psat = Some psat -> phi_l = Some pl -> phi_g = Some pg ->
        gamma = Some g -> Poynting = Some py -> pg * p <> 0 ->
        K_value P Psat phi_l phi_g gamma Poynting
        = Ok (g * psat * pl * py / (pg * p)))
     /\ (P = None \/ Psat = None \/ phi_g = None \/ Poynting = None ->
         K_value P Psat phi_l phi_g gamma Poynting
         = Raise (Exception K_value_message)))
  /\ (truthy gamma = true -> truthy phi_l = false ->
        (forall p psat g py,
           P = Some p -> Psat = Some psat -> gamma = Some g -> Poynting = Some py ->
           p <> 0 ->
           K_value P Psat phi_l phi_g gamma Poynting = Ok (g * psat * py / p))
        /\ (P = None \/ Psat = None \/ Poynting = None ->
            K_value P Psat phi_l phi_g gamma Poynting
            = Raise (Exception K_value_message)))
  /\ (truthy gamma = false -> truthy phi_l = true ->
        (forall pl pg,
           phi_l = Some pl -> phi_g = Some pg -> pg <> 0 ->
           K_value P Psat phi_l phi_g gamma Poynting = Ok (pl / pg))
        /\ (phi_g = None ->
            K_value P Psat phi_l phi_g gamma Poynting
            = Raise (Exception K_value_message)))
  /\ (truthy gamma = false -> truthy phi_l = false ->
        (forall p psat,
           P = Some p -> Psat = Some psat -> p <> 0 ->
           K_value P Psat phi_l phi_g gamma Poynting = Ok (psat / p))
        /\ (P = None \/ Psat = None ->
            K_value P Psat phi_l phi_g gamma Poynting
            = Raise (Exception K_value_message)))
  /\ K_value_Poynting_default = Some 1.
Proof.
  repeat split.
  - intros p psat pl pg g py -> -> -> -> -> -> Hd.
    unfold K_value. rewrite H, H0. py_unfold. rewrite pydiv_ok by assumption. reflexivity.
  - unfold K_value. rewrite H, H0.
    apply truthy_true_inv in H as (g & -> & _).
    apply truthy_true_inv in H0 as (pl & -> & _).
    intros [-> | [-> | [-> | ->]]]; destruct_pyfloats; reflexivity.
  - intros p psat g py -> -> -> -> Hp.
    unfold K_value. rewrite H, H0. py_unfold. rewrite pydiv_ok by assumption. reflexivity.
  - unfold K_value. rewrite H, H0.
    apply truthy_true_inv in H as (g & -> & _).
    intros [-> | [-> | ->]]; destruct_pyfloats; reflexivity.
  - intros pl pg -> -> Hpg.
    unfold K_value. rewrite H, H0. py_unfold. rewrite pydiv_ok by assumption. reflexivity.
  - unfold K_value. rewrite H, H0.
    apply truthy_true_inv in H0 as (pl & -> & _).
    intros ->. reflexivity.
  - intros p psat -> -> Hp.
    unfold K_value. rewrite H, H0. py_unfold. rewrite pydiv_ok by assumption. reflexivity.
  - unfold K_value. rewrite H, H0.
    intros [-> | ->]; destruct_pyfloats; reflexivity.
Qed.

Lemma K_value_priority_witness :
  K_value (Some 101325) (Some 3000) None None (Some 0.9) K_value_Poynting_default
  = Ok (0.9 * 3000 * 1 / 101325).
Proof.
  refine (proj1 (proj1 (proj2 (K_value_priority
            (Some 101325) (Some 3000) None None (Some 0.9) K_value_Poynting_default))
            _ _) 101325 3000 0.9 1 _ _ _ _ _).
  - apply truthy_Some. lra.
  - reflexivity.
  - reflexivity.
  - reflexivity.
  - reflexivity.
  - reflexivity.
  - lra.
Defined.

End KValue.

(** ** Phase identification *)

Section IdentifyPhase.
Local Open Scope R_scope.

Lemma fires_guard (v : pyfloat) (test : R -> Prop) `{!forall x, Decision (test x)} :
  fires v test <-> truthy v && bool_decide (test (default 0 v)) = true.
Proof.
  split.
  - intros (x & -> & Hx & Ht). simpl.
    rewrite !bool_decide_eq_true_2 by assumption. reflexivity.
  - intros Hg. apply andb_prop in Hg as [Hv Ht].
    apply truthy_true_inv in Hv as (x & -> & Hx).
    apply bool_decide_eq_true_1 in Ht. exists x. auto.
Qed.

Lemma not_fires_guard (v : pyfloat) (test : R -> Prop) `{!forall x, Decision (test x)} :
  ~ fires v test -> truthy v && bool_decide (test (default 0 v)) = false.
Proof.
  intros Hn. apply not_true_is_false. intros Hg. apply Hn.
  apply (fires_guard v test). exact Hg.
Qed.

(** C5, as stated, fails: with [Tc = 0.0] supplied and [T >= Tc], and no
    melting point, the result is [None], not ['g']. *)
Lemma identify_phase_supplied_zero_Tc :
  300 >= 0
  /\ identify_phase 300 101325 None None (Some 0) None = None
  /\ identify_phase 300 101325 None None (Some 0) None <> Some "g".
Proof.
  assert (identify_phase 300 101325 None None (Some 0) None = None) as E.
  { unfold identify_phase. rewrite truthy_zero. reflexivity. }
  split; [lra|]. split; [exact E|]. rewrite E. discriminate.
Qed.

(** C5, amended: the rules apply in priority order to the properties that
    are supplied and nonzero.  [Tm] nonzero and [T <= Tm] gives ['s']
    whatever the other inputs; when that rule does not fire, [Tc] nonzero and
    [T >= Tc] gives ['g']; when neither fires and [Psat] is nonzero, the
    result is ['g'] if [P <= Psat] and ['l'] if [P > Psat]. *)
Theorem identify_phase_priority (T P : R) (Tm Tb Tc Psat : pyfloat) :
  (fires Tm (fun tm => T <= tm) ->
     identify_phase T P Tm Tb Tc Psat = Some "s")
  /\ (~ fires Tm (fun tm => T <= tm) -> fires Tc (fun tc => T >= tc) ->
        identify_phase T P Tm Tb Tc Psat = Some "g")
  /\ (~ fires Tm (fun tm => T <= tm) -> ~ fires Tc (fun tc => T >= tc) ->
        forall psat, Psat = Some psat -> psat <> 0 ->
          (P <= psat -> identify_phase T P Tm Tb Tc Psat = Some "g")
          /\ (P > psat -> identify_phase T P Tm Tb Tc Psat = Some "l")).
Proof.
  split; [|split].
  - intros Hm. unfold identify_phase.
    apply (fires_guard Tm (fun tm => T <= tm)) in Hm. rewrite Hm. reflexivity.
  - intros Hm Hc. unfold identify_phase.
    rewrite (not_fires_guard Tm (fun tm => T <= tm)) by assumption.
    apply (fires_guard Tc (fun tc => T >= tc)) in Hc. rewrite Hc. reflexivity.
  - intros Hm Hc psat -> Hp. unfold identify_phase.
    rewrite (not_fires_guard Tm (fun tm => T <= tm)) by assumption.
    rewrite (not_fires_guard Tc (fun tc => T >= tc)) by assumption.
    rewrite (truthy_Some psat) by assumption. simpl.
    split; intros Hc'.
    + rewrite bool_decide_eq_true_2 by assumption. reflexivity.
    + rewrite bool_decide_eq_false_2 by lra.
      rewrite bool_decide_eq_true_2 by assumption. reflexivity.
Qed.

Lemma identify_phase_priority_witness :
  identify_phase 280 101325 (Some 273.15) None None (Some 991) = Some "l".
Proof.
  refine (proj2 (proj2 (proj2 (identify_phase_priority
            280 101325 (Some 273.15) None None (Some 991)))
            _ _ 991 _ _) _).
  - intros (x & Hx & _ & Hle). injection Hx as <-. lra.
  - intros (x & Hx & _). discriminate.
  - reflexivity.
  - lra.
  - lra.
Defined.

End IdentifyPhase.

(** ** Dew and bubble pressures *)

Section DewBubble.
Local Open Scope R_scope.

(** Neither handler of [dew_at_T] hands a value back. *)
Lemma check_then_raise_raises (inputs : list pylist) (e : exn) (r : pyret) :
  check_then_raise inputs e <> Ok r.
Proof. unfold check_then_raise. destruct (negb _); discriminate. Qed.

(** A guarded computation that ends in [Ok (RetFloat _)] yields floats only. *)
Lemma try_raise_float {A} (c : res A) (k : A -> res R) (inputs : list pylist)
    (r : pyret) :
  try_except (a ← c; q ← k a; Ok (RetFloat q)) (check_then_raise inputs) = Ok r ->
  exists x, r = RetFloat x.
Proof.
  destruct c as [a|e]; simpl.
  - destruct (k a) as [q|e]; simpl.
    + intros [= <-]. eauto.
    + intros Hr. exfalso. exact (check_then_raise_raises _ _ _ Hr).
  - intros Hr. exfalso. exact (check_then_raise_raises _ _ _ Hr).
Qed.

(** Whatever [dew_at_T] returns is a float: its failures all raise. *)
Lemma dew_at_T_returns_float (zs Psats : pylist) (fugacities gammas : option pylist)
    (r : pyret) :
  dew_at_T zs Psats fugacities gammas = Ok r -> exists x, r = RetFloat x.
Proof.
  unfold dew_at_T.
  destruct fugacities as [fs|], gammas as [gs|]; simpl; apply try_raise_float.
Qed.

(** C9: the failing input.  With a zero fugacity the division of
    [bubble_at_T] raises [ZeroDivisionError]; the lists are consistent, so
    the handler reaches [return e] and the exception object comes back as
    the result of the call instead of being raised. *)
Theorem bubble_at_T_returns_exception_object :
  bubble_at_T [Some 0.5; Some 0.5] [Some 1400; Some 7000]
              (Some [Some 0; Some 1]) None
  = Ok (RetExnObject ZeroDivisionError).
Proof.
  unfold bubble_at_T, comprehension, range. simpl.
  unfold getitem. simpl. py_unfold.
  rewrite pydiv_zero. simpl.
  reflexivity.
Qed.

(** The same happens when both optional lists are supplied. *)
Lemma bubble_at_T_returns_exception_object_both :
  bubble_at_T [Some 0.5; Some 0.5] [Some 1400; Some 7000]
              (Some [Some 0; Some 1]) (Some [Some 1.1; Some 0.75])
  = Ok (RetExnObject ZeroDivisionError).
Proof.
  unfold bubble_at_T, comprehension, range. simpl.
  unfold getitem. simpl. py_unfold.
  rewrite pydiv_zero. simpl.
  reflexivity.
Qed.

End DewBubble.

(** ** Lists built by comprehensions and loops *)

Section Comprehensions.
Local Open Scope R_scope.

Lemma mapM_Ok {A B} (f : A -> res B) (l : list A) (k : list B) :
  Forall2 (fun a b => f a = Ok b) l k -> mapM f l = Ok k.
Proof.
  induction 1 as [|a b l k Hab _ IH]; simpl; [reflexivity|].
  rewrite Hab. simpl. rewrite IH. reflexivity.
Qed.

Lemma mapM_Ok_inv {A B} (f : A -> res B) (l : list A) (k : list B) :
  mapM f l = Ok k -> Forall2 (fun a b => f a = Ok b) l k.
Proof.
  revert k. induction l as [|a l IH]; simpl; intros k.
  - intros [= <-]. constructor.
  - destruct (f a) as [b|e] eqn:Hfa; simpl; [|discriminate].
    destruct (mapM f l) as [k'|e] eqn:Hl; simpl; [|discriminate].
    intros [= <-]. constructor; [assumption | apply IH; reflexivity].
Qed.

Lemma mapM_Ok_length {A B} (f : A -> res B) (l : list A) (k : list B) :
  mapM f l = Ok k -> length k = length l.
Proof. intros Hm. apply mapM_Ok_inv, Forall2_length in Hm. congruence. Qed.

(** A comprehension over [range(n)] builds [l] when its [i]-th value is the
    [i]-th item of [l]. *)
Lemma comprehension_Ok {A} (n : nat) (f : nat -> res A) (l : list A) :
  length l = n ->
  (forall i x, l !! i = Some x -> f i = Ok x) ->
  comprehension n f = Ok l.
Proof.
  intros Hlen Hf. unfold comprehension, range. apply mapM_Ok.
  apply Forall2_same_length_lookup_2.
  - rewrite length_seq. congruence.
  - intros i j x Hj Hx. apply lookup_seq in Hj as [-> _]. apply Hf, Hx.
Qed.

(** Reading two lists of one length index by index is zipping them. *)
Lemma comprehension_zip_with {A B C} (g : A -> B -> C) (la : list A) (lb : list B) :
  length la = length lb ->
  comprehension (length la)
    (fun i => a ← getitem la i; b ← getitem lb i; Ok (g a b))
  = Ok (zip_with g la lb).
Proof.
  intros Hlen. apply comprehension_Ok.
  - rewrite length_zip_with. lia.
  - intros i x Hx. apply lookup_zip_with_Some in Hx as (a & b & -> & Ha & Hb).
    unfold getitem. rewrite Ha, Hb. reflexivity.
Qed.

(** A loop that never raises and keeps an invariant indexed by the number
    of rounds done. *)
Lemma foldM_invariant {S A} (Inv : nat -> S -> Prop) (body : A -> S -> res S)
    (l : list A) (st : S) :
  Inv 0%nat st ->
  (forall k a st, l !! k = Some a -> Inv k st ->
                  exists st', body a st = Ok st' /\ Inv (Datatypes.S k) st') ->
  exists st', foldM body l st = Ok st' /\ Inv (length l) st'.
Proof.
  revert Inv st. induction l as [|a l IH]; intros Inv st H0 Hstep; simpl.
  - eauto.
  - destruct (Hstep 0%nat a st eq_refl H0) as (st1 & -> & H1). simpl.
    apply (IH (fun k => Inv (Datatypes.S k))); [assumption|].
    intros k b st2 Hk. apply (Hstep (Datatypes.S k)). exact Hk.
Qed.

Lemma for_range_invariant {S} (Inv : nat -> S -> Prop) (n : nat)
    (body : nat -> S -> res S) (st : S) :
  Inv 0%nat st ->
  (forall k st, (k < n)%nat -> Inv k st ->
                exists st', body k st = Ok st' /\ Inv (Datatypes.S k) st') ->
  exists st', for_range n body st = Ok st' /\ Inv n st'.
Proof.
  intros H0 Hstep. unfold for_range, range.
  destruct (foldM_invariant Inv body (seq 0 n) st H0) as (st' & Hf & Hn).
  - intros k a st1 Hk. apply lookup_seq in Hk as [-> Hlt]. apply Hstep, Hlt.
  - rewrite length_seq in Hn. eauto.
Qed.

(** [sum] as a fold from the left, against the usual recursive sum. *)
Lemma fold_left_Rplus (l : list R) (a : R) :
  fold_left Rplus l a = a + pysum l.
Proof.
  unfold pysum. revert a. induction l as [|x l IH]; intros a; simpl.
  - lra.
  - rewrite (IH (a + x)), (IH (0 + x)). lra.
Qed.

Lemma pysum_nil : pysum [] = 0.
Proof. reflexivity. Qed.

Lemma pysum_cons (x : R) (l : list R) : pysum (x :: l) = x + pysum l.
Proof. unfold pysum at 1. simpl. rewrite fold_left_Rplus. lra. Qed.

Lemma pysum_snoc (l : list R) (x : R) : pysum (l ++ [x]) = pysum l + x.
Proof. unfold pysum. rewrite fold_left_app. reflexivity. Qed.

Lemma pysum_take_S (l : list R) (k : nat) (x : R) :
  l !! k = Some x -> pysum (take (S k) l) = pysum (take k l) + x.
Proof. intros Hk. rewrite (take_S_r l k x Hk). apply pysum_snoc. Qed.

Lemma pysum_map_ext (f g : R -> R) (l : list R) :
  (forall x, f x = g x) -> pysum (map f l) = pysum (map g l).
Proof.
  intros Hfg. induction l as [|x l IH]; [reflexivity|].
  simpl. rewrite !pysum_cons, Hfg, IH. reflexivity.
Qed.

Lemma pysum_map_zero (f : R -> R) (l : list R) :
  (forall x, f x = 0) -> pysum (map f l) = 0.
Proof.
  intros Hf. induction l as [|x l IH]; [reflexivity|].
  simpl. rewrite pysum_cons, Hf, IH. lra.
Qed.

Lemma pysum_map_id (f : R -> R) (l : list R) :
  (forall x, f x = x) -> pysum (map f l) = pysum l.
Proof.
  intros Hf. induction l as [|x l IH]; [reflexivity|].
  simpl. rewrite !pysum_cons, Hf, IH. reflexivity.
Qed.

End Comprehensions.

(** ** The inner loop of a flash *)

Section InnerLoop.
Context `{Numerics}.
Local Open Scope R_scope.

Lemma analytical_2_example : analytical_2 0 1 (1/2) 2 = Ok 2.
Proof. unfold analytical_2. rewrite pydiv_ok by lra. f_equal. lra. Qed.

Lemma analytical_xs_ys_example :
  analytical_xs_ys 2 [0; 1] [1/2; 2] = Ok (Solution 2 [1/3] [1/6]).
Proof.
  unfold analytical_xs_ys. simpl.
  rewrite !filter_cons, filter_nil. simpl.
  destruct (decide (0 <> 0)) as [Hne|_]; [contradiction|].
  destruct (decide (1 <> 0)) as [_|Hne]; [|exfalso; apply Hne; lra].
  simpl. rewrite pydiv_ok by lra. simpl.
  do 2 f_equal; f_equal; lra.
Qed.

(** C1: the failing input.  For the two-species feed [zs = [0, 1]] with
    [Ks = [1/2, 2]] the Analytical method, selected by default, drops the
    species whose mole fraction is zero: [xs] and [ys] have one entry for two
    species, and that [ys] entry pairs the liquid fraction of the second
    species with the K-value of the first. *)
Theorem flash_inner_loop_analytical_drops_species :
  flash_inner_loop [0; 1] [1/2; 2] false None = Ok (Solution 2 [1/3] [1/6])
  /\ flash_inner_loop [0; 1] [1/2; 2] false (Some FLASH_INNER_ANALYTICAL)
     = Ok (Solution 2 [1/3] [1/6])
  /\ length [1/3] <> length [0; 1].
Proof.
  split; [|split].
  - unfold flash_inner_loop. simpl.
    rewrite analytical_2_example. apply analytical_xs_ys_example.
  - unfold flash_inner_loop. simpl.
    rewrite analytical_2_example. apply analytical_xs_ys_example.
  - simpl. lia.
Qed.

(** The tuple [Rachford_Rice_solution] builds keeps the invariant: when
    [zs] and [Ks] have one length, so have [xs] and [ys], and
    [ys[i] = Ks[i] * xs[i]] at every index. *)
Lemma Rachford_Rice_solution_ys (zs Ks : list R) (fprime fprime2 : bool)
    (V_over_F : R) (xs ys : list R) :
  length zs = length Ks ->
  Rachford_Rice_solution zs Ks fprime fprime2 = Ok (V_over_F, xs, ys) ->
  length xs = length zs /\ length ys = length zs
  /\ forall i K x, Ks !! i = Some K -> xs !! i = Some x -> ys !! i = Some (K * x).
Proof.
  intros Hlen. unfold Rachford_Rice_solution.
  repeat match goal with
         | |- mbind _ ?m = Ok _ -> _ => destruct m eqn:?; simpl; [|discriminate]
         end.
  intros [= <- <- <-].
  match goal with
  | Hx : zip_comprehension _ zs Ks = Ok ?l |- _ =>
      unfold zip_comprehension in Hx; pose proof (mapM_Ok_length _ _ _ Hx) as Hl;
      rewrite length_zip in Hl
  end.
  split; [lia|]. split; [rewrite length_zip_with; lia|].
  intros i K x HK Hx. rewrite lookup_zip_with, Hx, HK. reflexivity.
Qed.

End InnerLoop.

(** ** The Raoult's-law flash *)

Section RaoultFlash.
Context `{Numerics}.
Local Open Scope R_scope.

Lemma K_value_Raoult (p psat : R) :
  p <> 0 ->
  K_value (Some p) (Some psat) None None None K_value_Poynting_default
  = Ok (psat / p).
Proof. intros Hp. unfold K_value. py_unfold. rewrite pydiv_ok by assumption. reflexivity. Qed.

Lemma existsb_is_None_floats (l : list R) : existsb is_None (Some <$> l) = false.
Proof. induction l as [|x l IH]; [reflexivity | exact IH]. Qed.

(** Lists of floats of one length pass [none_and_length_check]. *)
Lemma none_and_length_check_floats (zs Psats : list R) :
  length zs = length Psats ->
  none_and_length_check [Some <$> zs; Some <$> Psats] = true.
Proof.
  intros Hlen. unfold none_and_length_check. simpl.
  rewrite !existsb_is_None_floats, !length_fmap. simpl.
  rewrite !bool_decide_eq_true_2 by congruence. reflexivity.
Qed.

Lemma mapM_as_float (l : list R) : mapM as_float (Some <$> l) = Ok l.
Proof.
  apply mapM_Ok. induction l as [|x l IH]; simpl; constructor; [reflexivity | exact IH].
Qed.

(** The [Ks] that [flash] computes are [Psats[i]/P]. *)
Lemma flash_Ks (p : R) (n : nat) (Psats : list R) :
  n = length Psats -> p <> 0 ->
  comprehension n (fun i =>
      Psat ← getitem (Some <$> Psats) i;
      K_value (Some p) Psat None None None K_value_Poynting_default)
  = Ok (map (fun psat => psat / p) Psats).
Proof.
  intros -> Hp. apply comprehension_Ok.
  - apply length_map.
  - intros i x Hx. apply list_lookup_fmap_Some in Hx as (psat & -> & Hps).
    unfold getitem. rewrite list_lookup_fmap, Hps. simpl.
    apply K_value_Raoult, Hp.
Qed.

Lemma valid_range_products (zs Ks : list R) :
  length zs = length Ks ->
  comprehension (length Ks) (fun i =>
      z ← getitem (Some <$> zs) i; K ← getitem Ks i; fmul z (Some K))
  = Ok (zip_with Rmult zs Ks).
Proof.
  intros Hlen. apply comprehension_Ok.
  - rewrite length_zip_with. lia.
  - intros i x Hx. apply lookup_zip_with_Some in Hx as (z & K & -> & Hz & Hk).
    unfold getitem. rewrite list_lookup_fmap, Hz, Hk. reflexivity.
Qed.

Lemma valid_range_quotients (zs Ks : list R) :
  length zs = length Ks -> Forall (fun K => K <> 0) Ks ->
  comprehension (length Ks) (fun i =>
      z ← getitem (Some <$> zs) i; K ← getitem Ks i; fdiv z (Some K))
  = Ok (zip_with Rdiv zs Ks).
Proof.
  intros Hlen HK. apply comprehension_Ok.
  - rewrite length_zip_with. lia.
  - intros i x Hx. apply lookup_zip_with_Some in Hx as (z & K & -> & Hz & Hk).
    unfold getitem. rewrite list_lookup_fmap, Hz, Hk. simpl. py_unfold.
    apply pydiv_ok. exact (proj1 (Forall_lookup _ _) HK i K Hk).
Qed.

(** [valid_range] compares the two sums of the feasibility test with [1]. *)
Lemma valid_range_floats (zs Ks : list R) :
  length zs = length Ks -> Forall (fun K => K <> 0) Ks ->
  valid_range (Some <$> zs) Ks
  = Ok (negb (bool_decide (pysum (zip_with Rmult zs Ks) < 1))
        && negb (bool_decide (pysum (zip_with Rdiv zs Ks) < 1))).
Proof.
  intros Hlen HK. unfold valid_range.
  rewrite valid_range_products by assumption. simpl.
  rewrite valid_range_quotients by assumption. simpl.
  f_equal.
  destruct (decide (pysum (zip_with Rmult zs Ks) < 1)) as [H1|H1];
    destruct (decide (pysum (zip_with Rdiv zs Ks) < 1)) as [H2|H2];
    rewrite ?(bool_decide_eq_true_2 _ H1), ?(bool_decide_eq_false_2 _ H1),
      ?(bool_decide_eq_true_2 _ H2), ?(bool_decide_eq_false_2 _ H2);
    reflexivity.
Qed.

(** A comprehension whose entries either evaluate or raise [e], and one of
    which raises, raises [e]. *)
Lemma mapM_Raise {A B} (f : A -> res B) (e : exn) (l : list A) :
  Forall (fun a => f a = Raise e \/ exists b, f a = Ok b) l ->
  Exists (fun a => f a = Raise e) l ->
  mapM f l = Raise e.
Proof.
  induction 1 as [|a l Ha Hl IH]; intros Hex; [inversion Hex|].
  simpl. destruct Ha as [-> | [b Hb]]; [reflexivity|].
  rewrite Hb. simpl.
  inversion Hex as [? ? Hhead | ? ? Htail]; subst; [congruence|].
  rewrite (IH Htail). reflexivity.
Qed.

Lemma comprehension_Raise {A} (n : nat) (f : nat -> res A) (e : exn) :
  (forall i, (i < n)%nat -> f i = Raise e \/ exists x, f i = Ok x) ->
  (exists i, (i < n)%nat /\ f i = Raise e) ->
  comprehension n f = Raise e.
Proof.
  intros Hall (i & Hi & Hraise). unfold comprehension, range.
  apply mapM_Raise.
  - apply Forall_forall. intros j Hj. apply elem_of_seq in Hj. apply Hall. lia.
  - apply Exists_exists. exists i. split; [|exact Hraise].
    apply elem_of_seq. lia.
Qed.

(** The second sum of [valid_range] divides by every K-value. *)
Lemma valid_range_quotients_zero (zs Ks : list R) :
  length zs = length Ks -> Exists (fun K => K = 0) Ks ->
  comprehension (length Ks) (fun i =>
      z ← getitem (Some <$> zs) i; K ← getitem Ks i; fdiv z (Some K))
  = Raise ZeroDivisionError.
Proof.
  intros Hlen Hzero. apply comprehension_Raise.
  - intros i Hi.
    destruct (lookup_lt_is_Some_2 zs i) as [z Hz]; [lia|].
    destruct (lookup_lt_is_Some_2 Ks i Hi) as [K HK].
    unfold getitem. rewrite list_lookup_fmap, Hz, HK. simpl. py_unfold.
    unfold pydiv. case_decide; [left; reflexivity | right; eauto].
  - apply Exists_exists in Hzero as (K & Hin & ->).
    apply list_elem_of_lookup in Hin as [i Hi]. exists i.
    split; [exact (lookup_lt_Some _ _ _ Hi)|].
    destruct (lookup_lt_is_Some_2 zs i) as [z Hz];
      [rewrite Hlen; exact (lookup_lt_Some _ _ _ Hi)|].
    unfold getitem. rewrite list_lookup_fmap, Hz, Hi. simpl. py_unfold.
    apply pydiv_zero.
Qed.

(** With a vapour pressure of zero the K-value is zero, and the second sum
    of the feasibility test raises before the test is decided. *)
Lemma flash_zero_vapour_pressure (p : R) (zs Psats : list R) :
  length zs = length Psats -> p <> 0 ->
  Exists (fun psat => psat = 0) Psats ->
  flash (Some p) (Some <$> zs) (Some <$> Psats) = Raise ZeroDivisionError.
Proof.
  intros Hlen Hp Hzero. unfold flash.
  rewrite none_and_length_check_floats by assumption. simpl.
  rewrite length_fmap, (flash_Ks p (length zs) Psats) by assumption. simpl.
  unfold valid_range.
  rewrite valid_range_products by (rewrite length_map; exact Hlen). simpl.
  rewrite valid_range_quotients_zero; [reflexivity | rewrite length_map; exact Hlen |].
  apply Exists_fmap. eapply Exists_impl; [exact Hzero|].
  simpl. intros psat ->. unfold Rdiv. ring.
Qed.

(** With a pressure of zero the first K-value already divides by zero. *)
Lemma flash_zero_pressure (zs Psats : list R) :
  length zs = length Psats -> zs <> [] ->
  flash (Some 0) (Some <$> zs) (Some <$> Psats) = Raise ZeroDivisionError.
Proof.
  intros Hlen Hne. unfold flash.
  rewrite none_and_length_check_floats by assumption. simpl.
  rewrite comprehension_Raise with (e := ZeroDivisionError); [reflexivity | |].
  - intros i Hi. left. rewrite length_fmap in Hi.
    destruct (lookup_lt_is_Some_2 Psats i) as [psat Hps]; [lia|].
    unfold getitem. rewrite list_lookup_fmap, Hps. simpl.
    unfold K_value. py_unfold. rewrite pydiv_zero. reflexivity.
  - exists 0%nat. rewrite length_fmap.
    assert (0 < length zs)%nat as Hpos by (destruct zs; [contradiction | simpl; lia]).
    split; [exact Hpos|].
    destruct (lookup_lt_is_Some_2 Psats 0) as [psat Hps]; [lia|].
    unfold getitem. rewrite list_lookup_fmap, Hps. simpl.
    unfold K_value. py_unfold. rewrite pydiv_zero. reflexivity.
Qed.

(** The feasibility test on nonzero K-values. *)
Lemma flash_nonzero (p : R) (zs Psats : list R) :
  length zs = length Psats ->
  p <> 0 ->
  Forall (fun psat => psat <> 0) Psats ->
  let Ks := map (fun psat => psat / p) Psats in
  let sum_zK := pysum (zip_with Rmult zs Ks) in
  let sum_z_over_K := pysum (zip_with Rdiv zs Ks) in
  (sum_zK < 1 \/ sum_z_over_K < 1 ->
     flash (Some p) (Some <$> zs) (Some <$> Psats)
     = Raise (Exception "Solution does not exist"))
  /\ (~ (sum_zK < 1 \/ sum_z_over_K < 1) ->
        flash (Some p) (Some <$> zs) (Some <$> Psats)
        = match flash_inner_loop zs Ks false None with
          | Ok (Solution V_over_F xs ys) =>
              if decide (V_over_F < 0)
              then Raise (Exception "V_over_F is negative!")
              else Ok (xs, ys, V_over_F)
          | Ok (Methods _) => Raise ValueError
          | Raise e => Raise e
          end).
Proof.
  intros Hlen Hp Hps Ks sum_zK sum_z_over_K.
  assert (length zs = length Ks) as HlenK.
  { unfold Ks. rewrite length_map. exact Hlen. }
  assert (Forall (fun K => K <> 0) Ks) as HK.
  { unfold Ks. apply Forall_map. eapply Forall_impl; [exact Hps|].
    intros psat Hne. simpl. unfold Rdiv.
    apply Rmult_integral_contrapositive_currified; [exact Hne|].
    apply Rinv_neq_0_compat, Hp. }
  assert (flash (Some p) (Some <$> zs) (Some <$> Psats)
          = if negb (negb (bool_decide (sum_zK < 1))
                     && negb (bool_decide (sum_z_over_K < 1)))
            then Raise (Exception "Solution does not exist")
            else zs' ← mapM as_float (Some <$> zs);
                 r ← flash_inner_loop zs' Ks false None;
                 '(V_over_F, xs, ys) ← unpack_solution r;
                 if decide (V_over_F < 0)
                 then Raise (Exception "V_over_F is negative!")
                 else Ok (xs, ys, V_over_F)) as Hflash.
  { unfold flash.
    rewrite none_and_length_check_floats by assumption. simpl.
    rewrite length_fmap, (flash_Ks p (length zs) Psats) by assumption. simpl.
    fold Ks. rewrite (valid_range_floats zs Ks) by assumption. reflexivity. }
  split.
  - intros Hlt. rewrite Hflash.
    destruct Hlt as [Hlt | Hlt].
    + rewrite (bool_decide_eq_true_2 _ Hlt). reflexivity.
    + rewrite (bool_decide_eq_true_2 _ Hlt), andb_false_r. reflexivity.
  - intros Hge. rewrite Hflash.
    rewrite !bool_decide_eq_false_2 by tauto.
    rewrite mapM_as_float. simpl.
    generalize (flash_inner_loop zs Ks false None).
    intros [[names|V xs ys]|e]; reflexivity.
Qed.

(** C3, amended: [flash(P, zs, Psats)] on float lists of one length works
    with [Ks[i] = Psats[i]/P].  With [P] and every vapour pressure nonzero it
    raises [Exception('Solution does not exist')] whenever
    [sum zs[i]*Ks[i] < 1] or [sum zs[i]/Ks[i] < 1], and otherwise returns the
    [(xs, ys, V_over_F)] of [flash_inner_loop(zs, Ks)], raising
    [Exception('V_over_F is negative!')] when that [V_over_F] is negative.
    With [P] nonzero and a vapour pressure of zero it raises
    [ZeroDivisionError] whatever the sums are, and so it does with [P] zero
    and at least one species. *)
Theorem flash_feasibility (p : R) (zs Psats : list R) :
  length zs = length Psats ->
  let Ks := map (fun psat => psat / p) Psats in
  let sum_zK := pysum (zip_with Rmult zs Ks) in
  let sum_z_over_K := pysum (zip_with Rdiv zs Ks) in
  (p <> 0 -> Forall (fun psat => psat <> 0) Psats ->
     (sum_zK < 1 \/ sum_z_over_K < 1 ->
        flash (Some p) (Some <$> zs) (Some <$> Psats)
        = Raise (Exception "Solution does not exist"))
     /\ (~ (sum_zK < 1 \/ sum_z_over_K < 1) ->
           flash (Some p) (Some <$> zs) (Some <$> Psats)
           = match flash_inner_loop zs Ks false None with
             | Ok (Solution V_over_F xs ys) =>
                 if decide (V_over_F < 0)
                 then Raise (Exception "V_over_F is negative!")
                 else Ok (xs, ys, V_over_F)
             | Ok (Methods _) => Raise ValueError
             | Raise e => Raise e
             end))
  /\ (p <> 0 -> Exists (fun psat => psat = 0) Psats ->
        flash (Some p) (Some <$> zs) (Some <$> Psats) = Raise ZeroDivisionError)
  /\ (p = 0 -> zs <> [] ->
        flash (Some p) (Some <$> zs) (Some <$> Psats) = Raise ZeroDivisionError).
Proof.
  intros Hlen Ks sum_zK sum_z_over_K. split; [|split].
  - intros Hp Hps. exact (flash_nonzero p zs Psats Hlen Hp Hps).
  - intros Hp Hzero. exact (flash_zero_vapour_pressure p zs Psats Hlen Hp Hzero).
  - intros -> Hne. exact (flash_zero_pressure zs Psats Hlen Hne).
Qed.

End RaoultFlash.

Section RaoultFlashExample.
Local Open Scope R_scope.

Lemma analytical_2_half_half :
  analytical_2 (1/2) (1/2) (1400/3000) (7000/3000) = Ok (9/16).
Proof. unfold analytical_2. rewrite pydiv_ok by lra. f_equal. lra. Qed.

Lemma analytical_xs_ys_half_half :
  analytical_xs_ys (9/16) [1/2; 1/2] [1400/3000; 7000/3000]
  = Ok (Solution (9/16) [5/7; 2/7] [1/3; 2/3]).
Proof.
  unfold analytical_xs_ys. simpl.
  rewrite !filter_cons, filter_nil. simpl.
  destruct (decide (1 / 2 <> 0)) as [_|Hne]; [|exfalso; apply Hne; lra].
  simpl. rewrite !pydiv_ok by lra. simpl.
  do 2 f_equal; Rlist.
Qed.

(** C3, as stated, fails: with a vapour pressure of zero the first sum is
    [0.25 < 1], yet the call raises [ZeroDivisionError] from the second sum,
    not [Exception('Solution does not exist')]. *)
Lemma flash_zero_Psat :
  pysum (zip_with Rmult [0.5; 0.5] (map (fun psat => psat / 1) [0; 0.5])) < 1
  /\ @flash diverging_numerics (Some 1) [Some 0.5; Some 0.5] [Some 0; Some 0.5]
     = Raise ZeroDivisionError
  /\ @flash diverging_numerics (Some 1) [Some 0.5; Some 0.5] [Some 0; Some 0.5]
     <> Raise (Exception "Solution does not exist").
Proof.
  assert (@flash diverging_numerics (Some 1) [Some 0.5; Some 0.5] [Some 0; Some 0.5]
          = Raise ZeroDivisionError) as E.
  { apply (@flash_zero_vapour_pressure diverging_numerics 1 [0.5; 0.5] [0; 0.5]
             eq_refl); [lra|].
    left. reflexivity. }
  split; [unfold pysum; simpl; lra|].
  split; [exact E|]. rewrite E. discriminate.
Qed.

(** The equimolar feed with vapour pressures 1400 and 7000 at 3000 Pa is
    feasible and flashes to [V_over_F = 9/16]. *)
Lemma flash_feasibility_witness :
  @flash diverging_numerics (Some 3000) [Some (1/2); Some (1/2)]
         [Some 1400; Some 7000]
  = Ok ([5/7; 2/7], [1/3; 2/3], 9/16)
  /\ @flash diverging_numerics (Some 3000) [Some (1/2); Some (1/2)]
            [Some 0; Some 7000]
     = Raise ZeroDivisionError
  /\ @flash diverging_numerics (Some 0) [Some (1/2); Some (1/2)]
            [Some 1400; Some 7000]
     = Raise ZeroDivisionError.
Proof.
  split; [|split].
  - destruct (@flash_feasibility diverging_numerics 3000 [1/2; 1/2] [1400; 7000]
                eq_refl) as [Hnonzero _].
    destruct (Hnonzero ltac:(lra) ltac:(repeat constructor; lra)) as [_ Hfeasible].
    simpl in Hfeasible. rewrite Hfeasible by (unfold pysum; simpl; lra).
    unfold flash_inner_loop. simpl.
    rewrite analytical_2_half_half, analytical_xs_ys_half_half.
    destruct (decide (9 / 16 < 0)) as [Hneg|_]; [lra | reflexivity].
  - destruct (@flash_feasibility diverging_numerics 3000 [1/2; 1/2] [0; 7000]
                eq_refl) as (_ & Hzero & _).
    apply Hzero; [lra | left; reflexivity].
  - destruct (@flash_feasibility diverging_numerics 0 [1/2; 1/2] [1400; 7000]
                eq_refl) as (_ & _ & Hzero).
    apply Hzero; [reflexivity | discriminate].
Defined.

End RaoultFlashExample.

(** ** The Wilson shortcut flash *)

Section WilsonFlash.
Context `{Numerics}.
Local Open Scope R_scope.

Lemma pysum_Rsum (l : list R) : pysum l = Rsum l.
Proof.
  induction l as [|x l IH]; [reflexivity|].
  rewrite pysum_cons, IH. reflexivity.
Qed.

(** The accumulation of [P_bubble] computes the closed form. *)
Lemma P_bubble_loop_closed_form (zs Tcs Pcs omegas : list R) (T : R) :
  T <> 0 ->
  length Tcs = length zs -> length Pcs = length zs -> length omegas = length zs ->
  P_bubble_loop zs Tcs Pcs omegas T = Ok (P_bubble_closed_form zs Tcs Pcs omegas T).
Proof.
  intros HT HTcs HPcs Hws. unfold P_bubble_loop, P_bubble_closed_form.
  set (term := fun (z : R) '(Pc, w, Tc) => z * Pc * exp (5.37 * (1 + w) * (1 - Tc / T))).
  set (terms := zip_with term zs (zip (zip Pcs omegas) Tcs)).
  assert (length terms = length zs) as Hlen.
  { unfold terms. rewrite length_zip_with, !length_zip. lia. }
  destruct (for_range_invariant (fun k acc => acc = pysum (take k terms)) (length zs)
              (fun i P_bubble =>
                 z ← getitem zs i;
                 Pc ← getitem Pcs i;
                 w ← getitem omegas i;
                 Tc ← getitem Tcs i;
                 q ← pydiv Tc T;
                 Ok (P_bubble + z * Pc * exp (5.37 * (1.0 + w) * (1.0 - q))))
              0) as (acc & Hloop & Hacc).
  - reflexivity.
  - intros k acc Hk ->.
    destruct (lookup_lt_is_Some_2 zs k) as [z Hz]; [lia|].
    destruct (lookup_lt_is_Some_2 Pcs k) as [Pc HPc]; [lia|].
    destruct (lookup_lt_is_Some_2 omegas k) as [w Hw]; [lia|].
    destruct (lookup_lt_is_Some_2 Tcs k) as [Tc HTc]; [lia|].
    unfold getitem. rewrite Hz, HPc, Hw, HTc. simpl.
    rewrite pydiv_ok by assumption. simpl.
    eexists. split; [reflexivity|].
    rewrite (pysum_take_S terms k (term z (Pc, w, Tc))).
    + unfold term. assert (1.0 = 1) as -> by lra. reflexivity.
    + unfold terms. rewrite lookup_zip_with, Hz. simpl.
      rewrite !lookup_zip_with, HPc. simpl. rewrite Hw. simpl. rewrite HTc. reflexivity.
  - rewrite Hloop, Hacc. rewrite <- Hlen, firstn_all. f_equal. apply pysum_Rsum.
Qed.

(** Whatever the [T]-and-[P] mode returns carries the [T] and [P] it was
    given. *)
Lemma flash_wilson_TP_result (zs Tcs Pcs omegas : list R) (T P : R) (r : flash_result) :
  flash_wilson_TP zs Tcs Pcs omegas T P = Ok r ->
  exists VF xs ys, r = FlashTuple T P VF xs ys.
Proof.
  unfold flash_wilson_TP.
  destruct (comprehension _ _) as [Ks|e]; simpl; [|discriminate].
  destruct (flash_inner_loop zs Ks false None) as [sol|e]; simpl; [|discriminate].
  destruct (unpack_solution sol) as [[[V xs] ys]|e]; simpl; [|discriminate].
  intros [= <-]. eauto.
Qed.

(** The bubble mode is the [T]-and-[P] mode at the closed-form pressure. *)
Lemma flash_wilson_bubble_mode (zs Tcs Pcs omegas : list R) (T : R) :
  T <> 0 ->
  length Tcs = length zs -> length Pcs = length zs -> length omegas = length zs ->
  flash_wilson zs Tcs Pcs omegas (Some T) None (Some 0)
  = flash_wilson_TP zs Tcs Pcs omegas T (P_bubble_closed_form zs Tcs Pcs omegas T).
Proof.
  intros HT HTcs HPcs Hws.
  unfold flash_wilson. cbn [flash_wilson_depth]. unfold flash_wilson_body at 1.
  cbn [is_None negb andb]. rewrite bool_decide_eq_true_2 by reflexivity.
  cbn [default]. rewrite P_bubble_loop_closed_form by assumption. reflexivity.
Qed.

(** C7: [flash_wilson] with [T] supplied, [P] left out and [VF = 0] is the
    [T]-and-[P] solve at the closed-form bubble pressure
    [sum zs[i]*Pcs[i]*exp(5.37*(1+omegas[i])*(1-Tcs[i]/T))], and every result
    it returns carries that pressure. *)
Theorem flash_wilson_bubble (zs Tcs Pcs omegas : list R) (T : R) :
  T <> 0 ->
  length Tcs = length zs -> length Pcs = length zs -> length omegas = length zs ->
  let P_bubble := P_bubble_closed_form zs Tcs Pcs omegas T in
  flash_wilson zs Tcs Pcs omegas (Some T) None (Some 0)
  = flash_wilson zs Tcs Pcs omegas (Some T) (Some P_bubble) None
  /\ flash_wilson zs Tcs Pcs omegas (Some T) (Some P_bubble) None
     = flash_wilson_TP zs Tcs Pcs omegas T P_bubble
  /\ forall r, flash_wilson zs Tcs Pcs omegas (Some T) None (Some 0) = Ok r ->
       exists VF xs ys, r = FlashTuple T P_bubble VF xs ys.
Proof.
  intros HT HTcs HPcs Hws P_bubble.
  pose proof (flash_wilson_bubble_mode zs Tcs Pcs omegas T HT HTcs HPcs Hws) as Hmode.
  split; [|split].
  - rewrite Hmode. reflexivity.
  - reflexivity.
  - intros r. rewrite Hmode. apply flash_wilson_TP_result.
Qed.

End WilsonFlash.

Section WilsonFlashExample.
Local Open Scope R_scope.

(** The premises of [flash_wilson_bubble] hold for the ethane-heptane feed
    of the docstring at 300 K. *)
Lemma flash_wilson_bubble_witness :
  @flash_wilson diverging_numerics [0.4; 0.6] [305.322; 540.13]
     [4872200; 2736000] [0.099; 0.349] (Some 300) None (Some 0)
  = @flash_wilson diverging_numerics [0.4; 0.6] [305.322; 540.13]
      [4872200; 2736000] [0.099; 0.349] (Some 300)
      (Some (P_bubble_closed_form [0.4; 0.6] [305.322; 540.13]
               [4872200; 2736000] [0.099; 0.349] 300))
      None.
Proof.
  apply (proj1 (@flash_wilson_bubble diverging_numerics [0.4; 0.6] [305.322; 540.13]
                  [4872200; 2736000] [0.099; 0.349] 300
                  ltac:(lra) eq_refl eq_refl eq_refl)).
Defined.

Lemma exp_arg_at_Tc : exp (5.37 * (1.0 + 0) * (1.0 - 300 / 300)) = 1.
Proof.
  replace (5.37 * (1.0 + 0) * (1.0 - 300 / 300)) with 0 by lra. apply exp_0.
Qed.

Lemma P_bubble_closed_form_at_Tc :
  P_bubble_closed_form [1/2; 1/2] [300; 300] [2; 1/2] [0; 0] 300 = 5/4.
Proof.
  unfold P_bubble_closed_form, Rsum. simpl.
  replace (5.37 * (1 + 0) * (1 - 300 / 300)) with 0 by lra.
  rewrite exp_0. lra.
Qed.

(** A run of the bubble mode that returns: two species at their common
    critical temperature. *)
Lemma flash_wilson_bubble_example :
  @flash_wilson diverging_numerics [1/2; 1/2] [300; 300] [2; 1/2] [0; 0]
     (Some 300) None (Some 0)
  = Ok (FlashTuple 300 (5/4) 0 [1/2; 1/2] [4/5; 1/5]).
Proof.
  rewrite (@flash_wilson_bubble_mode diverging_numerics [1/2; 1/2] [300; 300] [2; 1/2]
             [0; 0] 300 ltac:(lra) eq_refl eq_refl eq_refl).
  rewrite P_bubble_closed_form_at_Tc.
  unfold flash_wilson_TP, comprehension, range. simpl.
  unfold getitem. simpl. unfold Wilson_K_value.
  rewrite !pydiv_ok by lra. simpl. rewrite !exp_arg_at_Tc.
  unfold flash_inner_loop. simpl. unfold analytical_2.
  rewrite pydiv_ok by lra.
  match goal with
  | |- context [analytical_xs_ys ?v _ _] => replace v with 0 by Rconst
  end.
  unfold analytical_xs_ys. simpl.
  rewrite !filter_cons, filter_nil. simpl.
  destruct (decide (1 / 2 <> 0)) as [_|Hne]; [|exfalso; apply Hne; lra].
  simpl. rewrite !pydiv_ok by lra. simpl.
  do 2 f_equal; Rlist.
Qed.

End WilsonFlashExample.

(** ** Activity coefficients of an ideal mixture *)

Section IdealMixtures.
Local Open Scope R_scope.

Lemma bind_Ok {A B} (a : A) (f : A -> res B) : (x ← Ok a; f x) = f a.
Proof. reflexivity. Qed.

(** The entries of a constant matrix. *)
Lemma getitem2_replicate (N i j : nat) (x : R) :
  (i < N)%nat -> (j < N)%nat ->
  getitem2 (replicate N (replicate N x)) i j = Ok x.
Proof.
  intros Hi Hj. unfold getitem2, getitem.
  rewrite (lookup_replicate_2 N (replicate N x) i Hi). simpl.
  rewrite (lookup_replicate_2 N x j Hj). reflexivity.
Qed.

Lemma getitem_lt {A} (l : list A) (i : nat) :
  (i < length l)%nat -> exists x, l !! i = Some x /\ getitem l i = Ok x.
Proof.
  intros Hi. destruct (lookup_lt_is_Some_2 l i Hi) as [x Hx].
  exists x. unfold getitem. rewrite Hx. auto.
Qed.

(** A row of a matrix agrees with the matrix entries. *)
Lemma getitem2_row {A} (m : list (list A)) (row : list A) (i j : nat) (x : A) :
  getitem m i = Ok row -> getitem2 m i j = Ok x -> getitem row j = Ok x.
Proof. unfold getitem2. intros ->. simpl. auto. Qed.

Lemma getitem2_row_exists {A} (m : list (list A)) (i j : nat) (x : A) :
  getitem2 m i j = Ok x -> exists row, getitem m i = Ok row.
Proof.
  unfold getitem2. destruct (getitem m i) as [row|e]; simpl; [eauto | discriminate].
Qed.

(** A comprehension that weighs [xs] item by item. *)
Lemma comprehension_weighted (xs : list R) (f : nat -> res R) (g : R -> R) :
  (forall k x, xs !! k = Some x -> f k = Ok (g x)) ->
  comprehension (length xs) f = Ok (map g xs).
Proof.
  intros Hf. apply comprehension_Ok.
  - rewrite length_map. reflexivity.
  - intros k y Hy. rewrite list_lookup_fmap in Hy.
    destruct (xs !! k) as [x|] eqn:Hx; [|discriminate].
    injection Hy as <-. apply (Hf k x Hx).
Qed.

Section NRTLIdeal.
Variables (xs : list R) (taus alphas : list (list R)).
Local Abbreviation N := (length xs).
Hypothesis Htaus : forall i j, (i < N)%nat -> (j < N)%nat -> getitem2 taus i j = Ok 0.
Hypothesis Halphas :
  forall i j, (i < N)%nat -> (j < N)%nat -> exists a, getitem2 alphas i j = Ok a.
Hypothesis Hsum : pysum xs <> 0.

Local Abbreviation ones := (replicate N (replicate N 1)).

Lemma NRTL_Gs_ideal :
  comprehension N (fun i =>
    comprehension N (fun j =>
      a ← getitem2 alphas i j;
      t ← getitem2 taus i j;
      Ok (exp (- a * t))))
  = Ok ones.
Proof.
  apply comprehension_Ok; [apply length_replicate|].
  intros i row Hrow. apply lookup_replicate in Hrow as [-> Hi].
  apply comprehension_Ok; [apply length_replicate|].
  intros j x Hx. apply lookup_replicate in Hx as [-> Hj].
  destruct (Halphas i j Hi Hj) as [a ->]. rewrite bind_Ok.
  rewrite (Htaus i j Hi Hj), bind_Ok.
  replace (- a * 0) with 0 by lra. rewrite exp_0. reflexivity.
Qed.

Lemma NRTL_td_ideal (j : nat) :
  (j < N)%nat ->
  comprehension N (fun k =>
      xk ← getitem xs k; G_kj ← getitem2 ones k j; Ok (xk * G_kj))
  = Ok (map (fun x => x * 1) xs).
Proof.
  intros Hj. apply comprehension_weighted. intros k x Hx.
  unfold getitem at 1. rewrite Hx, bind_Ok.
  rewrite getitem2_replicate, bind_Ok; [reflexivity | | exact Hj].
  apply lookup_lt_Some in Hx. exact Hx.
Qed.

Lemma NRTL_tn_ideal (j : nat) :
  (j < N)%nat ->
  comprehension N (fun m =>
      xm ← getitem xs m;
      tau_mj ← getitem2 taus m j;
      G_mj ← getitem2 ones m j;
      Ok (xm * tau_mj * G_mj))
  = Ok (map (fun x => x * 0 * 1) xs).
Proof.
  intros Hj. apply comprehension_weighted. intros k x Hx.
  assert (k < N)%nat as Hk by (apply lookup_lt_Some in Hx; exact Hx).
  unfold getitem at 1. rewrite Hx, bind_Ok.
  rewrite (Htaus k j Hk Hj), bind_Ok.
  rewrite getitem2_replicate, bind_Ok by assumption. reflexivity.
Qed.

Lemma NRTL_ideal : NRTL xs taus alphas = Ok (replicate N 1).
Proof.
  unfold NRTL. rewrite NRTL_Gs_ideal, bind_Ok.
  apply comprehension_Ok; [apply length_replicate|].
  intros i x Hx. apply lookup_replicate in Hx as [-> Hi].
  assert (getitem ones i = Ok (replicate N 1)) as ->.
  { unfold getitem. rewrite (lookup_replicate_2 N _ i Hi). reflexivity. }
  rewrite bind_Ok.
  destruct (getitem2_row_exists taus i i 0 (Htaus i i Hi Hi)) as [tausi Htausi].
  rewrite Htausi, bind_Ok.
  match goal with
  | |- mbind _ (for_range N ?body ?init) = _ =>
      destruct (for_range_invariant
                  (fun k '(tn1, td1, total2) =>
                     tn1 = 0 /\ td1 = pysum (take k xs) /\ total2 = 0)
                  N body init) as ([[tn1 td1] total2] & Hloop & -> & -> & ->)
  end.
  - repeat split; reflexivity.
  - intros j [[tn1 td1] total2] Hj (-> & -> & ->).
    destruct (getitem_lt xs j Hj) as (xj & Hxj & ->). rewrite bind_Ok.
    rewrite (Htaus j i Hj Hi), bind_Ok.
    assert (getitem2 ones j i = Ok 1) as ->
      by (apply getitem2_replicate; assumption).
    rewrite bind_Ok.
    assert (getitem (replicate N 1) j = Ok 1) as ->.
    { unfold getitem. rewrite (lookup_replicate_2 N _ j Hj). reflexivity. }
    rewrite bind_Ok.
    rewrite (NRTL_td_ideal j Hj), bind_Ok.
    rewrite (NRTL_tn_ideal j Hj), bind_Ok.
    rewrite (pysum_map_id (fun x => x * 1)) by (intros; lra).
    rewrite (pysum_map_zero (fun x => x * 0 * 1)) by (intros; lra).
    rewrite !pydiv_ok by exact Hsum. rewrite bind_Ok.
    rewrite (getitem2_row taus tausi i j 0 Htausi (Htaus i j Hi Hj)), !bind_Ok.
    eexists. split; [reflexivity|]. split; [lra|]. split.
    + rewrite (pysum_take_S xs j xj Hxj). lra.
    + unfold Rdiv. ring.
  - rewrite Hloop, bind_Ok. rewrite firstn_all.
    rewrite (pydiv_ok _ _ Hsum), bind_Ok.
    replace (0 / pysum xs + 0) with 0 by (unfold Rdiv; ring).
    rewrite exp_0. reflexivity.
Qed.

End NRTLIdeal.

Section WilsonIdeal.
Variables (xs : list R) (params : list (list R)).
Local Abbreviation N := (length xs).
Hypothesis Hparams :
  forall i j, (i < N)%nat -> (j < N)%nat -> getitem2 params i j = Ok 1.
Hypothesis Hsum : pysum xs = 1.

Lemma Wilson_row_ideal (i : nat) :
  (i < N)%nat ->
  comprehension N (fun j =>
      p ← getitem2 params i j; xj ← getitem xs j; Ok (p * xj))
  = Ok (map (fun x => 1 * x) xs).
Proof.
  intros Hi. apply comprehension_weighted. intros k x Hx.
  assert (k < N)%nat as Hk by (apply lookup_lt_Some in Hx; exact Hx).
  rewrite (Hparams i k Hi Hk), bind_Ok.
  unfold getitem. rewrite Hx. reflexivity.
Qed.

Lemma pylog_1 : pylog 1 = Ok 0.
Proof.
  unfold pylog. destruct (decide (0 < 1)) as [_|Hn]; [|lra].
  rewrite ln_1. reflexivity.
Qed.

Lemma Wilson_ideal : Wilson xs params = Ok (replicate N 1).
Proof.
  unfold Wilson.
  apply comprehension_Ok; [apply length_replicate|].
  intros i x Hx. apply lookup_replicate in Hx as [-> Hi].
  rewrite (Wilson_row_ideal i Hi), bind_Ok.
  rewrite (pysum_map_id (fun x => 1 * x)) by (intros; lra).
  rewrite Hsum, pylog_1, bind_Ok.
  match goal with
  | |- mbind _ (for_range N ?body ?init) = _ =>
      destruct (for_range_invariant (fun k tot2 => tot2 = pysum (take k xs))
                  N body init) as (tot2 & Hloop & ->)
  end.
  - reflexivity.
  - intros j tot2 Hj ->.
    rewrite (Hparams j i Hj Hi), bind_Ok.
    destruct (getitem_lt xs j Hj) as (xj & Hxj & ->). rewrite bind_Ok.
    rewrite (Wilson_row_ideal j Hj), bind_Ok.
    rewrite (pysum_map_id (fun x => 1 * x)) by (intros; lra).
    rewrite Hsum, pydiv_ok, bind_Ok by lra.
    eexists. split; [reflexivity|].
    rewrite (pysum_take_S xs j xj Hxj). lra.
  - rewrite Hloop, bind_Ok. rewrite firstn_all, Hsum.
    replace (1 - 0 - 1) with 0 by lra. rewrite exp_0. reflexivity.
Qed.

End WilsonIdeal.

(** C4: for a composition vector [xs] (mole fractions that sum to 1),
    [NRTL(xs, taus, alphas)] with every [taus] entry [0] returns [1] for every
    species whatever the entries of [alphas], and [Wilson(xs, params)] with
    every [params] entry [1] returns [1] for every species. *)
Theorem activity_coefficients_ideal (xs : list R) :
  composition xs ->
  (forall taus alphas,
      (forall i j, (i < length xs)%nat -> (j < length xs)%nat ->
                   getitem2 taus i j = Ok 0) ->
      (forall i j, (i < length xs)%nat -> (j < length xs)%nat ->
                   exists a, getitem2 alphas i j = Ok a) ->
      NRTL xs taus alphas = Ok (replicate (length xs) 1))
  /\ (forall params,
         (forall i j, (i < length xs)%nat -> (j < length xs)%nat ->
                      getitem2 params i j = Ok 1) ->
         Wilson xs params = Ok (replicate (length xs) 1)).
Proof.
  intros [_ Hsum]. rewrite <- pysum_Rsum in Hsum. split.
  - intros taus alphas Htaus Halphas.
    apply NRTL_ideal; [assumption | assumption | lra].
  - intros params Hparams. apply Wilson_ideal; assumption.
Qed.

End IdealMixtures.

Section IdealMixturesExample.
Local Open Scope R_scope.

(** The ethanol-water composition of the docstrings, with neutral
    parameters. *)
Lemma activity_coefficients_ideal_witness :
  NRTL [0.252; 0.748] [[0; 0]; [0; 0]] [[0; 0.2974]; [0.2974; 0]] = Ok [1; 1]
  /\ Wilson [0.252; 0.748] [[1; 1]; [1; 1]] = Ok [1; 1].
Proof.
  assert (composition [0.252; 0.748]) as Hc.
  { split; [repeat constructor; lra | unfold Rsum; simpl; lra]. }
  destruct (activity_coefficients_ideal [0.252; 0.748] Hc) as [HN HW].
  split.
  - apply HN.
    + intros [|[|i]] [|[|j]] Hi Hj; simpl in *; try lia; reflexivity.
    + intros [|[|i]] [|[|j]] Hi Hj; simpl in *; try lia; eexists; reflexivity.
  - apply HW.
    intros [|[|i]] [|[|j]] Hi Hj; simpl in *; try lia; reflexivity.
Defined.

End IdealMixturesExample.

(** ** The NRTL model object *)

Section NRTLObject.
Local Open Scope R_scope.

Lemma alloc_fresh (h : heap) : h !! alloc h = None.
Proof. apply not_elem_of_dom. unfold alloc. apply is_fresh. Qed.

Lemma getattr_instance (h : heap) (self : loc) (attrs : gmap string value)
    (name : string) :
  h !! self = Some (OInstance attrs) ->
  getattr h self name = match attrs !! name with
                        | Some v => Ok v
                        | None => Raise AttributeError
                        end.
Proof. intros Hself. unfold getattr. rewrite Hself. reflexivity. Qed.

(** Copying attributes one by one: the copied names take the values they
    have in [self], the others keep what [new] held. *)
Lemma copy_attrs_lookup (h : heap) (self : loc) (attrs : gmap string value)
    (names : list string) (new : gmap string value) :
  h !! self = Some (OInstance attrs) ->
  (forall name, name ∈ names -> is_Some (attrs !! name)) ->
  exists new',
    copy_attrs h self names new = Ok new'
    /\ forall name, new' !! name
                    = if decide (name ∈ names) then attrs !! name else new !! name.
Proof.
  intros Hself. revert new.
  induction names as [|n0 names IH]; intros new Hall; simpl.
  - exists new. split; [reflexivity|]. intros name.
    destruct (decide (name ∈ [])) as [Hin|_]; [|reflexivity].
    apply elem_of_nil in Hin. contradiction.
  - destruct (Hall n0) as [v Hv]; [left|].
    rewrite (getattr_instance h self attrs n0 Hself), Hv. simpl.
    destruct (IH (<[n0 := v]> new)) as (new' & -> & Hnew').
    { intros name Hin. apply Hall. right. exact Hin. }
    exists new'. split; [reflexivity|]. intros name. rewrite Hnew'.
    destruct (decide (name ∈ names)) as [Hin|Hnin].
    + rewrite decide_True by (right; exact Hin). reflexivity.
    + destruct (decide (name = n0)) as [->|Hne].
      * rewrite lookup_insert_eq, decide_True by left. symmetry. exact Hv.
      * rewrite lookup_insert_ne by congruence.
        rewrite decide_False; [reflexivity|].
        intros Hin. apply elem_of_cons in Hin as [?|?]; contradiction.
Qed.

Lemma lambdas_not_copied : "_lambdas" ∉ copied_names.
Proof.
  intros Hin. apply list_elem_of_In in Hin. simpl in Hin.
  repeat (destruct Hin as [Hin|Hin]; [discriminate|]). exact Hin.
Qed.

(** C6: [gammas()] returns what the stateless [NRTL] function returns on the
    instance's [xs], [taus()] and [alphas()]. *)
Theorem gammas_is_NRTL (h : heap) (self : loc) (xs : list R)
    (taus_ alphas_ : list (list R)) :
  taus h self = Ok taus_ ->
  alphas h self = Ok alphas_ ->
  (xs ← getattr h self "xs"; vlist h xs) = Ok xs ->
  gammas h self = NRTL xs taus_ alphas_.
Proof.
  intros Htaus Halphas Hxs. unfold gammas. rewrite Halphas, Htaus. simpl.
  destruct (getattr h self "xs") as [v|e]; simpl in *; [|discriminate].
  rewrite Hxs. reflexivity.
Qed.

(** When [taus()] or [alphas()] raises, so does [gammas()]. *)
Lemma gammas_raises (h : heap) (self : loc) (e : exn) :
  alphas h self = Raise e
  \/ (exists alphas_, alphas h self = Ok alphas_ /\ taus h self = Raise e) ->
  gammas h self = Raise e.
Proof.
  unfold gammas. intros [-> | (alphas_ & -> & ->)]; reflexivity.
Qed.

(** The attributes of the instance [to_T_xs] builds, name by name. *)
Lemma to_T_xs_attributes (h : heap) (self : loc) (attrs : gmap string value)
    (T : R) (xs : value) :
  h !! self = Some (OInstance attrs) ->
  (forall name, name ∈ "T" :: copied_names -> is_Some (attrs !! name)) ->
  exists new_attrs,
    to_T_xs h self T xs = Ok (<[alloc h := OInstance new_attrs]> h, alloc h)
    /\ forall name,
         new_attrs !! name
         = if decide (name = "_lambdas")
           then (if float_eq T (default VNone (attrs !! "T"))
                 then attrs !! "_lambdas" else None)
           else if decide (name ∈ copied_names) then attrs !! name
           else (<["xs" := xs]> (<["T" := VFloat T]> ∅) : gmap string value) !! name.
Proof.
  intros Hself Hall.
  destruct (copy_attrs_lookup h self attrs copied_names
              (<["xs" := xs]> (<["T" := VFloat T]> ∅)) Hself)
    as (copied & Hcopy & Hcopied).
  { intros name Hin. apply Hall. right. exact Hin. }
  destruct (Hall "T") as [self_T HT]; [left|].
  assert (copied !! "_lambdas" = None) as Hnone.
  { rewrite Hcopied. reflexivity. }
  unfold to_T_xs. rewrite Hcopy. simpl.
  rewrite (getattr_instance h self attrs "T" Hself), HT. simpl.
  destruct (float_eq T self_T).
  - rewrite (getattr_instance h self attrs "_lambdas" Hself).
    destruct (attrs !! "_lambdas") as [v|] eqn:Hl; simpl.
    + eexists. split; [reflexivity|]. intros name.
      destruct (decide (name = "_lambdas")) as [->|Hne].
      * apply lookup_insert_eq.
      * rewrite lookup_insert_ne by congruence. apply Hcopied.
    + eexists. split; [reflexivity|]. intros name.
      destruct (decide (name = "_lambdas")) as [->|Hne]; [exact Hnone | apply Hcopied].
  - eexists. split; [reflexivity|]. intros name.
    destruct (decide (name = "_lambdas")) as [->|Hne]; [exact Hnone | apply Hcopied].
Qed.

(** C8, amended: [to_T_xs(T, xs)] leaves every object of the heap as it was
    (the original instance with its [T] and [xs], the coefficient matrices)
    and adds one new instance.  The new instance holds the new [T] and [xs];
    for [N], [cmps], [zero_coeffs] and the eight coefficient matrices it holds
    the very values of the original, hence references to the same matrices.
    When the new [T] equals the original's, it also receives the original's
    [_lambdas], if there is one; it holds no other attribute, so no
    weighted-sum cache ([_xj_Gs_jis], ...) is carried over. *)
Theorem to_T_xs_shares (h : heap) (self : loc) (attrs : gmap string value)
    (T : R) (xs : value) :
  h !! self = Some (OInstance attrs) ->
  (forall name, name ∈ "T" :: copied_names -> is_Some (attrs !! name)) ->
  exists new new_attrs,
    to_T_xs h self T xs = Ok (<[new := OInstance new_attrs]> h, new)
    /\ h !! new = None
    /\ (forall l o, h !! l = Some o ->
                    (<[new := OInstance new_attrs]> h) !! l = Some o)
    /\ new_attrs !! "T" = Some (VFloat T)
    /\ new_attrs !! "xs" = Some xs
    /\ (forall name, name ∈ copied_names -> new_attrs !! name = attrs !! name)
    /\ new_attrs !! "_lambdas"
       = (if float_eq T (default VNone (attrs !! "T"))
          then attrs !! "_lambdas" else None)
    /\ (forall name, name ∉ "T" :: "xs" :: "_lambdas" :: copied_names ->
                     new_attrs !! name = None).
Proof.
  intros Hself Hall.
  destruct (to_T_xs_attributes h self attrs T xs Hself Hall)
    as (new_attrs & Hrun & Hnew).
  exists (alloc h), new_attrs.
  split; [exact Hrun|]. split; [apply alloc_fresh|].
  split.
  { intros l o Hl. rewrite lookup_insert_ne; [exact Hl|].
    intros <-. rewrite alloc_fresh in Hl. discriminate. }
  split. { rewrite Hnew. reflexivity. }
  split. { rewrite Hnew. reflexivity. }
  split.
  { intros name Hin. rewrite Hnew.
    rewrite decide_False by (intros ->; exact (lambdas_not_copied Hin)).
    rewrite decide_True by exact Hin. reflexivity. }
  split. { rewrite Hnew. reflexivity. }
  intros name Hnot. rewrite Hnew.
  rewrite decide_False by (intros ->; apply Hnot; do 2 right; left).
  rewrite decide_False by (intros Hin; apply Hnot; do 3 right; exact Hin).
  rewrite !lookup_insert_ne, lookup_empty; [reflexivity | |];
    intros <-; apply Hnot; [left | right; left].
Qed.

End NRTLObject.

(** ** The example instance *)

Section ExampleInstance.
Local Open Scope R_scope.

Lemma example_instance : example_heap !! 5%positive = Some (OInstance example_attrs).
Proof. reflexivity. Qed.

Lemma example_getattr (name : string) (v : value) :
  example_attrs !! name = Some v -> getattr example_heap 5 name = Ok v.
Proof.
  intros Hv. rewrite (getattr_instance _ _ _ _ example_instance), Hv. reflexivity.
Qed.

Lemma example_no_attr (name : string) :
  example_attrs !! name = None -> getattr example_heap 5 name = Raise AttributeError.
Proof.
  intros Hv. rewrite (getattr_instance _ _ _ _ example_instance), Hv. reflexivity.
Qed.

Lemma example_matrix_1 : vmatrix example_heap (VRef 1) = Ok [[0; 1]; [2; 0]].
Proof. reflexivity. Qed.

Lemma example_matrix_2 : vmatrix example_heap (VRef 2) = Ok [[0; 0]; [0; 0]].
Proof. reflexivity. Qed.

Lemma example_matrix_3 : vmatrix example_heap (VRef 3) = Ok [[0; 0.3]; [0.3; 0]].
Proof. reflexivity. Qed.

Lemma example_list_4 : vlist example_heap (VRef 4) = Ok [0.25; 0.75].
Proof. reflexivity. Qed.

Ltac example_attrs_run :=
  repeat match goal with
         | |- context [getattr example_heap 5 ?name] =>
             rewrite (example_getattr name _ eq_refl)
         end;
  simpl.

Lemma example_taus : taus example_heap 5 = Ok [[0; 1]; [2; 0]].
Proof.
  unfold taus, vrow. example_attrs_run.
  rewrite pydiv_ok by lra. simpl. rewrite pylog_1. simpl.
  rewrite example_matrix_1, !example_matrix_2. simpl.
  unfold getitem. simpl.
  f_equal. repeat (apply (f_equal2 cons); [Rlist|]). reflexivity.
Qed.

Lemma example_alphas : alphas example_heap 5 = Ok [[0; 0.3]; [0.3; 0]].
Proof.
  unfold alphas, vrow. example_attrs_run.
  rewrite example_matrix_3, !example_matrix_2. simpl.
  unfold getitem. simpl.
  f_equal. repeat (apply (f_equal2 cons); [Rlist|]). reflexivity.
Qed.

Lemma example_Gs :
  Gs example_heap 5
  = Ok [[exp (- 0 * 0); exp (- (0.3) * 1)]; [exp (- (0.3) * 2); exp (- 0 * 0)]].
Proof.
  unfold Gs. rewrite example_alphas, example_taus. simpl.
  example_attrs_run. unfold getitem. simpl. reflexivity.
Qed.

(** On the example instance [gammas()] is [NRTL] on its composition, its
    [taus()] and its [alphas()]. *)
Lemma gammas_is_NRTL_witness :
  gammas example_heap 5 = NRTL [0.25; 0.75] [[0; 1]; [2; 0]] [[0; 0.3]; [0.3; 0]].
Proof.
  apply (gammas_is_NRTL example_heap 5 [0.25; 0.75] [[0; 1]; [2; 0]]
           [[0; 0.3]; [0.3; 0]] example_taus example_alphas).
  rewrite (example_getattr "xs" _ eq_refl). simpl. apply example_list_4.
Defined.

(** The example instance after a call of [xj_Gs_jis()]: the list is stored
    at a new location, under [_xj_Gs_jis]. *)
Lemma example_xj_Gs_jis :
  exists h1 c,
    xj_Gs_jis example_heap 5 = (h1, Ok (VRef c))
    /\ h1 !! 5%positive
       = Some (OInstance (<["_xj_Gs_jis" := VRef c]> example_attrs)).
Proof.
  unfold xj_Gs_jis.
  rewrite (example_no_attr "_xj_Gs_jis" eq_refl), (example_no_attr "_Gs" eq_refl).
  rewrite example_Gs. example_attrs_run.
  do 2 eexists. split; reflexivity.
Qed.

Lemma example_copied_present (c : loc) (name : string) :
  name ∈ "T" :: copied_names ->
  is_Some ((<["_xj_Gs_jis" := VRef c]> example_attrs) !! name).
Proof.
  intros Hin. apply list_elem_of_In in Hin. simpl in Hin.
  repeat (destruct Hin as [<-|Hin]; [eexists; reflexivity|]). contradiction.
Qed.

(** C8, as stated, fails: on an instance whose weighted sums [_xj_Gs_jis]
    have been computed, [to_T_xs] with the instance's own [T] returns an
    instance without [_xj_Gs_jis]. *)
Lemma to_T_xs_drops_weighted_sums :
  exists h1 cache h2 new,
    xj_Gs_jis example_heap 5 = (h1, Ok cache)
    /\ getattr h1 5 "_xj_Gs_jis" = Ok cache
    /\ getattr h1 5 "T" = Ok (VFloat 1)
    /\ to_T_xs h1 5 1 (VRef 4) = Ok (h2, new)
    /\ getattr h2 new "_xj_Gs_jis" = Raise AttributeError.
Proof.
  destruct example_xj_Gs_jis as (h1 & c & Hrun & Hself).
  destruct (to_T_xs_attributes h1 5 _ 1 (VRef 4) Hself (example_copied_present c))
    as (new_attrs & Hto & Hnew).
  exists h1, (VRef c), (<[alloc h1 := OInstance new_attrs]> h1), (alloc h1).
  split; [exact Hrun|].
  split. { rewrite (getattr_instance _ _ _ _ Hself). reflexivity. }
  split. { rewrite (getattr_instance _ _ _ _ Hself). reflexivity. }
  split; [exact Hto|].
  rewrite (getattr_instance _ _ new_attrs _ (lookup_insert_eq _ _ _)).
  rewrite Hnew. reflexivity.
Qed.

(** The premises of [to_T_xs_shares] hold on the example instance. *)
Lemma to_T_xs_shares_witness :
  exists new new_attrs,
    to_T_xs example_heap 5 1 (VRef 4)
    = Ok (<[new := OInstance new_attrs]> example_heap, new)
    /\ example_heap !! new = None
    /\ (forall l o, example_heap !! l = Some o ->
                    (<[new := OInstance new_attrs]> example_heap) !! l = Some o)
    /\ new_attrs !! "T" = Some (VFloat 1)
    /\ new_attrs !! "xs" = Some (VRef 4)
    /\ (forall name, name ∈ copied_names ->
                     new_attrs !! name = example_attrs !! name)
    /\ new_attrs !! "_lambdas" = None
    /\ (forall name, name ∉ "T" :: "xs" :: "_lambdas" :: copied_names ->
                     new_attrs !! name = None).
Proof.
  destruct (to_T_xs_shares example_heap 5 example_attrs 1 (VRef 4) example_instance)
    as (new & new_attrs & H1 & H2 & H3 & H4 & H5 & H6 & H7 & H8).
  { intros name Hin. apply list_elem_of_In in Hin. simpl in Hin.
    repeat (destruct Hin as [<-|Hin]; [eexists; reflexivity|]). contradiction. }
  exists new, new_attrs. repeat (split; [assumption|]).
  split; [|assumption].
  rewrite H7. destruct (float_eq _ _); reflexivity.
Defined.

End ExampleInstance.

(** ** Further properties of the inner loop *)

Section InnerLoopMore.
Context `{Numerics}.
Local Open Scope R_scope.

(** The liquid and vapour compositions every Rachford-Rice style solver
    builds from its root: one entry per species, [ys[i] = Ks[i]*xs[i]], and
    the species balance [zs[i] = (1 - V)*xs[i] + V*ys[i]]. *)
Lemma split_invariant (V : R) (zs Ks xs : list R) :
  length zs = length Ks ->
  zip_comprehension (fun zi Ki => pydiv zi (1 + V * (Ki - 1))) zs Ks = Ok xs ->
  let ys := zip_with (fun xi Ki => Ki * xi) xs Ks in
  length xs = length zs /\ length ys = length zs
  /\ forall i z K, zs !! i = Some z -> Ks !! i = Some K ->
       exists x, xs !! i = Some x /\ ys !! i = Some (K * x)
                 /\ z = (1 - V) * x + V * (K * x).
Proof.
  intros Hlen Hxs ys. unfold zip_comprehension in Hxs.
  pose proof (mapM_Ok_length _ _ _ Hxs) as Hl. rewrite length_zip in Hl.
  apply mapM_Ok_inv in Hxs.
  split; [lia|]. split; [unfold ys; rewrite length_zip_with; lia|].
  intros i z K Hz HK.
  assert (zip zs Ks !! i = Some (z, K)) as HzK.
  { apply lookup_zip_with_Some. eauto. }
  destruct (Forall2_lookup_l _ _ _ _ _ Hxs HzK) as (x & Hx & Hdiv).
  exists x. split; [exact Hx|]. split.
  - unfold ys. rewrite lookup_zip_with, Hx, HK. reflexivity.
  - simpl in Hdiv. unfold pydiv in Hdiv.
    destruct (decide (1 + V * (K - 1) = 0)) as [|Hne]; [discriminate|].
    injection Hdiv as <-. field. exact Hne.
Qed.

(** X1: whatever root the external solvers hand back, the tuple
    [Rachford_Rice_solution] returns has one [xs] and one [ys] entry per
    species, with [ys[i] = Ks[i]*xs[i]] and the species balance
    [zs[i] = (1 - V_over_F)*xs[i] + V_over_F*ys[i]]. *)
Theorem Rachford_Rice_solution_balance (zs Ks : list R) (fprime fprime2 : bool)
    (V_over_F : R) (xs ys : list R) :
  length zs = length Ks ->
  Rachford_Rice_solution zs Ks fprime fprime2 = Ok (V_over_F, xs, ys) ->
  length xs = length zs /\ length ys = length zs
  /\ forall i z K, zs !! i = Some z -> Ks !! i = Some K ->
       exists x, xs !! i = Some x /\ ys !! i = Some (K * x)
                 /\ z = (1 - V_over_F) * x + V_over_F * (K * x).
Proof.
  intros Hlen. unfold Rachford_Rice_solution.
  repeat match goal with
         | |- mbind _ ?m = Ok _ -> _ => destruct m eqn:?; simpl; [|discriminate]
         end.
  intros [= <- <- <-].
  match goal with
  | Hx : zip_comprehension _ zs Ks = Ok _ |- _ =>
      exact (split_invariant _ _ _ _ Hlen Hx)
  end.
Qed.

(** X2: the same holds for [Li_Johns_Ahmadi_solution]. *)
Theorem Li_Johns_Ahmadi_solution_balance (zs Ks : list R)
    (V_over_F : R) (xs ys : list R) :
  length zs = length Ks ->
  Li_Johns_Ahmadi_solution zs Ks = Ok (V_over_F, xs, ys) ->
  length xs = length zs /\ length ys = length zs
  /\ forall i z K, zs !! i = Some z -> Ks !! i = Some K ->
       exists x, xs !! i = Some x /\ ys !! i = Some (K * x)
                 /\ z = (1 - V_over_F) * x + V_over_F * (K * x).
Proof.
  intros Hlen. unfold Li_Johns_Ahmadi_solution.
  repeat match goal with
         | |- mbind _ ?m = Ok _ -> _ => destruct m eqn:?; simpl; [|discriminate]
         | |- (let '(_, _) := ?p in _) = Ok _ -> _ => destruct p
         end.
  intros [= <- <- <-].
  match goal with
  | Hx : zip_comprehension _ zs Ks = Ok _ |- _ =>
      exact (split_invariant _ _ _ _ Hlen Hx)
  end.
Qed.

End InnerLoopMore.

Section InnerLoopMoreExamples.
Local Open Scope R_scope.

Lemma Rachford_Rice_solution_oracle :
  @Rachford_Rice_solution (oracle_numerics (1/2)) [1/2; 1/2] [2; 1/2] false false
  = Ok (1/2, [1/3; 2/3], [2/3; 1/3]).
Proof.
  unfold Rachford_Rice_solution. simpl.
  repeat (case_decide; try lra). simpl.
  repeat (case_decide; try lra). simpl.
  rewrite !pydiv_ok by lra. simpl.
  unfold zip_comprehension. simpl. rewrite !pydiv_ok by lra. simpl.
  do 2 f_equal; [f_equal|]; Rlist.
Qed.

Lemma Rachford_Rice_solution_balance_witness :
  length [1/3; 2/3] = length [1/2; 1/2]
  /\ length [2/3; 1/3] = length [1/2; 1/2]
  /\ forall i z K, [1/2; 1/2] !! i = Some z -> [2; 1/2] !! i = Some K ->
       exists x, [1/3; 2/3] !! i = Some x /\ [2/3; 1/3] !! i = Some (K * x)
                 /\ z = (1 - 1/2) * x + 1/2 * (K * x).
Proof.
  exact (@Rachford_Rice_solution_balance (oracle_numerics (1/2)) [1/2; 1/2] [2; 1/2]
           false false (1/2) [1/3; 2/3] [2/3; 1/3] eq_refl
           Rachford_Rice_solution_oracle).
Defined.

Ltac decide_floats :=
  repeat match goal with
         | |- context [bool_decide ?P] =>
             first [ rewrite (bool_decide_eq_true_2 P) by lra
                   | rewrite (bool_decide_eq_false_2 P) by lra ]
         end.

Lemma sorted_reverse_example :
  sorted_reverse [(2, 1/2); (1, 1/4); (1/2, 1/4)]
  = [(2, 1/2); (1, 1/4); (1/2, 1/4)].
Proof.
  unfold sorted_reverse. simpl.
  unfold pair_lt. simpl. decide_floats. simpl.
  unfold pair_lt. simpl. decide_floats. reflexivity.
Qed.

Lemma Li_Johns_Ahmadi_solution_oracle :
  @Li_Johns_Ahmadi_solution (oracle_numerics (1/4)) [1/2; 1/4; 1/4] [2; 1; 1/2]
  = Ok (1, [1/4; 1/4; 1/2], [1/2; 1/4; 1/4]).
Proof.
  unfold Li_Johns_Ahmadi_solution.
  change (zip [2; 1; 1/2] [1/2; 1/4; 1/4]) with [(2, 1/2); (1, 1/4); (1/2, 1/4)].
  rewrite sorted_reverse_example. simpl.
  unfold getitem. simpl.
  rewrite !pydiv_ok by lra. simpl.
  repeat (case_decide; try lra). decide_floats. simpl.
  unfold zip_comprehension. simpl.
  rewrite !pydiv_ok by lra. simpl.
  do 2 f_equal; [f_equal|]; first [Rconst | Rlist].
Qed.

Lemma Li_Johns_Ahmadi_solution_balance_witness :
  length [1/4; 1/4; 1/2] = length [1/2; 1/4; 1/4]
  /\ length [1/2; 1/4; 1/4] = length [1/2; 1/4; 1/4]
  /\ forall i z K, [1/2; 1/4; 1/4] !! i = Some z -> [2; 1; 1/2] !! i = Some K ->
       exists x, [1/4; 1/4; 1/2] !! i = Some x
                 /\ [1/2; 1/4; 1/4] !! i = Some (K * x)
                 /\ z = (1 - 1) * x + 1 * (K * x).
Proof.
  exact (@Li_Johns_Ahmadi_solution_balance (oracle_numerics (1/4))
           [1/2; 1/4; 1/4] [2; 1; 1/2] 1 [1/4; 1/4; 1/2] [1/2; 1/4; 1/4] eq_refl
           Li_Johns_Ahmadi_solution_oracle).
Defined.

End InnerLoopMoreExamples.

Section AnalyticalMethod.
Context `{Numerics}.
Local Open Scope R_scope.





End AnalyticalMethod.

Section AnalyticalMethodExamples.
Local Open Scope R_scope.


End AnalyticalMethodExamples.

(** Membership in a literal list of names. *)
Ltac in_names :=
  apply list_elem_of_In; simpl; tauto.

Ltac not_in_names H :=
  apply list_elem_of_In in H; simpl in H;
  repeat (destruct H as [H|H]; [discriminate|]); try contradiction.

(** [name ∈ literal list <-> arithmetic condition], both sides decided. *)
Ltac offered_iff :=
  split;
  [ let Hin := fresh "Hin" in
    intros Hin;
    first [ solve [exfalso; not_in_names Hin]
          | lia
          | split; [lia | reflexivity] ]
  | let Hl := fresh "Hl" in
    intros Hl;
    first [ solve [in_names]
          | exfalso; lia
          | exfalso; destruct Hl; first [lia | discriminate] ] ].

(** Settle the tests on a species count that [lia] decides. *)
Ltac decide_lengths :=
  repeat match goal with
         | |- context [bool_decide ?P] =>
             first [ rewrite (bool_decide_eq_true_2 P) by lia
                   | rewrite (bool_decide_eq_false_2 P) by lia ]
         end.

Section MethodDispatch.
Context `{Numerics}.
Local Open Scope R_scope.

(** X5: a method name outside [flash_inner_loop_methods] is refused with
    [Exception('Incorrect Method input')], whatever the inputs. *)
Theorem flash_inner_loop_unknown_method (zs Ks : list R) (m : string) :
  m ∉ flash_inner_loop_methods ->
  flash_inner_loop zs Ks false (Some m) = Raise (Exception "Incorrect Method input").
Proof.
  intros Hm. unfold flash_inner_loop.
  rewrite !bool_decide_eq_false_2; [reflexivity | | | | | |];
    intros ->; apply Hm; in_names.
Qed.

(** X6: the Analytical method serves two or three species only; for any other
    count it raises, and so does the default method on an empty or a
    one-species feed, since it selects Analytical below four species. *)
Theorem flash_inner_loop_analytical_range (zs Ks : list R) :
  (length zs <> 2%nat -> length zs <> 3%nat ->
     flash_inner_loop zs Ks false (Some FLASH_INNER_ANALYTICAL)
     = Raise (Exception
                "Only solutions of one or two variables are available analytically"))
  /\ ((length zs < 2)%nat ->
        flash_inner_loop zs Ks false None
        = Raise (Exception
                   "Only solutions of one or two variables are available analytically")).
Proof.
  split.
  - intros H2 H3. unfold flash_inner_loop. simpl.
    rewrite !bool_decide_eq_false_2 by assumption. reflexivity.
  - intros Hlt. unfold flash_inner_loop.
    rewrite (bool_decide_eq_true_2 (length zs < 4)%nat) by lia. simpl.
    rewrite !bool_decide_eq_false_2 by lia. reflexivity.
Qed.

(** The list of offered methods, by ranges of the species count. *)
Lemma flash_inner_loop_list_methods_cases (l : nat) :
  flash_inner_loop_list_methods l =
    if bool_decide (l < 2)%nat then []
    else if bool_decide (l = 2)%nat then
      [FLASH_INNER_ANALYTICAL; FLASH_INNER_SECANT; FLASH_INNER_NR;
       FLASH_INNER_HALLEY] ++ (if IS_PYPY then [] else [FLASH_INNER_NUMPY])
    else if bool_decide (l = 3)%nat then
      [FLASH_INNER_ANALYTICAL; FLASH_INNER_SECANT; FLASH_INNER_NR;
       FLASH_INNER_HALLEY] ++ (if IS_PYPY then [] else [FLASH_INNER_NUMPY])
      ++ [FLASH_INNER_LJA]
    else if bool_decide (l < 10)%nat then
      [FLASH_INNER_SECANT; FLASH_INNER_NR; FLASH_INNER_HALLEY]
      ++ (if IS_PYPY then [] else [FLASH_INNER_NUMPY]) ++ [FLASH_INNER_LJA]
    else
      (if IS_PYPY then [] else [FLASH_INNER_NUMPY])
      ++ [FLASH_INNER_SECANT; FLASH_INNER_NR; FLASH_INNER_HALLEY;
          FLASH_INNER_LJA].
Proof.
  unfold flash_inner_loop_list_methods.
  repeat case_bool_decide; try lia; destruct IS_PYPY; reflexivity.
Qed.

(** X7: which methods [flash_inner_loop_list_methods] offers for [l] species.
    Analytical exactly for two or three species; the three Newton-type solvers
    exactly from two species on; NumPy from two species on outside PyPy;
    Li-Johns-Ahmadi from three on; no name is offered twice. *)
Theorem flash_inner_loop_list_methods_spec (l : nat) :
  let offered := flash_inner_loop_list_methods l in
  (FLASH_INNER_ANALYTICAL ∈ offered <-> l = 2%nat \/ l = 3%nat)
  /\ (FLASH_INNER_SECANT ∈ offered <-> (2 <= l)%nat)
  /\ (FLASH_INNER_NR ∈ offered <-> (2 <= l)%nat)
  /\ (FLASH_INNER_HALLEY ∈ offered <-> (2 <= l)%nat)
  /\ (FLASH_INNER_NUMPY ∈ offered <-> (2 <= l)%nat /\ IS_PYPY = false)
  /\ (FLASH_INNER_LJA ∈ offered <-> (3 <= l)%nat)
  /\ NoDup offered
  /\ (forall m, m ∈ offered -> m ∈ flash_inner_loop_methods).
Proof.
  cbv zeta. rewrite flash_inner_loop_list_methods_cases.
  repeat case_bool_decide; destruct IS_PYPY; simpl;
    repeat (apply conj; [solve [offered_iff]|]);
    (split;
     [ apply (bool_decide_unpack _); reflexivity
     | intros m Hin; apply list_elem_of_In in Hin; simpl in Hin;
       repeat (destruct Hin as [<-|Hin]; [in_names|]); contradiction ]).
Qed.

(** X8: from two species on, the method [flash_inner_loop] selects when none
    is named is one of those it offers for that species count; below two
    species nothing is offered. *)
Theorem flash_inner_loop_default_offered (zs Ks : list R) :
  ((2 <= length zs)%nat ->
     exists m, m ∈ flash_inner_loop_list_methods (length zs)
               /\ flash_inner_loop zs Ks false None
                  = flash_inner_loop zs Ks false (Some m))
  /\ ((length zs < 2)%nat ->
        flash_inner_loop zs Ks true None = Ok (Methods [])).
Proof.
  split.
  - intros Hl. rewrite flash_inner_loop_list_methods_cases.
    unfold flash_inner_loop.
    destruct IS_PYPY;
      destruct (decide (length zs = 2%nat)), (decide (length zs = 3%nat)),
               (decide (length zs < 10)%nat); try lia;
      decide_lengths; simpl;
      first [ exists FLASH_INNER_ANALYTICAL; split; [in_names | reflexivity]
            | exists FLASH_INNER_NUMPY; split; [in_names | reflexivity]
            | exists FLASH_INNER_SECANT; split; [in_names | reflexivity] ].
  - intros Hl. unfold flash_inner_loop.
    rewrite flash_inner_loop_list_methods_cases.
    rewrite bool_decide_eq_true_2 by lia. reflexivity.
Qed.

End MethodDispatch.

Section MethodDispatchExamples.
Local Open Scope R_scope.

Lemma flash_inner_loop_unknown_method_witness :
  flash_inner_loop (H := diverging_numerics) [0.5; 0.5] [2; 0.5] false
    (Some "Bisection")
  = Raise (Exception "Incorrect Method input").
Proof.
  apply (flash_inner_loop_unknown_method (H := diverging_numerics)).
  intros Hin. not_in_names Hin.
Defined.

Lemma flash_inner_loop_analytical_range_witness :
  flash_inner_loop (H := diverging_numerics) [1] [2] false
    (Some FLASH_INNER_ANALYTICAL)
  = Raise (Exception
             "Only solutions of one or two variables are available analytically")
  /\ flash_inner_loop (H := diverging_numerics) [1] [2] false None
     = Raise (Exception
                "Only solutions of one or two variables are available analytically").
Proof.
  destruct (flash_inner_loop_analytical_range (H := diverging_numerics) [1] [2])
    as [Hnamed Hdefault].
  split; [apply Hnamed; simpl; lia | apply Hdefault; simpl; lia].
Defined.

Lemma flash_inner_loop_default_offered_witness :
  (exists m, m ∈ flash_inner_loop_list_methods (H := diverging_numerics) 2
             /\ flash_inner_loop (H := diverging_numerics)
                  [0.5; 0.5] [2; 0.5] false None
                = flash_inner_loop (H := diverging_numerics)
                    [0.5; 0.5] [2; 0.5] false (Some m))
  /\ flash_inner_loop (H := diverging_numerics) [1] [2] true None
     = Ok (Methods []).
Proof.
  split.
  - apply (flash_inner_loop_default_offered (H := diverging_numerics)
             [0.5; 0.5] [2; 0.5]). simpl. lia.
  - apply (flash_inner_loop_default_offered (H := diverging_numerics) [1] [2]).
    simpl. lia.
Defined.

End MethodDispatchExamples.

(** ** Sums over zipped lists *)

Section ZippedSums.
Local Open Scope R_scope.

Lemma Rsum_cons (x : R) (l : list R) : Rsum (x :: l) = x + Rsum l.
Proof. reflexivity. Qed.

Lemma pysum_is_Rsum (l : list R) : pysum l = Rsum l.
Proof.
  induction l as [|x l IH]; [reflexivity|].
  rewrite pysum_cons, IH. reflexivity.
Qed.

Lemma Rsum_zip_with_ext {A B} (f g : A -> B -> R) (la : list A) (lb : list B) :
  (forall a b, f a b = g a b) ->
  Rsum (zip_with f la lb) = Rsum (zip_with g la lb).
Proof.
  intros Hfg. revert lb. induction la as [|a la IH]; intros [|b lb]; cbn [zip_with length];
    try reflexivity.
  rewrite !Rsum_cons, Hfg, IH. reflexivity.
Qed.

Lemma Rsum_zip_with_ext_lookup {A B} (f g : A -> B -> R) (la : list A) (lb : list B) :
  (forall i a b, la !! i = Some a -> lb !! i = Some b -> f a b = g a b) ->
  Rsum (zip_with f la lb) = Rsum (zip_with g la lb).
Proof.
  revert lb. induction la as [|a la IH]; intros [|b lb] Hfg; cbn [zip_with];
    try reflexivity.
  rewrite !Rsum_cons, (Hfg 0%nat a b eq_refl eq_refl), IH; [reflexivity|].
  intros i a' b'. apply (Hfg (S i)).
Qed.

Lemma Rsum_zip_with_scale {A B} (f : A -> B -> R) (c : R) (la : list A) (lb : list B) :
  Rsum (zip_with (fun a b => f a b * c) la lb) = Rsum (zip_with f la lb) * c.
Proof.
  revert lb. induction la as [|a la IH]; intros [|b lb]; cbn [zip_with length];
    try (unfold Rsum; simpl; lra).
  rewrite !Rsum_cons, IH. lra.
Qed.

Lemma Rsum_zip_with_minus (f g : R -> R -> R) (la lb : list R) :
  Rsum (zip_with (fun a b => f a b - g a b) la lb)
  = Rsum (zip_with f la lb) - Rsum (zip_with g la lb).
Proof.
  revert lb. induction la as [|a la IH]; intros [|b lb]; cbn [zip_with length];
    try (unfold Rsum; simpl; lra).
  rewrite !Rsum_cons, IH. lra.
Qed.

Lemma Rsum_zip_with_fst (la lb : list R) :
  length la = length lb ->
  Rsum (zip_with (fun a _ => a) la lb) = Rsum la.
Proof.
  revert lb. induction la as [|a la IH]; intros [|b lb]; cbn [zip_with length];
    try reflexivity; try discriminate.
  intros [= Hlen]. rewrite !Rsum_cons, IH by assumption. reflexivity.
Qed.

(** A zipped comprehension whose every entry evaluates. *)
Lemma zip_comprehension_Ok {A B C} (f : A -> B -> res C) (g : A -> B -> C)
    (la : list A) (lb : list B) :
  (forall i a b, la !! i = Some a -> lb !! i = Some b -> f a b = Ok (g a b)) ->
  zip_comprehension f la lb = Ok (zip_with g la lb).
Proof.
  intros Hf. unfold zip_comprehension. apply mapM_Ok.
  apply Forall2_same_length_lookup_2.
  - rewrite !length_zip_with. reflexivity.
  - intros i [a b] c Hab Hc.
    apply lookup_zip_with_Some in Hab as (a' & b' & [= <- <-] & Ha & Hb).
    simpl. rewrite (Hf i a b Ha Hb). f_equal.
    rewrite lookup_zip_with, Ha in Hc. simpl in Hc. rewrite Hb in Hc.
    simpl in Hc. congruence.
Qed.

End ZippedSums.

(** ** The Rachford-Rice objective at the ends of the unit interval *)

Section ObjectiveEnds.
Local Open Scope R_scope.

Lemma Rachford_Rice_flash_error_at_0 (zs Ks : list R) :
  length zs = length Ks ->
  Rachford_Rice_flash_error 0 zs Ks
  = Ok (Rsum (zip_with (fun z K => z * K) zs Ks) - Rsum zs).
Proof.
  intros Hlen. unfold Rachford_Rice_flash_error.
  rewrite (zip_comprehension_Ok _ (fun Ki zi => zi * Ki - zi)).
  - simpl. f_equal. rewrite pysum_is_Rsum.
    rewrite (Rsum_zip_with_minus (fun Ki zi => zi * Ki) (fun _ zi => zi)).
    f_equal.
    + clear Hlen. revert Ks. induction zs as [|z zs IH]; intros [|K Ks];
        cbn [zip_with length]; try reflexivity.
      rewrite !Rsum_cons, IH. reflexivity.
    + revert Ks Hlen. induction zs as [|z zs IH]; intros [|K Ks];
        cbn [zip_with length]; try reflexivity; try discriminate.
      intros [= Hlen]. rewrite !Rsum_cons, IH by assumption. reflexivity.
  - intros i K z _ _. rewrite pydiv_ok by lra. f_equal. field.
Qed.

Lemma Rachford_Rice_flash_error_at_1 (zs Ks : list R) :
  length zs = length Ks -> Forall (fun K => K <> 0) Ks ->
  Rachford_Rice_flash_error 1 zs Ks
  = Ok (Rsum zs - Rsum (zip_with (fun z K => z / K) zs Ks)).
Proof.
  intros Hlen HKs. unfold Rachford_Rice_flash_error.
  rewrite (zip_comprehension_Ok _ (fun Ki zi => zi - zi / Ki)).
  - simpl. f_equal. rewrite pysum_is_Rsum.
    rewrite (Rsum_zip_with_minus (fun _ zi => zi) (fun Ki zi => zi / Ki)).
    f_equal.
    + revert Ks Hlen HKs. induction zs as [|z zs IH]; intros [|K Ks];
        cbn [zip_with length]; try reflexivity; try discriminate.
      intros [= Hlen] HKs. apply Forall_cons in HKs as [_ HKs].
      rewrite !Rsum_cons, (IH Ks) by assumption. reflexivity.
    + clear Hlen HKs. revert Ks. induction zs as [|z zs IH]; intros [|K Ks];
        cbn [zip_with length]; try reflexivity.
      rewrite !Rsum_cons, IH. reflexivity.
  - intros i K z HK _.
    assert (K <> 0) as HK0.
    { rewrite Forall_forall in HKs. apply HKs.
      apply list_elem_of_lookup. eauto. }
    rewrite pydiv_ok by lra. f_equal. field. lra.
Qed.

(** X9: at [V_over_F = 0] the Rachford-Rice objective is
    [sum(zs[i]*Ks[i]) - sum(zs)], and at [V_over_F = 1] with nonzero K-values
    it is [sum(zs) - sum(zs[i]/Ks[i])]. *)
Theorem Rachford_Rice_flash_error_ends (zs Ks : list R) :
  length zs = length Ks ->
  Rachford_Rice_flash_error 0 zs Ks
  = Ok (Rsum (zip_with (fun z K => z * K) zs Ks) - Rsum zs)
  /\ (Forall (fun K => K <> 0) Ks ->
      Rachford_Rice_flash_error 1 zs Ks
      = Ok (Rsum zs - Rsum (zip_with (fun z K => z / K) zs Ks))).
Proof.
  intros Hlen. split.
  - apply Rachford_Rice_flash_error_at_0, Hlen.
  - intros HKs. apply Rachford_Rice_flash_error_at_1; assumption.
Qed.

Lemma Rachford_Rice_flash_error_ends_witness :
  Rachford_Rice_flash_error 0 [0.5; 0.5] [2; 0.5]
  = Ok (Rsum (zip_with (fun z K => z * K) [0.5; 0.5] [2; 0.5]) - Rsum [0.5; 0.5])
  /\ Rachford_Rice_flash_error 1 [0.5; 0.5] [2; 0.5]
     = Ok (Rsum [0.5; 0.5] - Rsum (zip_with (fun z K => z / K) [0.5; 0.5] [2; 0.5])).
Proof.
  destruct (Rachford_Rice_flash_error_ends [0.5; 0.5] [2; 0.5] eq_refl)
    as [Hzero Hone].
  split; [exact Hzero | apply Hone; repeat constructor; lra].
Defined.

End ObjectiveEnds.

(** ** More modes of the Wilson shortcut flash *)

Section WilsonFlashModes.
Context `{Numerics}.
Local Open Scope R_scope.

(** X10: with fewer than two of [T], [P] and [VF] supplied, [flash_wilson]
    raises [ValueError("Provide two of P, T, and VF")], whatever the feed. *)
Theorem flash_wilson_underspecified (zs Tcs Pcs omegas : list R) (T P VF : pyfloat) :
  (T = None /\ P = None) \/ (T = None /\ VF = None) \/ (P = None /\ VF = None) ->
  flash_wilson zs Tcs Pcs omegas T P VF
  = Raise (ValueErrorMsg "Provide two of P, T, and VF").
Proof.
  intros [[-> ->] | [[-> ->] | [-> ->]]];
    unfold flash_wilson; cbn [flash_wilson_depth]; unfold flash_wilson_body at 1.
  - reflexivity.
  - destruct P; reflexivity.
  - destruct T; reflexivity.
Qed.

(** The accumulation of [P_dew] computes the closed form. *)
Lemma P_dew_loop_closed_form (zs Tcs Pcs omegas : list R) (T : R) :
  T <> 0 ->
  length Tcs = length zs -> length Pcs = length zs -> length omegas = length zs ->
  Forall (fun Pc => Pc <> 0) Pcs ->
  P_dew_loop zs Tcs Pcs omegas T
  = pydiv 1 (P_dew_inverse zs Tcs Pcs omegas T).
Proof.
  intros HT HTcs HPcs Hws HPc0. unfold P_dew_loop, P_dew_inverse.
  set (term := fun (z : R) '(Pc, w, Tc) =>
                 z / (Pc * exp (5.37 * (1 + w) * (1 - Tc / T)))).
  set (terms := zip_with term zs (zip (zip Pcs omegas) Tcs)).
  assert (length terms = length zs) as Hlen.
  { unfold terms. rewrite !length_zip_with. lia. }
  destruct (for_range_invariant (fun k acc => acc = pysum (take k terms)) (length zs)
              (fun i P_dew =>
                 z ← getitem zs i;
                 Pc ← getitem Pcs i;
                 w ← getitem omegas i;
                 Tc ← getitem Tcs i;
                 q ← pydiv Tc T;
                 t ← pydiv z (Pc * exp (5.37 * (1.0 + w) * (1.0 - q)));
                 Ok (P_dew + t))
              0) as (acc & Hloop & Hacc).
  - reflexivity.
  - intros k acc Hk ->.
    destruct (lookup_lt_is_Some_2 zs k) as [z Hz]; [lia|].
    destruct (lookup_lt_is_Some_2 Pcs k) as [Pc HPc]; [lia|].
    destruct (lookup_lt_is_Some_2 omegas k) as [w Hw]; [lia|].
    destruct (lookup_lt_is_Some_2 Tcs k) as [Tc HTc]; [lia|].
    assert (Pc <> 0) as HPc1.
    { rewrite Forall_forall in HPc0. apply HPc0, list_elem_of_lookup. eauto. }
    unfold getitem. rewrite Hz, HPc, Hw, HTc. simpl.
    rewrite pydiv_ok by assumption. simpl.
    rewrite pydiv_ok.
    2:{ apply Rmult_integral_contrapositive_currified; [assumption|].
        pose proof (exp_pos (5.37 * (1.0 + w) * (1.0 - Tc / T))). lra. }
    simpl. eexists. split; [reflexivity|].
    rewrite (pysum_take_S terms k (term z (Pc, w, Tc))).
    + unfold term. assert (1.0 = 1) as -> by lra. reflexivity.
    + unfold terms. rewrite lookup_zip_with, Hz. simpl.
      rewrite !lookup_zip_with, HPc. simpl. rewrite Hw. simpl. rewrite HTc. reflexivity.
  - rewrite Hloop, Hacc. simpl. rewrite <- Hlen, firstn_all.
    rewrite pysum_is_Rsum. reflexivity.
Qed.

(** X11: [flash_wilson] with [T] supplied, [P] left out and [VF = 1] is the
    [T]-and-[P] solve at the dew pressure
    [1/sum(zs[i]/(Pcs[i]*exp(5.37*(1+omegas[i])*(1-Tcs[i]/T))))], and every
    result carries that pressure; when the sum is zero it raises
    [ZeroDivisionError]. *)
Theorem flash_wilson_dew (zs Tcs Pcs omegas : list R) (T : R) :
  T <> 0 ->
  length Tcs = length zs -> length Pcs = length zs -> length omegas = length zs ->
  Forall (fun Pc => Pc <> 0) Pcs ->
  (P_dew_inverse zs Tcs Pcs omegas T <> 0 ->
     let P_dew := P_dew_closed_form zs Tcs Pcs omegas T in
     flash_wilson zs Tcs Pcs omegas (Some T) None (Some 1)
     = flash_wilson_TP zs Tcs Pcs omegas T P_dew
     /\ forall r, flash_wilson zs Tcs Pcs omegas (Some T) None (Some 1) = Ok r ->
          exists VF xs ys, r = FlashTuple T P_dew VF xs ys)
  /\ (P_dew_inverse zs Tcs Pcs omegas T = 0 ->
      flash_wilson zs Tcs Pcs omegas (Some T) None (Some 1)
      = Raise ZeroDivisionError).
Proof.
  intros HT HTcs HPcs Hws HPc0.
  assert (flash_wilson zs Tcs Pcs omegas (Some T) None (Some 1)
          = P_dew ← pydiv 1 (P_dew_inverse zs Tcs Pcs omegas T);
            flash_wilson_TP zs Tcs Pcs omegas T P_dew) as Hmode.
  { unfold flash_wilson. cbn [flash_wilson_depth]. unfold flash_wilson_body at 1.
    cbn [is_None negb andb].
    rewrite bool_decide_eq_false_2 by (intros [= Hone]; lra).
    rewrite bool_decide_eq_true_2 by reflexivity.
    cbn [default]. rewrite P_dew_loop_closed_form by assumption. reflexivity. }
  split.
  - intros Hsum P_dew. rewrite Hmode, pydiv_ok by assumption. simpl.
    split; [reflexivity|]. intros r. apply flash_wilson_TP_result.
  - intros Hsum. rewrite Hmode, Hsum, pydiv_zero. reflexivity.
Qed.

(** The K-values of the [T]-and-[P] mode, in closed form. *)
Lemma Wilson_Ks_closed_form (zs Tcs Pcs omegas : list R) (T P : R) :
  T <> 0 -> P <> 0 ->
  length Tcs = length zs -> length Pcs = length zs -> length omegas = length zs ->
  Wilson_Ks (length zs) Tcs Pcs omegas T P
  = Ok (map (fun '(Pc, w, Tc) => Pc / P * exp (5.37 * (1 + w) * (1 - Tc / T)))
            (zip (zip Pcs omegas) Tcs)).
Proof.
  intros HT HP HTcs HPcs Hws. unfold Wilson_Ks. apply comprehension_Ok.
  - rewrite length_map, !length_zip_with. lia.
  - intros i K HK. rewrite list_lookup_fmap in HK.
    destruct (zip (zip Pcs omegas) Tcs !! i) as [[[Pc w] Tc]|] eqn:Hi;
      simpl in HK; [|discriminate].
    injection HK as <-.
    apply lookup_zip_with_Some in Hi as (pw & Tc' & [= <- <-] & Hpw & HTc).
    apply lookup_zip_with_Some in Hpw as (Pc' & w' & [= <- <-] & HPc & Hw).
    unfold getitem. rewrite HTc, HPc, Hw. simpl. unfold Wilson_K_value.
    rewrite !pydiv_ok by assumption. simpl.
    assert (1.0 = 1) as -> by lra. reflexivity.
Qed.

(** X12: the pressures of the bubble and dew modes are consistent with the
    K-values of the [T]-and-[P] mode.  For a feed whose fractions sum to 1, at
    the bubble pressure the Rachford-Rice objective of these K-values
    vanishes at [V_over_F = 0], and at the dew pressure it vanishes at
    [V_over_F = 1]. *)
Theorem Wilson_saturation_consistent (zs Tcs Pcs omegas : list R) (T : R) :
  T <> 0 ->
  length Tcs = length zs -> length Pcs = length zs -> length omegas = length zs ->
  Rsum zs = 1 ->
  (P_bubble_closed_form zs Tcs Pcs omegas T <> 0 ->
     exists Ks,
       Wilson_Ks (length zs) Tcs Pcs omegas T
         (P_bubble_closed_form zs Tcs Pcs omegas T) = Ok Ks
       /\ Rachford_Rice_flash_error 0 zs Ks = Ok 0)
  /\ (Forall (fun Pc => Pc <> 0) Pcs ->
      P_dew_inverse zs Tcs Pcs omegas T <> 0 ->
      exists Ks,
        Wilson_Ks (length zs) Tcs Pcs omegas T
          (P_dew_closed_form zs Tcs Pcs omegas T) = Ok Ks
        /\ Rachford_Rice_flash_error 1 zs Ks = Ok 0).
Proof.
  intros HT HTcs HPcs Hws Hzs.
  set (data := zip (zip Pcs omegas) Tcs).
  assert (length data = length zs) as Hdata.
  { unfold data. rewrite !length_zip_with. lia. }
  split.
  - intros HPb. set (Pb := P_bubble_closed_form zs Tcs Pcs omegas T) in *.
    eexists. split; [apply Wilson_Ks_closed_form; assumption|].
    fold data.
    rewrite Rachford_Rice_flash_error_at_0 by (rewrite length_map; lia).
    f_equal. rewrite Hzs, zip_with_fmap_r.
    rewrite (Rsum_zip_with_ext _
               (fun z d => (let '(Pc, w, Tc) := d in
                            z * Pc * exp (5.37 * (1 + w) * (1 - Tc / T))) * / Pb)).
    2:{ intros z [[Pc w] Tc]. field. assumption. }
    rewrite (Rsum_zip_with_scale
               (fun z d => let '(Pc, w, Tc) := d in
                           z * Pc * exp (5.37 * (1 + w) * (1 - Tc / T)))).
    change (Pb * / Pb - 1 = 0). field. assumption.
  - intros HPc0 Hinv.
    set (Pd := P_dew_closed_form zs Tcs Pcs omegas T).
    assert (Pd <> 0) as HPd.
    { unfold Pd, P_dew_closed_form. intros Hq.
      apply Rmult_integral in Hq as [Hq|Hq]; [lra|].
      apply Rinv_neq_0_compat in Hinv. contradiction. }
    assert (forall i Pc w Tc, data !! i = Some (Pc, w, Tc) -> Pc <> 0)
      as data_Pc_nonzero.
    { intros i Pc w Tc Hi. rewrite Forall_forall in HPc0. apply HPc0.
      apply lookup_zip_with_Some in Hi as (pw & Tc' & [= <- <-] & Hpw & _).
      apply lookup_zip_with_Some in Hpw as (Pc' & w' & [= <- <-] & HPc & _).
      apply list_elem_of_lookup. eauto. }
    eexists. split; [apply Wilson_Ks_closed_form; assumption|].
    fold data.
    rewrite Rachford_Rice_flash_error_at_1; [| rewrite length_map; lia |].
    + f_equal. rewrite Hzs, zip_with_fmap_r.
      rewrite (Rsum_zip_with_ext_lookup _
                 (fun z d => (let '(Pc, w, Tc) := d in
                              z / (Pc * exp (5.37 * (1 + w) * (1 - Tc / T)))) * Pd)).
      2:{ intros i z [[Pc w] Tc] _ Hi.
          pose proof (exp_pos (5.37 * (1 + w) * (1 - Tc / T))) as Hexp.
          field. repeat split; try assumption; try lra.
          exact (data_Pc_nonzero i Pc w Tc Hi). }
      rewrite (Rsum_zip_with_scale
                 (fun z d => let '(Pc, w, Tc) := d in
                             z / (Pc * exp (5.37 * (1 + w) * (1 - Tc / T))))).
      change (1 - P_dew_inverse zs Tcs Pcs omegas T * Pd = 0).
      unfold Pd, P_dew_closed_form. field. assumption.
    + apply Forall_fmap, Forall_forall. intros [[Pc w] Tc] Hin. simpl.
      apply list_elem_of_lookup in Hin as [i Hi].
      pose proof (data_Pc_nonzero i Pc w Tc Hi) as HPc1.
      pose proof (exp_pos (5.37 * (1 + w) * (1 - Tc / T))) as Hexp.
      apply Rmult_integral_contrapositive_currified; [|lra].
      unfold Rdiv. apply Rmult_integral_contrapositive_currified; [assumption|].
      apply Rinv_neq_0_compat. assumption.
Qed.

End WilsonFlashModes.

Section WilsonFlashModesExamples.
Local Open Scope R_scope.

Lemma flash_wilson_underspecified_witness :
  flash_wilson (H := diverging_numerics) [0.4; 0.6] [305.322; 540.13]
    [4872200; 2736000] [0.099; 0.349] (Some 300) None None
  = Raise (ValueErrorMsg "Provide two of P, T, and VF").
Proof.
  apply (flash_wilson_underspecified (H := diverging_numerics)).
  right. right. split; reflexivity.
Defined.

Lemma P_dew_inverse_at_Tc :
  P_dew_inverse [1/2; 1/2] [300; 300] [2; 1/2] [0; 0] 300 = 5/4.
Proof.
  unfold P_dew_inverse, Rsum. simpl.
  replace (5.37 * (1 + 0) * (1 - 300 / 300)) with 0 by lra.
  rewrite exp_0. lra.
Qed.

Lemma flash_wilson_dew_witness :
  flash_wilson (H := diverging_numerics) [1/2; 1/2] [300; 300] [2; 1/2] [0; 0]
    (Some 300) None (Some 1)
  = flash_wilson_TP (H := diverging_numerics) [1/2; 1/2] [300; 300] [2; 1/2] [0; 0]
      300 (P_dew_closed_form [1/2; 1/2] [300; 300] [2; 1/2] [0; 0] 300).
Proof.
  destruct (flash_wilson_dew (H := diverging_numerics)
              [1/2; 1/2] [300; 300] [2; 1/2] [0; 0] 300
              ltac:(lra) eq_refl eq_refl eq_refl
              ltac:(repeat constructor; lra)) as [Hdew _].
  apply Hdew. rewrite P_dew_inverse_at_Tc. lra.
Defined.

Lemma Wilson_saturation_consistent_witness :
  (exists Ks,
     Wilson_Ks 2 [300; 300] [2; 1/2] [0; 0] 300
       (P_bubble_closed_form [1/2; 1/2] [300; 300] [2; 1/2] [0; 0] 300) = Ok Ks
     /\ Rachford_Rice_flash_error 0 [1/2; 1/2] Ks = Ok 0)
  /\ (exists Ks,
        Wilson_Ks 2 [300; 300] [2; 1/2] [0; 0] 300
          (P_dew_closed_form [1/2; 1/2] [300; 300] [2; 1/2] [0; 0] 300) = Ok Ks
        /\ Rachford_Rice_flash_error 1 [1/2; 1/2] Ks = Ok 0).
Proof.
  destruct (Wilson_saturation_consistent
              [1/2; 1/2] [300; 300] [2; 1/2] [0; 0] 300
              ltac:(lra) eq_refl eq_refl eq_refl
              ltac:(unfold Rsum; simpl; lra)) as [Hbubble Hdew].
  split.
  - apply Hbubble. rewrite P_bubble_closed_form_at_Tc. lra.
  - apply Hdew; [repeat constructor; lra|].
    rewrite P_dew_inverse_at_Tc. lra.
Defined.

End WilsonFlashModesExamples.

(** ** More of [K_value] and [identify_phase] *)

Section MoreSelection.
Local Open Scope R_scope.

(** X13: [K_value] translates only [TypeError].  A zero divisor with float
    operands raises [ZeroDivisionError], not the descriptive [Exception]:
    a zero pressure in the two formulas that divide by [P] alone, and a zero
    [phi_g] in the ratio [phi_l/phi_g]. *)
Theorem K_value_zero_division (psat py : R) (P Psat phi_l phi_g gamma : pyfloat) :
  (truthy phi_l = false -> P = Some 0 -> Psat = Some psat ->
     K_value P Psat phi_l phi_g gamma (Some py) = Raise ZeroDivisionError)
  /\ (truthy gamma = false -> truthy phi_l = true -> phi_g = Some 0 ->
      K_value P Psat phi_l phi_g gamma (Some py) = Raise ZeroDivisionError).
Proof.
  split.
  - intros Hl -> ->. unfold K_value. rewrite Hl.
    destruct (truthy gamma) eqn:Hg.
    + apply truthy_true_inv in Hg as (g & -> & _). py_unfold.
      rewrite pydiv_zero. reflexivity.
    + py_unfold. rewrite pydiv_zero. reflexivity.
  - intros Hg Hl ->. unfold K_value. rewrite Hg, Hl.
    apply truthy_true_inv in Hl as (pl & -> & _). py_unfold.
    rewrite pydiv_zero. reflexivity.
Qed.

Lemma K_value_zero_division_witness :
  K_value (Some 0) (Some 1938800) None None None (Some 1) = Raise ZeroDivisionError
  /\ K_value (Some 1e6) (Some 1938800) (Some 1.4356) (Some 0) None (Some 1)
     = Raise ZeroDivisionError.
Proof.
  split.
  - apply (proj1 (K_value_zero_division 1938800 1 (Some 0) (Some 1938800)
                    None None None)); reflexivity.
  - apply (proj2 (K_value_zero_division 1938800 1 (Some 1e6) (Some 1938800)
                    (Some 1.4356) (Some 0) None));
      [reflexivity | apply truthy_Some; lra | reflexivity].
Defined.

(** X14: [identify_phase] answers ['s'] exactly when the melting rule fires:
    without a nonzero melting point at or above [T] the solid phase is never
    reported. *)
Theorem identify_phase_solid_iff (T P : R) (Tm Tb Tc Psat : pyfloat) :
  identify_phase T P Tm Tb Tc Psat = Some "s" <-> fires Tm (fun tm => T <= tm).
Proof.
  split.
  - intros Hs. apply (fires_guard Tm (fun tm => T <= tm)).
    unfold identify_phase in Hs.
    destruct (truthy Tm && bool_decide (T <= default 0 Tm)); [reflexivity|].
    exfalso.
    repeat match type of Hs with
           | (if ?c then _ else _) = _ => destruct c
           end; discriminate.
  - intros Hm. unfold identify_phase.
    apply (fires_guard Tm (fun tm => T <= tm)) in Hm. rewrite Hm. reflexivity.
Qed.

(** X15: the boiling-point rules.  They are consulted only when the melting
    and critical rules do not fire and [Psat] is absent or zero.  Between
    90 kPa and 110 kPa the answer is ['l'] below [Tb] and ['g'] from [Tb] on;
    above 110 kPa it is ['l'] up to and including [Tb] and [None] beyond; at
    or below 90 kPa, and at exactly 110 kPa, it is [None].  Without a nonzero
    [Tb] the answer is [None]. *)
Theorem identify_phase_boiling_rules (T P : R) (Tm Tb Tc Psat : pyfloat) :
  ~ fires Tm (fun tm => T <= tm) -> ~ fires Tc (fun tc => T >= tc) ->
  truthy Psat = false ->
  (forall tb, Tb = Some tb -> tb <> 0 ->
     (90000 < P < 110000 -> T < tb ->
        identify_phase T P Tm Tb Tc Psat = Some "l")
     /\ (90000 < P < 110000 -> tb <= T ->
         identify_phase T P Tm Tb Tc Psat = Some "g")
     /\ (110000 < P -> T <= tb ->
         identify_phase T P Tm Tb Tc Psat = Some "l")
     /\ (110000 < P -> tb < T ->
         identify_phase T P Tm Tb Tc Psat = None)
     /\ (P <= 90000 \/ P = 110000 ->
         identify_phase T P Tm Tb Tc Psat = None))
  /\ (truthy Tb = false -> identify_phase T P Tm Tb Tc Psat = None).
Proof.
  intros Hm Hc Hp.
  assert (forall rest, (if truthy Tm && bool_decide (T <= default 0 Tm)
                        then Some "s"
                        else if truthy Tc && bool_decide (T >= default 0 Tc)
                             then Some "g"
                             else if truthy Psat then rest
                                  else if truthy Tb then
                                    if bool_decide (90000 < P) && bool_decide (P < 110000)
                                    then if bool_decide (T < default 0 Tb)
                                         then Some "l" else Some "g"
                                    else if bool_decide (P > 110000)
                                            && bool_decide (T <= default 0 Tb)
                                         then Some "l" else None
                                  else None)
                       = if truthy Tb then
                           if bool_decide (90000 < P) && bool_decide (P < 110000)
                           then if bool_decide (T < default 0 Tb)
                                then Some "l" else Some "g"
                           else if bool_decide (P > 110000)
                                   && bool_decide (T <= default 0 Tb)
                                then Some "l" else None
                         else None) as Hskip.
  { intros rest.
    rewrite (not_fires_guard Tm (fun tm => T <= tm)) by assumption.
    rewrite (not_fires_guard Tc (fun tc => T >= tc)) by assumption.
    rewrite Hp. reflexivity. }
  unfold identify_phase. rewrite Hskip. clear Hskip. split.
  - intros tb -> Htb. rewrite (truthy_Some tb) by assumption. cbn [default].
    split; [|split; [|split; [|split]]].
    + intros [Hlo Hhi] Hlt.
      rewrite (bool_decide_eq_true_2 (90000 < P)) by assumption.
      rewrite (bool_decide_eq_true_2 (P < 110000)) by assumption.
      rewrite (bool_decide_eq_true_2 (T < tb)) by assumption. reflexivity.
    + intros [Hlo Hhi] Hge.
      rewrite (bool_decide_eq_true_2 (90000 < P)) by assumption.
      rewrite (bool_decide_eq_true_2 (P < 110000)) by assumption.
      rewrite (bool_decide_eq_false_2 (T < tb)) by lra. reflexivity.
    + intros Hhi Hle.
      rewrite (bool_decide_eq_false_2 (P < 110000)) by lra.
      rewrite andb_false_r.
      rewrite (bool_decide_eq_true_2 (P > 110000)) by lra.
      rewrite (bool_decide_eq_true_2 (T <= tb)) by assumption. reflexivity.
    + intros Hhi Hgt.
      rewrite (bool_decide_eq_false_2 (P < 110000)) by lra.
      rewrite andb_false_r.
      rewrite (bool_decide_eq_false_2 (T <= tb)) by lra.
      rewrite andb_false_r. reflexivity.
    + intros [Hlow | ->].
      * rewrite (bool_decide_eq_false_2 (90000 < P)) by lra.
        rewrite (bool_decide_eq_false_2 (P > 110000)) by lra. reflexivity.
      * rewrite (bool_decide_eq_false_2 (110000 < 110000)) by lra.
        rewrite (bool_decide_eq_false_2 (110000 > 110000)) by lra.
        rewrite andb_false_r. reflexivity.
  - intros ->. reflexivity.
Qed.

Lemma identify_phase_boiling_rules_witness :
  identify_phase 300 110000 None (Some 350) None None = None
  /\ identify_phase 350 101325 None (Some 350) None None = Some "g"
  /\ identify_phase 350 200000 None (Some 350) None None = Some "l".
Proof.
  assert (forall T P,
            (90000 < P < 110000 -> 350 <= T ->
             identify_phase T P None (Some 350) None None = Some "g")
            /\ (110000 < P -> T <= 350 ->
                identify_phase T P None (Some 350) None None = Some "l")
            /\ (P <= 90000 \/ P = 110000 ->
                identify_phase T P None (Some 350) None None = None)) as Hrules.
  { intros T P.
    destruct (identify_phase_boiling_rules T P None (Some 350) None None) as [Hb _].
    - intros (x & Hx & _). discriminate.
    - intros (x & Hx & _). discriminate.
    - reflexivity.
    - destruct (Hb 350 eq_refl ltac:(lra)) as (_ & Hg & Hl & _ & Hn). auto. }
  split; [|split].
  - apply (Hrules 300 110000). right. reflexivity.
  - apply (Hrules 350 101325); lra.
  - apply (Hrules 350 200000); lra.
Defined.

End MoreSelection.

(** ** Dew and bubble pressures of Raoult's law *)

Section RaoultSaturation.
Local Open Scope R_scope.

Lemma bubble_at_T_Raoult (zs Psats : list R) :
  length zs = length Psats ->
  bubble_at_T (Some <$> zs) (Some <$> Psats) None None
  = Ok (RetFloat (Rsum (zip_with Rmult zs Psats))).
Proof.
  intros Hlen. unfold bubble_at_T. cbn [is_None andb].
  rewrite (comprehension_Ok _ _ (zip_with Rmult zs Psats)).
  - simpl. rewrite pysum_is_Rsum. reflexivity.
  - rewrite length_fmap, length_zip_with. lia.
  - intros i x Hx. apply lookup_zip_with_Some in Hx as (z & p & -> & Hz & Hp).
    unfold getitem. rewrite !list_lookup_fmap, Hz, Hp. reflexivity.
Qed.

Lemma dew_at_T_Raoult (zs Psats : list R) :
  length zs = length Psats -> Forall (fun p => p <> 0) Psats ->
  Rsum (zip_with Rdiv zs Psats) <> 0 ->
  dew_at_T (Some <$> zs) (Some <$> Psats) None None
  = Ok (RetFloat (1 / Rsum (zip_with Rdiv zs Psats))).
Proof.
  intros Hlen Hps Hsum. unfold dew_at_T. cbn [is_None andb].
  rewrite (comprehension_Ok _ _ (zip_with Rdiv zs Psats)).
  - simpl. rewrite pysum_is_Rsum, pydiv_ok by assumption. reflexivity.
  - rewrite length_fmap, length_zip_with. lia.
  - intros i x Hx. apply lookup_zip_with_Some in Hx as (z & p & -> & Hz & Hp).
    unfold getitem. rewrite !list_lookup_fmap, Hz, Hp. simpl. py_unfold.
    apply pydiv_ok. exact (proj1 (Forall_lookup _ _) Hps i p Hp).
Qed.

(** Cauchy-Schwarz for the weighted sums of [P] and [1/P]. *)
Lemma weighted_sums_bound (zs Psats : list R) :
  length zs = length Psats ->
  Forall (fun z => 0 <= z) zs -> Forall (fun p => 0 < p) Psats ->
  0 <= Rsum zs
  /\ 0 <= Rsum (zip_with Rmult zs Psats)
  /\ 0 <= Rsum (zip_with Rdiv zs Psats)
  /\ Rsum zs * Rsum zs
     <= Rsum (zip_with Rmult zs Psats) * Rsum (zip_with Rdiv zs Psats).
Proof.
  revert Psats. induction zs as [|z zs IH]; intros [|p Psats]; try discriminate.
  - intros _ _ _. unfold Rsum. simpl. lra.
  - intros [= Hlen] Hzs Hps.
    apply Forall_cons in Hzs as [Hz Hzs]. apply Forall_cons in Hps as [Hp Hps].
    destruct (IH Psats Hlen Hzs Hps) as (HS & HA & HB & HCS).
    cbn [zip_with]. rewrite !Rsum_cons.
    set (S := Rsum zs) in *. set (A := Rsum (zip_with Rmult zs Psats)) in *.
    set (B := Rsum (zip_with Rdiv zs Psats)) in *.
    assert (0 < / p) as Hip by (apply Rinv_0_lt_compat; assumption).
    assert (2 * S <= A * / p + p * B) as Hmid.
    { assert (A * / p * (p * B) = A * B) as Hab by (field; lra).
      assert (0 <= A * / p) as Ha by (apply Rmult_le_pos; lra).
      assert (0 <= p * B) as Hb by (apply Rmult_le_pos; lra).
      set (a := A * / p) in *. set (b := p * B) in *.
      destruct (Rle_or_lt (2 * S) (a + b)) as [Hle|Hlt]; [assumption|].
      exfalso.
      assert ((a + b) * (a + b) < 2 * S * (2 * S)) as Hsq
        by (apply Rmult_le_0_lt_compat; lra).
      assert (0 <= (a - b) * (a - b)) as Hdiff by apply Rle_0_sqr.
      assert ((a + b) * (a + b) = (a - b) * (a - b) + 4 * (a * b)) as Hid by ring.
      lra. }
    repeat split.
    + lra.
    + assert (0 <= z * p) by (apply Rmult_le_pos; lra). lra.
    + assert (0 <= z / p) by (unfold Rdiv; apply Rmult_le_pos; lra). lra.
    + unfold Rdiv.
      replace ((z * p + A) * (z * / p + B))
        with (z * z + z * (A * / p + p * B) + A * B) by (field; lra).
      assert (z * (2 * S) <= z * (A * / p + p * B))
        by (apply Rmult_le_compat_l; assumption).
      nra.
Qed.

(** X16: for a composition and positive vapour pressures, Raoult's dew
    pressure [dew_at_T(zs, Psats)] is positive and never exceeds the bubble
    pressure [bubble_at_T(zs, Psats)]. *)
Theorem dew_at_T_le_bubble_at_T (zs Psats : list R) :
  length zs = length Psats ->
  composition zs -> Forall (fun p => 0 < p) Psats ->
  exists P_dew P_bubble,
    dew_at_T (Some <$> zs) (Some <$> Psats) None None = Ok (RetFloat P_dew)
    /\ bubble_at_T (Some <$> zs) (Some <$> Psats) None None = Ok (RetFloat P_bubble)
    /\ 0 < P_dew <= P_bubble.
Proof.
  intros Hlen [Hzs Hsum] Hps.
  destruct (weighted_sums_bound zs Psats Hlen Hzs Hps) as (_ & HA & HB & HCS).
  rewrite Hsum in HCS.
  set (A := Rsum (zip_with Rmult zs Psats)) in *.
  set (B := Rsum (zip_with Rdiv zs Psats)) in *.
  assert (0 < B) as HBpos by nra.
  exists (1 / B), A. split; [|split].
  - apply dew_at_T_Raoult; [assumption | | fold B; lra].
    eapply Forall_impl; [exact Hps|]. simpl. intros p Hp. lra.
  - apply bubble_at_T_Raoult. assumption.
  - split.
    + apply Rdiv_lt_0_compat; lra.
    + apply (Rmult_le_reg_r B); [assumption|].
      replace (1 / B * B) with 1 by (field; lra). lra.
Qed.

Lemma dew_at_T_le_bubble_at_T_witness :
  exists P_dew P_bubble,
    dew_at_T [Some 0.5; Some 0.5] [Some 1400; Some 7000] None None
    = Ok (RetFloat P_dew)
    /\ bubble_at_T [Some 0.5; Some 0.5] [Some 1400; Some 7000] None None
       = Ok (RetFloat P_bubble)
    /\ 0 < P_dew <= P_bubble.
Proof.
  apply (dew_at_T_le_bubble_at_T [0.5; 0.5] [1400; 7000] eq_refl).
  - split; [repeat constructor; lra | unfold Rsum; simpl; lra].
  - repeat constructor; lra.
Defined.

(** X17: the feasibility test of [flash] is the test that [P] lies between
    the dew and the bubble pressure.  For a composition, positive vapour
    pressures and a positive [P], [valid_range] applied to the K-values
    [flash] computes answers whether
    [dew_at_T(zs, Psats) <= P <= bubble_at_T(zs, Psats)]. *)
Theorem flash_valid_range_between (P : R) (zs Psats : list R) :
  length zs = length Psats -> 0 < P ->
  composition zs -> Forall (fun p => 0 < p) Psats ->
  exists Ks P_dew P_bubble,
    comprehension (length zs) (fun i =>
        Psat ← getitem (Some <$> Psats) i;
        K_value (Some P) Psat None None None K_value_Poynting_default) = Ok Ks
    /\ dew_at_T (Some <$> zs) (Some <$> Psats) None None = Ok (RetFloat P_dew)
    /\ bubble_at_T (Some <$> zs) (Some <$> Psats) None None = Ok (RetFloat P_bubble)
    /\ valid_range (Some <$> zs) Ks = Ok (bool_decide (P_dew <= P <= P_bubble)).
Proof.
  intros Hlen HP [Hzs Hsum] Hps.
  destruct (weighted_sums_bound zs Psats Hlen Hzs Hps) as (_ & HA & HB & HCS).
  rewrite Hsum in HCS.
  set (A := Rsum (zip_with Rmult zs Psats)) in *.
  set (B := Rsum (zip_with Rdiv zs Psats)) in *.
  assert (0 < B) as HBpos by nra.
  assert (Forall (fun p => p <> 0) Psats) as Hps0.
  { eapply Forall_impl; [exact Hps|]. simpl. intros p Hp. lra. }
  exists (map (fun psat => psat / P) Psats), (1 / B), A.
  split; [|split; [|split]].
  - apply flash_Ks; [assumption | lra].
  - apply dew_at_T_Raoult; [assumption | assumption | fold B; lra].
  - apply bubble_at_T_Raoult. assumption.
  - rewrite valid_range_floats.
    2:{ rewrite length_map. assumption. }
    2:{ apply Forall_fmap. eapply Forall_impl; [exact Hps|]. simpl.
        intros p Hp. apply Rgt_not_eq. apply Rdiv_lt_0_compat; assumption. }
    rewrite !pysum_is_Rsum, !zip_with_fmap_r.
    rewrite (Rsum_zip_with_ext (fun z p => z * (p / P))
               (fun z p => z * p * / P)) by (intros; field; lra).
    rewrite (Rsum_zip_with_scale Rmult (/ P)).
    rewrite (Rsum_zip_with_ext_lookup (fun z p => z / (p / P))
               (fun z p => z / p * P)).
    2:{ intros i z p _ Hp.
        pose proof (proj1 (Forall_lookup _ _) Hps0 i p Hp) as Hp0.
        field. split; lra. }
    rewrite (Rsum_zip_with_scale Rdiv P).
    fold A. fold B. f_equal.
    assert (A * / P < 1 <-> A < P) as HAP.
    { split; intros Hlt.
      - apply (Rmult_lt_compat_r P) in Hlt; [|assumption].
        replace (A * / P * P) with A in Hlt by (field; lra). lra.
      - apply (Rmult_lt_reg_r P); [assumption|].
        replace (A * / P * P) with A by (field; lra). lra. }
    assert (B * P < 1 <-> P < 1 / B) as HBP.
    { split; intros Hlt.
      - apply (Rmult_lt_reg_r B); [assumption|].
        replace (1 / B * B) with 1 by (field; lra). lra.
      - apply (Rmult_lt_compat_r B) in Hlt; [|assumption].
        replace (1 / B * B) with 1 in Hlt by (field; lra). lra. }
    destruct (decide (1 / B <= P <= A)) as [[Hd Hb]|Hout].
    + rewrite (bool_decide_eq_true_2 (1 / B <= P <= A)) by (split; assumption).
      rewrite !bool_decide_eq_false_2; [reflexivity | |].
      * intros Hlt. apply HBP in Hlt. lra.
      * intros Hlt. apply HAP in Hlt. lra.
    + rewrite (bool_decide_eq_false_2 (1 / B <= P <= A)) by assumption.
      destruct (Rlt_or_le A P) as [HAlt|HAle].
      * rewrite (bool_decide_eq_true_2 (A * / P < 1)) by (apply HAP; assumption).
        reflexivity.
      * assert (P < 1 / B) as Hlow by (apply Rnot_le_lt; intros Hle; apply Hout; lra).
        rewrite (bool_decide_eq_true_2 (B * P < 1)) by (apply HBP; assumption).
        apply andb_false_r.
Qed.

Lemma flash_valid_range_between_witness :
  exists Ks P_dew P_bubble,
    comprehension 2 (fun i =>
        Psat ← getitem [Some 1400; Some 7000] i;
        K_value (Some 3000) Psat None None None K_value_Poynting_default) = Ok Ks
    /\ dew_at_T [Some 0.5; Some 0.5] [Some 1400; Some 7000] None None
       = Ok (RetFloat P_dew)
    /\ bubble_at_T [Some 0.5; Some 0.5] [Some 1400; Some 7000] None None
       = Ok (RetFloat P_bubble)
    /\ valid_range [Some 0.5; Some 0.5] Ks
       = Ok (bool_decide (P_dew <= 3000 <= P_bubble)).
Proof.
  apply (flash_valid_range_between 3000 [0.5; 0.5] [1400; 7000] eq_refl).
  - lra.
  - split; [repeat constructor; lra | unfold Rsum; simpl; lra].
  - repeat constructor; lra.
Defined.

End RaoultSaturation.

(** ** The cache of weighted sums *)

Section WeightedSumCache.
Local Open Scope R_scope.

Lemma append_other (h : heap) (c l : loc) (x : R) :
  l <> c -> append h c x !! l = h !! l.
Proof.
  intros Hne. unfold append.
  destruct (h !! c) as [[items| | |]|]; try reflexivity.
  apply lookup_insert_ne. congruence.
Qed.

Lemma append_list (h : heap) (c : loc) (x : R) (items : list R) :
  h !! c = Some (OList items) -> append h c x !! c = Some (OList (items ++ [x])).
Proof. intros Hc. unfold append. rewrite Hc. apply lookup_insert_eq. Qed.

(** The loop of [xj_Gs_jis] only appends to the list at [c]: one entry per
    round done, fewer than the rounds asked for when it raises. *)
Lemma xj_Gs_jis_loop_appends (c : loc) (xs : value) (gs : list (list R))
    (cmps rest : list nat) (h : heap) (items : list R) :
  h !! c = Some (OList items) ->
  exists items',
    (xj_Gs_jis_loop h c xs gs cmps rest).1 !! c = Some (OList (items ++ items'))
    /\ (forall l, l <> c -> (xj_Gs_jis_loop h c xs gs cmps rest).1 !! l = h !! l)
    /\ ((xj_Gs_jis_loop h c xs gs cmps rest).2 = Ok tt ->
        length items' = length rest)
    /\ (forall e, (xj_Gs_jis_loop h c xs gs cmps rest).2 = Raise e ->
                  (length items' < length rest)%nat).
Proof.
  revert h items. induction rest as [|i rest IH]; intros h items Hc; simpl.
  - exists []. rewrite app_nil_r. repeat split; auto. discriminate.
  - destruct (foldM _ cmps 0) as [tot|e0]; simpl.
    + destruct (IH (append h c tot) (items ++ [tot]) (append_list h c tot items Hc))
        as (items' & Hc' & Hframe & Hok & Hraise).
      exists (tot :: items'). rewrite <- app_assoc in Hc'. simpl in Hc'.
      split; [exact Hc'|]. split.
      { intros l Hl. rewrite (Hframe l Hl). apply append_other, Hl. }
      split.
      { intros Hr. simpl. rewrite (Hok Hr). reflexivity. }
      intros e He. simpl. specialize (Hraise e He). lia.
    + exists []. rewrite app_nil_r. split; [exact Hc|].
      split; [reflexivity|]. split; [discriminate|].
      intros e _. simpl. lia.
Qed.

Lemma setattr_instance (h : heap) (self : loc) (attrs : gmap string value)
    (name : string) (v : value) :
  h !! self = Some (OInstance attrs) ->
  setattr h self name v = <[self := OInstance (<[name := v]> attrs)]> h.
Proof. intros Hself. unfold setattr. rewrite Hself. reflexivity. Qed.

Lemma getattr_Ok_instance (h : heap) (self : loc) (name : string) (v : value) :
  getattr h self name = Ok v ->
  exists attrs, h !! self = Some (OInstance attrs) /\ attrs !! name = Some v.
Proof.
  unfold getattr.
  destruct (h !! self) as [[| | |attrs]|]; try discriminate.
  destruct (attrs !! name) as [w|] eqn:Hw; [|discriminate].
  intros [= <-]. eauto.
Qed.

(** The matrix of [Gs] that [xj_Gs_jis] works from: the cached [_Gs] if
    there is one, else [Gs()]. *)
Local Abbreviation Gs_of h self :=
  (match getattr h self "_Gs" with
   | Ok m => vmatrix h m
   | Raise _ => Gs h self
   end).

(** A call of [xj_Gs_jis] that finds no cache and gets past reading [Gs],
    [xs] and [cmps] stores a new list under [_xj_Gs_jis] before it fills
    it. *)
Lemma xj_Gs_jis_uncached (h : heap) (self : loc) (attrs : gmap string value)
    (gs : list (list R)) (xs cmps : value) :
  h !! self = Some (OInstance attrs) ->
  attrs !! "_xj_Gs_jis" = None ->
  Gs_of h self = Ok gs ->
  attrs !! "xs" = Some xs -> attrs !! "cmps" = Some cmps ->
  let c := alloc h in
  let h1 := <[self := OInstance (<["_xj_Gs_jis" := VRef c]> attrs)]>
              (<[c := OList []]> h) in
  c <> self
  /\ h1 !! c = Some (OList [])
  /\ xj_Gs_jis h self
     = match vrange cmps with
       | Raise e => (h1, Raise e)
       | Ok cmps' =>
           ((xj_Gs_jis_loop h1 c xs gs cmps' cmps').1,
            _ ← (xj_Gs_jis_loop h1 c xs gs cmps' cmps').2; Ok (VRef c))
       end.
Proof.
  intros Hself Hcache HGs Hxs Hcmps c h1.
  assert (c <> self) as Hne.
  { intros Heq. pose proof (alloc_fresh h) as Hfresh. fold c in Hfresh.
    rewrite Heq, Hself in Hfresh. discriminate. }
  split; [exact Hne|]. split.
  { unfold h1. rewrite lookup_insert_ne by congruence. apply lookup_insert_eq. }
  unfold xj_Gs_jis.
  rewrite (getattr_instance h self attrs "_xj_Gs_jis" Hself), Hcache.
  rewrite HGs.
  rewrite (getattr_instance h self attrs "xs" Hself), Hxs.
  rewrite (getattr_instance h self attrs "cmps" Hself), Hcmps.
  simpl. fold c.
  rewrite (setattr_instance _ self attrs)
    by (rewrite lookup_insert_ne by congruence; exact Hself).
  fold h1. destruct (vrange cmps) as [cmps'|e]; [|reflexivity].
  destruct (xj_Gs_jis_loop h1 c xs gs cmps' cmps') as [h' r]. reflexivity.
Qed.

(** X18: [xj_Gs_jis()] is computed once.  After a call that returned, a
    second call returns the same list and leaves the heap as it is. *)
Theorem xj_Gs_jis_cached (h h' : heap) (self : loc) (v : value) :
  xj_Gs_jis h self = (h', Ok v) -> xj_Gs_jis h' self = (h', Ok v).
Proof.
  intros Hrun.
  destruct (getattr h self "_xj_Gs_jis") as [v0|e0] eqn:Hcache.
  { unfold xj_Gs_jis in Hrun. rewrite Hcache in Hrun.
    injection Hrun as <- <-. unfold xj_Gs_jis. rewrite Hcache. reflexivity. }
  destruct (Gs_of h self) as [gs|e1] eqn:HGs.
  2:{ unfold xj_Gs_jis in Hrun. rewrite Hcache, HGs in Hrun. discriminate. }
  destruct (getattr h self "xs") as [xs|e2] eqn:Hxs.
  2:{ unfold xj_Gs_jis in Hrun. rewrite Hcache, HGs, Hxs in Hrun. discriminate. }
  destruct (getattr h self "cmps") as [cmps|e3] eqn:Hcmps.
  2:{ unfold xj_Gs_jis in Hrun. rewrite Hcache, HGs, Hxs, Hcmps in Hrun.
      discriminate. }
  apply getattr_Ok_instance in Hxs as (attrs & Hself & Hxs).
  rewrite (getattr_instance h self attrs "_xj_Gs_jis" Hself) in Hcache.
  rewrite (getattr_instance h self attrs "cmps" Hself) in Hcmps.
  destruct (attrs !! "_xj_Gs_jis") eqn:Hnone; [discriminate|].
  destruct (attrs !! "cmps") as [cmps0|] eqn:Hcmps0; [|discriminate].
  injection Hcmps as ->.
  destruct (xj_Gs_jis_uncached h self attrs gs xs cmps Hself Hnone HGs Hxs Hcmps0)
    as (Hne & Hc & Heq).
  rewrite Heq in Hrun. clear Heq.
  destruct (vrange cmps) as [cmps'|e]; [|discriminate].
  injection Hrun as <- Hr.
  destruct (xj_Gs_jis_loop_appends (alloc h) xs gs cmps' cmps' _ [] Hc)
    as (items & _ & Hframe & _ & _).
  destruct ((xj_Gs_jis_loop _ (alloc h) xs gs cmps' cmps').2) as [[]|e]; [|discriminate].
  injection Hr as <-.
  unfold xj_Gs_jis.
  rewrite (getattr_instance _ self (<["_xj_Gs_jis" := VRef (alloc h)]> attrs)).
  - rewrite lookup_insert_eq. reflexivity.
  - rewrite (Hframe self) by congruence. apply lookup_insert_eq.
Qed.

(** X19: the cache is stored before it is filled.  When the instance has
    [xs] and [cmps = range(n)] and its [Gs] evaluate, a call of [xj_Gs_jis()]
    that raises leaves a list of fewer than [n] entries under [_xj_Gs_jis],
    and the next call returns that list without raising. *)
Theorem xj_Gs_jis_failure_is_cached (h h' : heap) (self : loc)
    (attrs : gmap string value) (gs : list (list R)) (xs : value) (n : nat)
    (e : exn) :
  h !! self = Some (OInstance attrs) ->
  attrs !! "_xj_Gs_jis" = None -> attrs !! "_Gs" = None ->
  Gs h self = Ok gs ->
  attrs !! "xs" = Some xs -> attrs !! "cmps" = Some (VRange n) ->
  xj_Gs_jis h self = (h', Raise e) ->
  exists c items,
    h !! c = None
    /\ h' !! c = Some (OList items)
    /\ (length items < n)%nat
    /\ xj_Gs_jis h' self = (h', Ok (VRef c)).
Proof.
  intros Hself Hnone HnoGs HGs Hxs Hcmps Hrun.
  assert (Gs_of h self = Ok gs) as HGs'.
  { rewrite (getattr_instance h self attrs "_Gs" Hself), HnoGs. exact HGs. }
  destruct (xj_Gs_jis_uncached h self attrs gs xs (VRange n) Hself Hnone HGs' Hxs Hcmps)
    as (Hne & Hc & Heq).
  rewrite Heq in Hrun. clear Heq. cbn [vrange] in Hrun.
  injection Hrun as <- Hr.
  destruct (xj_Gs_jis_loop_appends (alloc h) xs gs (range n) (range n) _ [] Hc)
    as (items & Hitems & Hframe & _ & Hshort).
  destruct ((xj_Gs_jis_loop _ (alloc h) xs gs (range n) (range n)).2)
    as [[]|e'] eqn:Hloop; [discriminate|].
  exists (alloc h), items. split; [apply alloc_fresh|].
  split; [exact Hitems|]. split.
  { specialize (Hshort e' eq_refl). unfold range in Hshort.
    rewrite length_seq in Hshort. exact Hshort. }
  unfold xj_Gs_jis.
  rewrite (getattr_instance _ self (<["_xj_Gs_jis" := VRef (alloc h)]> attrs)).
  - rewrite lookup_insert_eq. reflexivity.
  - rewrite (Hframe self) by congruence. apply lookup_insert_eq.
Qed.

End WeightedSumCache.

Section WeightedSumCacheExamples.
Local Open Scope R_scope.

Lemma xj_Gs_jis_cached_witness :
  exists h1 v,
    xj_Gs_jis example_heap 5 = (h1, Ok v) /\ xj_Gs_jis h1 5 = (h1, Ok v).
Proof.
  destruct example_xj_Gs_jis as (h1 & c & Hrun & _).
  exists h1, (VRef c). split; [exact Hrun|].
  apply (xj_Gs_jis_cached example_heap h1 5 (VRef c) Hrun).
Defined.

Lemma short_instance : short_heap !! 5%positive = Some (OInstance example_attrs).
Proof. reflexivity. Qed.

Lemma short_getattr (name : string) (v : value) :
  example_attrs !! name = Some v -> getattr short_heap 5 name = Ok v.
Proof.
  intros Hv. rewrite (getattr_instance _ _ _ _ short_instance), Hv. reflexivity.
Qed.

Ltac short_attrs_run :=
  repeat match goal with
         | |- context [getattr short_heap 5 ?name] =>
             rewrite (short_getattr name _ eq_refl)
         end;
  simpl.

Lemma short_matrix_1 : vmatrix short_heap (VRef 1) = Ok [[0; 1]; [2; 0]].
Proof. reflexivity. Qed.

Lemma short_matrix_2 : vmatrix short_heap (VRef 2) = Ok [[0; 0]; [0; 0]].
Proof. reflexivity. Qed.

Lemma short_matrix_3 : vmatrix short_heap (VRef 3) = Ok [[0; 0.3]; [0.3; 0]].
Proof. reflexivity. Qed.

Lemma short_taus : taus short_heap 5 = Ok [[0; 1]; [2; 0]].
Proof.
  unfold taus, vrow. short_attrs_run.
  rewrite pydiv_ok by lra. simpl. rewrite pylog_1. simpl.
  rewrite short_matrix_1, !short_matrix_2. simpl.
  unfold getitem. simpl.
  f_equal. repeat (apply (f_equal2 cons); [Rlist|]). reflexivity.
Qed.

Lemma short_alphas : alphas short_heap 5 = Ok [[0; 0.3]; [0.3; 0]].
Proof.
  unfold alphas, vrow. short_attrs_run.
  rewrite short_matrix_3, !short_matrix_2. simpl.
  unfold getitem. simpl.
  f_equal. repeat (apply (f_equal2 cons); [Rlist|]). reflexivity.
Qed.

Lemma short_Gs :
  Gs short_heap 5
  = Ok [[exp (- 0 * 0); exp (- (0.3) * 1)]; [exp (- (0.3) * 2); exp (- 0 * 0)]].
Proof.
  unfold Gs. rewrite short_alphas, short_taus. simpl.
  short_attrs_run. unfold getitem. simpl. reflexivity.
Qed.

(** With one fraction for two species the first weighted sum already fails
    on [xs[1]]. *)
Lemma short_xj_Gs_jis_raises :
  exists h', xj_Gs_jis short_heap 5 = (h', Raise IndexError).
Proof.
  unfold xj_Gs_jis.
  rewrite !(getattr_instance _ _ _ _ short_instance). simpl.
  rewrite short_Gs. simpl.
  eexists. reflexivity.
Qed.

Lemma xj_Gs_jis_failure_is_cached_witness :
  exists h' c items,
    xj_Gs_jis short_heap 5 = (h', Raise IndexError)
    /\ h' !! c = Some (OList items)
    /\ (length items < 2)%nat
    /\ xj_Gs_jis h' 5 = (h', Ok (VRef c)).
Proof.
  destruct short_xj_Gs_jis_raises as [h' Hrun].
  destruct (xj_Gs_jis_failure_is_cached short_heap h' 5 example_attrs _ (VRef 4) 2
              IndexError short_instance eq_refl eq_refl short_Gs eq_refl eq_refl Hrun)
    as (c & items & _ & Hitems & Hlen & Hnext).
  exists h', c, items. auto.
Defined.

End WeightedSumCacheExamples.

(** ** Construction *)

Section Construction.
Local Open Scope R_scope.

Lemma extends_refl (h : heap) (self : loc) (attrs : gmap string value) :
  h !! self = Some (OInstance attrs) -> extends h h self attrs.
Proof. intros Hself. split; [exact Hself | auto]. Qed.

Lemma extends_trans (h0 h1 h2 : heap) (self : loc) (attrs1 attrs2 : gmap string value) :
  extends h0 h1 self attrs1 -> extends h1 h2 self attrs2 -> extends h0 h2 self attrs2.
Proof.
  intros [_ H01] [Hself H12]. split; [exact Hself|].
  intros l o Hne Hl. apply H12, H01; assumption.
Qed.

Lemma extends_setattr (h : heap) (self : loc) (attrs : gmap string value)
    (name : string) (v : value) :
  h !! self = Some (OInstance attrs) ->
  extends h (setattr h self name v) self (<[name := v]> attrs).
Proof.
  intros Hself. rewrite (setattr_instance h self attrs name v Hself).
  split; [apply lookup_insert_eq|].
  intros l o Hne Hl. rewrite lookup_insert_ne by congruence. exact Hl.
Qed.

Lemma extends_alloc (h : heap) (self : loc) (attrs : gmap string value)
    (o : object) :
  h !! self = Some (OInstance attrs) ->
  alloc h <> self /\ extends h (<[alloc h := o]> h) self attrs.
Proof.
  intros Hself. pose proof (alloc_fresh h) as Hfresh.
  assert (alloc h <> self) as Hne.
  { intros Heq. rewrite Heq, Hself in Hfresh. discriminate. }
  split; [exact Hne|]. split.
  - rewrite lookup_insert_ne by exact Hne. exact Hself.
  - intros l o' _ Hl. rewrite lookup_insert_ne; [exact Hl|].
    intros <-. rewrite Hl in Hfresh. discriminate.
Qed.

Lemma store_None_extends (names : list string) (h : heap) (self : loc)
    (attrs : gmap string value) :
  h !! self = Some (OInstance attrs) ->
  exists attrs',
    extends h (store_None h self names) self attrs'
    /\ (forall name, name ∈ names -> attrs' !! name = Some VNone)
    /\ (forall name, name ∉ names -> attrs' !! name = attrs !! name).
Proof.
  unfold store_None. revert h attrs.
  induction names as [|n names IH]; intros h attrs Hself; simpl.
  - exists attrs. split; [apply extends_refl, Hself|]. split; [|reflexivity].
    intros name Hin. apply elem_of_nil in Hin. contradiction.
  - pose proof (extends_setattr h self attrs n VNone Hself) as Hext1.
    destruct (IH _ _ (proj1 Hext1)) as (attrs' & Hext' & Hset & Hkeep).
    exists attrs'. split; [exact (extends_trans _ _ _ _ _ _ Hext1 Hext')|]. split.
    + intros name Hin. destruct (decide (name ∈ names)) as [Hin'|Hnin].
      * apply Hset, Hin'.
      * apply elem_of_cons in Hin as [->|Hin]; [|contradiction].
        rewrite (Hkeep n Hnin). apply lookup_insert_eq.
    + intros name Hnin. rewrite Hkeep.
      * apply lookup_insert_ne. intros <-. apply Hnin. left.
      * intros Hin. apply Hnin. right. exact Hin.
Qed.

Lemma store_components_extends (names : list string)
    (cells : list (list (list R))) (k0 : nat) (h h' : heap) (self : loc)
    (attrs : gmap string value) :
  h !! self = Some (OInstance attrs) ->
  store_components h self cells names k0 = Ok h' ->
  exists attrs',
    extends h h' self attrs'
    /\ (forall name, name ∈ names ->
          exists l m, attrs' !! name = Some (VRef l)
                      /\ h' !! l = Some (OMatrix m) /\ length m = length cells)
    /\ (forall name, name ∉ names -> attrs' !! name = attrs !! name).
Proof.
  revert k0 h attrs.
  induction names as [|n names IH]; intros k0 h attrs Hself; simpl.
  - intros [= <-]. exists attrs. split; [apply extends_refl, Hself|].
    split; [|reflexivity].
    intros name Hin. apply elem_of_nil in Hin. contradiction.
  - destruct (component k0 cells) as [m|e] eqn:Hm; simpl; [|discriminate].
    intros Hrest.
    destruct (extends_alloc h self attrs (OMatrix m) Hself) as [Hne Hext0].
    pose proof (extends_setattr _ self attrs n (VRef (alloc h)) (proj1 Hext0))
      as Hext1.
    destruct (IH _ _ _ (proj1 Hext1) Hrest) as (attrs' & Hext' & Hset & Hkeep).
    exists attrs'. split.
    { exact (extends_trans _ _ _ _ _ _ Hext0 (extends_trans _ _ _ _ _ _ Hext1 Hext')). }
    split.
    + intros name Hin. destruct (decide (name ∈ names)) as [Hin'|Hnin].
      * apply Hset, Hin'.
      * apply elem_of_cons in Hin as [->|Hin]; [|contradiction].
        exists (alloc h), m. rewrite (Hkeep n Hnin), lookup_insert_eq.
        split; [reflexivity|]. split.
        -- apply (proj2 Hext' (alloc h) _ Hne).
           apply (proj2 Hext1 (alloc h) _ Hne). apply lookup_insert_eq.
        -- unfold component in Hm. apply mapM_Ok_length in Hm. exact Hm.
    + intros name Hnin. rewrite Hkeep.
      * apply lookup_insert_ne. intros <-. apply Hnin. left.
      * intros Hin. apply Hnin. right. exact Hin.
Qed.

Lemma is_VNone (v : value) : v = VNone \/ v <> VNone.
Proof. destruct v; first [left; reflexivity | right; discriminate]. Qed.

Lemma foldl_setattr_extends (nvs : list (string * value)) (h : heap) (self : loc)
    (attrs : gmap string value) :
  h !! self = Some (OInstance attrs) ->
  exists attrs',
    extends h (foldl (fun h nv => setattr h self nv.1 nv.2) h nvs) self attrs'
    /\ (forall name, name ∈ nvs.*1 -> is_Some (attrs' !! name))
    /\ (forall name, name ∉ nvs.*1 -> attrs' !! name = attrs !! name).
Proof.
  revert h attrs.
  induction nvs as [|[n v] nvs IH]; intros h attrs Hself; simpl.
  - exists attrs. split; [apply extends_refl, Hself|]. split; [|reflexivity].
    intros name Hin. apply elem_of_nil in Hin. contradiction.
  - pose proof (extends_setattr h self attrs n v Hself) as Hext1.
    destruct (IH _ _ (proj1 Hext1)) as (attrs' & Hext' & Hset & Hkeep).
    exists attrs'. split; [exact (extends_trans _ _ _ _ _ _ Hext1 Hext')|]. split.
    + intros name Hin. destruct (decide (name ∈ nvs.*1)) as [Hin'|Hnin].
      * apply Hset, Hin'.
      * apply elem_of_cons in Hin as [->|Hin]; [|contradiction].
        rewrite (Hkeep n Hnin), lookup_insert_eq. eauto.
    + intros name Hnin. rewrite Hkeep.
      * apply lookup_insert_ne. intros <-. apply Hnin. left.
      * intros Hin. apply Hnin. right. exact Hin.
Qed.

(** The names [__init__] may set besides [T], [xs], [N], [cmps] and
    [zero_coeffs]. *)
Local Abbreviation coefficient_attributes :=
  ("tau_coeffs" :: "alpha_coeffs" :: coefficient_names).

(** The coefficient part of [__init__]: if it returns, the eight
    coefficient attributes are set and no attribute outside
    [coefficient_attributes] has changed. *)
Lemma init_coefficients (h h3 : heap) (self : loc) (attrs : gmap string value)
    (tau_coeffs alpha_coeffs : value) (ABEFGHCD : option (list value)) :
  h !! self = Some (OInstance attrs) ->
  match ABEFGHCD with
  | Some coeffs =>
      if bool_decide (length coeffs = 8%nat)
      then Ok (foldl (fun h nv => setattr h self nv.1 nv.2) h
                     (zip coefficient_names coeffs))
      else Raise ValueError
  | None =>
      let h := setattr h self "tau_coeffs" tau_coeffs in
      h ← match tau_coeffs with
          | VNone => Ok (store_None h self (take 6 coefficient_names))
          | _ => cells ← vtensor h tau_coeffs;
                 store_components h self cells (take 6 coefficient_names) 0
          end;
      let h := setattr h self "alpha_coeffs" alpha_coeffs in
      match alpha_coeffs with
      | VNone => Ok (store_None h self (drop 6 coefficient_names))
      | _ => cells ← vtensor h alpha_coeffs;
             store_components h self cells (drop 6 coefficient_names) 0
      end
  end = Ok h3 ->
  exists attrs3,
    extends h h3 self attrs3
    /\ (forall name, name ∈ coefficient_names -> is_Some (attrs3 !! name))
    /\ (forall name, name ∉ coefficient_attributes -> attrs3 !! name = attrs !! name)
    /\ (ABEFGHCD = None -> tau_coeffs = VNone ->
        attrs3 !! "tau_coeffs_A" = Some VNone).
Proof.
  intros Hself. destruct ABEFGHCD as [coeffs|].
  - case_bool_decide as Hlen; [|discriminate]. intros [= <-].
    destruct (foldl_setattr_extends (zip coefficient_names coeffs) h self attrs Hself)
      as (attrs3 & Hext & Hset & Hkeep).
    rewrite fst_zip in Hset, Hkeep by (rewrite Hlen; reflexivity).
    exists attrs3. split; [exact Hext|]. split; [exact Hset|].
    split; [|discriminate].
    intros name Hnin. apply Hkeep. intros Hin. apply Hnin. do 2 right. exact Hin.
  - cbv zeta.
    pose proof (extends_setattr h self attrs "tau_coeffs" tau_coeffs Hself) as Hext1.
    set (h1 := setattr h self "tau_coeffs" tau_coeffs) in *.
    assert (forall h2,
              match tau_coeffs with
              | VNone => Ok (store_None h1 self (take 6 coefficient_names))
              | _ => cells ← vtensor h1 tau_coeffs;
                     store_components h1 self cells (take 6 coefficient_names) 0
              end = Ok h2 ->
              exists attrs2,
                extends h1 h2 self attrs2
                /\ (forall name, name ∈ take 6 coefficient_names ->
                      is_Some (attrs2 !! name))
                /\ (forall name, name ∉ take 6 coefficient_names ->
                      attrs2 !! name = (<["tau_coeffs" := tau_coeffs]> attrs) !! name)
                /\ (tau_coeffs = VNone -> attrs2 !! "tau_coeffs_A" = Some VNone))
      as Htau.
    { intros h2 Hrun.
      destruct (is_VNone tau_coeffs) as [->|Hsome].
      - injection Hrun as <-.
        destruct (store_None_extends (take 6 coefficient_names) h1 self _ (proj1 Hext1))
          as (attrs2 & Hext2 & Hset & Hkeep).
        exists attrs2. split; [exact Hext2|]. split.
        { intros name Hin. rewrite (Hset name Hin). eauto. }
        split; [exact Hkeep|]. intros _. apply Hset. in_names.
      - assert ((cells ← vtensor h1 tau_coeffs;
                 store_components h1 self cells (take 6 coefficient_names) 0)
                = Ok h2) as Hrun'
          by (destruct tau_coeffs; [contradiction | exact Hrun ..]).
        destruct (vtensor h1 tau_coeffs) as [cells|e];
          [|change (Raise e = Ok h2) in Hrun'; discriminate].
        change (store_components h1 self cells (take 6 coefficient_names) 0 = Ok h2)
          in Hrun'.
        destruct (store_components_extends _ cells 0 h1 h2 self _ (proj1 Hext1) Hrun')
          as (attrs2 & Hext2 & Hset & Hkeep).
        exists attrs2. split; [exact Hext2|]. split.
        { intros name Hin. destruct (Hset name Hin) as (l & m & -> & _). eauto. }
        split; [exact Hkeep | contradiction]. }
    destruct (match tau_coeffs with
              | VNone => Ok (store_None h1 self (take 6 coefficient_names))
              | _ => _
              end) as [h2|e] eqn:Hrun2; simpl; [|discriminate].
    destruct (Htau h2 eq_refl) as (attrs2 & Hext2 & Hset2 & Hkeep2 & HA2).
    clear Htau.
    pose proof (extends_setattr h2 self attrs2 "alpha_coeffs" alpha_coeffs (proj1 Hext2))
      as Hext3.
    set (h2' := setattr h2 self "alpha_coeffs" alpha_coeffs) in *.
    intros Hrun3.
    assert (exists attrs3,
              extends h2' h3 self attrs3
              /\ (forall name, name ∈ drop 6 coefficient_names ->
                    is_Some (attrs3 !! name))
              /\ (forall name, name ∉ drop 6 coefficient_names ->
                    attrs3 !! name = (<["alpha_coeffs" := alpha_coeffs]> attrs2) !! name))
      as (attrs3 & Hext4 & Hset4 & Hkeep4).
    { destruct (is_VNone alpha_coeffs) as [->|Hsome].
      - injection Hrun3 as <-.
        destruct (store_None_extends (drop 6 coefficient_names) h2' self _ (proj1 Hext3))
          as (attrs3 & Hext4 & Hset & Hkeep).
        exists attrs3. split; [exact Hext4|]. split; [|exact Hkeep].
        intros name Hin. rewrite (Hset name Hin). eauto.
      - assert ((cells ← vtensor h2' alpha_coeffs;
                 store_components h2' self cells (drop 6 coefficient_names) 0)
                = Ok h3) as Hrun'
          by (destruct alpha_coeffs; [contradiction | exact Hrun3 ..]).
        destruct (vtensor h2' alpha_coeffs) as [cells|e];
          [|change (Raise e = Ok h3) in Hrun'; discriminate].
        change (store_components h2' self cells (drop 6 coefficient_names) 0 = Ok h3)
          in Hrun'.
        destruct (store_components_extends _ cells 0 h2' h3 self _ (proj1 Hext3) Hrun')
          as (attrs3 & Hext4 & Hset & Hkeep).
        exists attrs3. split; [exact Hext4|]. split; [|exact Hkeep].
        intros name Hin. destruct (Hset name Hin) as (l & m & -> & _). eauto. }
    exists attrs3. split.
    { exact (extends_trans _ _ _ _ _ _ Hext1
               (extends_trans _ _ _ _ _ _ Hext2
                  (extends_trans _ _ _ _ _ _ Hext3 Hext4))). }
    assert (forall name, name ∈ take 6 coefficient_names ->
                         (name ∉ drop 6 coefficient_names) /\ name <> "alpha_coeffs")
      as Hdisjoint.
    { intros name Hin. apply list_elem_of_In in Hin. simpl in Hin.
      repeat (destruct Hin as [<-|Hin];
              [split; [intros Hd; not_in_names Hd | discriminate]|]).
      contradiction. }
    split; [|split].
    + intros name Hin.
      destruct (decide (name ∈ drop 6 coefficient_names)) as [Hd|Hd];
        [apply Hset4, Hd|].
      assert (name ∈ take 6 coefficient_names) as Ht.
      { rewrite <- (take_drop 6 coefficient_names) in Hin.
        apply elem_of_app in Hin as [Ht|Hd']; [exact Ht | contradiction]. }
      rewrite (Hkeep4 name Hd).
      rewrite lookup_insert_ne by (intros <-; exact (proj2 (Hdisjoint _ Ht) eq_refl)).
      apply Hset2, Ht.
    + intros name Hnin.
      assert (name ∉ drop 6 coefficient_names) as Hd.
      { intros Hd. apply Hnin. do 2 right.
        rewrite <- (take_drop 6 coefficient_names). apply elem_of_app. right. exact Hd. }
      assert (name ∉ take 6 coefficient_names) as Ht.
      { intros Ht. apply Hnin. do 2 right.
        rewrite <- (take_drop 6 coefficient_names). apply elem_of_app. left. exact Ht. }
      rewrite (Hkeep4 name Hd).
      rewrite lookup_insert_ne by (intros <-; apply Hnin; right; left).
      rewrite (Hkeep2 name Ht).
      apply lookup_insert_ne. intros <-. apply Hnin. left.
    + intros _ Htau0.
      assert ("tau_coeffs_A" ∈ take 6 coefficient_names) as Ht by in_names.
      rewrite (Hkeep4 _ (proj1 (Hdisjoint _ Ht))).
      rewrite lookup_insert_ne by discriminate.
      apply HA2, Htau0.
Qed.

(** [len(v)] does not change while the object it reads stays in place. *)
Lemma vlen_frame (h h' : heap) (self : loc) (attrs : gmap string value)
    (v : value) (n : nat) :
  h !! self = Some (OInstance attrs) ->
  (forall l o, l <> self -> h !! l = Some o -> h' !! l = Some o) ->
  vlen h v = Ok n -> vlen h' v = Ok n.
Proof.
  intros Hself Hframe. destruct v as [| | | |l]; simpl; try discriminate; [auto|].
  destruct (h !! l) as [o|] eqn:Hl; [|discriminate].
  destruct (decide (l = self)) as [->|Hne].
  - rewrite Hself in Hl. injection Hl as <-. discriminate.
  - rewrite (Hframe l o Hne Hl). auto.
Qed.

(** [__init__] up to the coefficient part: [self] is new and holds [T] and
    [xs]. *)
Lemma init_T_xs (h : heap) (T xs : value) :
  let self := alloc h in
  let h2 := setattr (setattr (<[self := OInstance ∅]> h) self "T" T) self "xs" xs in
  h !! self = None
  /\ extends h h2 self (<["xs" := xs]> (<["T" := T]> ∅)).
Proof.
  intros self h2. pose proof (alloc_fresh h) as Hfresh. fold self in Hfresh.
  split; [exact Hfresh|].
  assert ((<[self := OInstance ∅]> h) !! self = Some (OInstance ∅)) as H0
    by apply lookup_insert_eq.
  pose proof (extends_setattr _ self ∅ "T" T H0) as H1.
  pose proof (extends_setattr _ self _ "xs" xs (proj1 H1)) as H2.
  split; [exact (proj1 H2)|].
  intros l o Hne Hl. apply (proj2 H2 l o Hne), (proj2 H1 l o Hne).
  rewrite lookup_insert_ne by congruence. exact Hl.
Qed.

(** X20: every instance [__init__] returns is complete.  It is a new object
    that holds the [T] and [xs] passed in, the eight coefficient attributes,
    [N = len(tau_coeffs_A)], [cmps = range(N)] and an [N] by [N] zero matrix
    of its own; the objects the heap held before are untouched; and
    [to_T_xs] succeeds on it for every [T] and [xs]. *)
Theorem NRTL_new_complete (h h1 : heap) (self : loc)
    (T xs tau_coeffs alpha_coeffs : value) (ABEFGHCD : option (list value)) :
  NRTL_new h T xs tau_coeffs alpha_coeffs ABEFGHCD = Ok (h1, self) ->
  h !! self = None
  /\ exists attrs A N z,
       extends h h1 self attrs
       /\ attrs !! "T" = Some T /\ attrs !! "xs" = Some xs
       /\ (forall name, name ∈ coefficient_names -> is_Some (attrs !! name))
       /\ attrs !! "tau_coeffs_A" = Some A /\ vlen h1 A = Ok N
       /\ attrs !! "N" = Some (VInt N) /\ attrs !! "cmps" = Some (VRange N)
       /\ attrs !! "zero_coeffs" = Some (VRef z)
       /\ h !! z = None
       /\ h1 !! z = Some (OMatrix (replicate N (replicate N 0)))
       /\ forall (T' : R) (xs' : value),
            exists new_attrs,
              to_T_xs h1 self T' xs'
              = Ok (<[alloc h1 := OInstance new_attrs]> h1, alloc h1).
Proof.
  unfold NRTL_new.
  destruct (init_T_xs h T xs) as [Hnew Hext2].
  set (self0 := alloc h) in *.
  set (h2 := setattr (setattr (<[self0 := OInstance ∅]> h) self0 "T" T) self0 "xs" xs)
    in *.
  cbv zeta.
  match goal with
  | |- mbind _ ?m = _ -> _ => destruct m as [h3|e] eqn:Hcoeffs; [|discriminate]
  end.
  destruct (init_coefficients h2 h3 self0 _ tau_coeffs alpha_coeffs ABEFGHCD
              (proj1 Hext2) Hcoeffs) as (attrs3 & Hext3 & Hset3 & Hkeep3 & _).
  rewrite bind_Ok.
  rewrite (getattr_instance h3 self0 attrs3 "tau_coeffs_A" (proj1 Hext3)).
  destruct (Hset3 "tau_coeffs_A") as [A HA]; [in_names|].
  rewrite HA, bind_Ok.
  destruct (vlen h3 A) as [N|e] eqn:HN; [|discriminate].
  rewrite bind_Ok.
  pose proof (extends_setattr h3 self0 attrs3 "N" (VInt N) (proj1 Hext3)) as Hext4.
  set (h4 := setattr h3 self0 "N" (VInt N)) in *.
  pose proof (extends_setattr h4 self0 _ "cmps" (VRange N) (proj1 Hext4)) as Hext5.
  set (h5 := setattr h4 self0 "cmps" (VRange N)) in *.
  destruct (extends_alloc h5 self0 _ (OMatrix (replicate N (replicate N 0)))
              (proj1 Hext5)) as [Hz Hext6].
  set (z := alloc h5) in *.
  set (h6 := <[z := OMatrix (replicate N (replicate N 0))]> h5) in *.
  pose proof (extends_setattr h6 self0 _ "zero_coeffs" (VRef z) (proj1 Hext6)) as Hext7.
  set (h7 := setattr h6 self0 "zero_coeffs" (VRef z)) in *.
  intros [= <- <-].
  split; [exact Hnew|].
  assert (extends h h7 self0
            (<["zero_coeffs" := VRef z]>
               (<["cmps" := VRange N]> (<["N" := VInt N]> attrs3)))) as Hext.
  { exact (extends_trans _ _ _ _ _ _ Hext2
             (extends_trans _ _ _ _ _ _ Hext3
                (extends_trans _ _ _ _ _ _ Hext4
                   (extends_trans _ _ _ _ _ _ Hext5
                      (extends_trans _ _ _ _ _ _ Hext6 Hext7))))). }
  assert (forall l o, l <> self0 -> h3 !! l = Some o -> h7 !! l = Some o) as Hframe.
  { intros l o Hne Hl.
    apply (proj2 Hext7 l o Hne), (proj2 Hext6 l o Hne), (proj2 Hext5 l o Hne),
      (proj2 Hext4 l o Hne), Hl. }
  assert (forall name, name ∈ coefficient_names ->
            name <> "zero_coeffs" /\ name <> "cmps" /\ name <> "N") as Hother.
  { intros name Hin. apply list_elem_of_In in Hin. simpl in Hin.
    repeat (destruct Hin as [<-|Hin]; [repeat split; discriminate|]).
    contradiction. }
  assert (forall name, name ∈ coefficient_names ->
            (<["zero_coeffs" := VRef z]>
               (<["cmps" := VRange N]> (<["N" := VInt N]> attrs3))) !! name
            = attrs3 !! name) as Hcoef.
  { intros name Hin. destruct (Hother name Hin) as (H1 & H2 & H3).
    rewrite !lookup_insert_ne by congruence. reflexivity. }
  assert (h !! z = None) as Hzold.
  { destruct (h !! z) as [o|] eqn:Hhz; [|reflexivity]. exfalso.
    pose proof (alloc_fresh h5) as Hfresh. fold z in Hfresh.
    assert (h5 !! z = Some o) as Hh5z.
    { apply (proj2 Hext5 z o Hz), (proj2 Hext4 z o Hz), (proj2 Hext3 z o Hz),
        (proj2 Hext2 z o Hz), Hhz. }
    rewrite Hh5z in Hfresh. discriminate. }
  eexists _, A, N, z.
  split; [exact Hext|].
  split.
  { rewrite !lookup_insert_ne by discriminate.
    rewrite Hkeep3 by (intros Hin; not_in_names Hin).
    rewrite lookup_insert_ne by discriminate. apply lookup_insert_eq. }
  split.
  { rewrite !lookup_insert_ne by discriminate.
    rewrite Hkeep3 by (intros Hin; not_in_names Hin).
    apply lookup_insert_eq. }
  split.
  { intros name Hin. rewrite (Hcoef name Hin). apply Hset3, Hin. }
  split.
  { rewrite Hcoef by in_names. exact HA. }
  split.
  { exact (vlen_frame h3 h7 self0 attrs3 A N (proj1 Hext3) Hframe HN). }
  split.
  { rewrite !lookup_insert_ne by discriminate. apply lookup_insert_eq. }
  split.
  { rewrite lookup_insert_ne by discriminate. apply lookup_insert_eq. }
  split; [apply lookup_insert_eq|].
  split; [exact Hzold|].
  split.
  { apply (proj2 Hext7 z _ Hz). apply lookup_insert_eq. }
  intros T' xs'.
  destruct (to_T_xs_attributes h7 self0 _ T' xs' (proj1 Hext)) as (new_attrs & Hrun & _).
  - intros name Hin. apply elem_of_cons in Hin as [->|Hin].
    { rewrite !lookup_insert_ne by discriminate.
      rewrite Hkeep3 by (intros Hin; not_in_names Hin).
      rewrite lookup_insert_ne by discriminate. rewrite lookup_insert_eq. eauto. }
    unfold copied_names in Hin. apply elem_of_app in Hin as [Hin|Hin].
    + apply list_elem_of_In in Hin. simpl in Hin.
      destruct Hin as [<-|[<-|[<-|[]]]].
      * rewrite !lookup_insert_ne by discriminate. rewrite lookup_insert_eq. eauto.
      * rewrite lookup_insert_ne by discriminate. rewrite lookup_insert_eq. eauto.
      * rewrite lookup_insert_eq. eauto.
    + rewrite (Hcoef name Hin). apply Hset3, Hin.
  - exists new_attrs. exact Hrun.
Qed.

(** X21: the constructor needs the tau coefficients.  With neither
    [tau_coeffs] nor [ABEFGHCD], [__init__] never returns an instance:
    [tau_coeffs_A] is [None] and [len(self.tau_coeffs_A)] raises
    [TypeError]. *)
Theorem NRTL_new_needs_tau_coeffs (h : heap) (T xs : value) :
  (forall alpha_coeffs r, NRTL_new h T xs VNone alpha_coeffs None <> Ok r)
  /\ NRTL_new h T xs VNone VNone None = Raise TypeError.
Proof.
  assert (forall alpha_coeffs,
            NRTL_new h T xs VNone alpha_coeffs None = Raise TypeError
            \/ exists e, NRTL_new h T xs VNone alpha_coeffs None = Raise e
                         /\ alpha_coeffs <> VNone) as Hraise.
  { intros alpha_coeffs. unfold NRTL_new.
    destruct (init_T_xs h T xs) as [Hnew Hext2].
    set (self0 := alloc h) in *.
    set (h2 := setattr (setattr (<[self0 := OInstance ∅]> h) self0 "T" T) self0 "xs" xs)
      in *.
    cbv zeta.
    match goal with
    | |- mbind _ ?m = _ \/ _ => destruct m as [h3|e] eqn:Hcoeffs
    end.
    - left.
      destruct (init_coefficients h2 h3 self0 _ VNone alpha_coeffs None
                  (proj1 Hext2) Hcoeffs) as (attrs3 & Hext3 & _ & _ & HA).
      rewrite bind_Ok.
      rewrite (getattr_instance h3 self0 attrs3 "tau_coeffs_A" (proj1 Hext3)).
      rewrite (HA eq_refl eq_refl). reflexivity.
    - right. exists e. split; [reflexivity|].
      intros ->. discriminate Hcoeffs. }
  split.
  - intros alpha_coeffs r Hr.
    destruct (Hraise alpha_coeffs) as [He | (e & He & _)];
      rewrite He in Hr; discriminate.
  - destruct (Hraise VNone) as [He | (e & _ & Hne)]; [exact He | contradiction].
Qed.

End Construction.

Section ConstructionExample.
Local Open Scope R_scope.

(** Construction from the eight matrices of the example heap. *)
Lemma example_construction :
  exists h1 self,
    NRTL_new example_heap (VFloat 1) (VRef 4) VNone VNone
      (Some [VRef 1; VRef 2; VRef 2; VRef 2; VRef 2; VRef 2; VRef 3; VRef 2])
    = Ok (h1, self).
Proof. do 2 eexists. reflexivity. Qed.

Lemma NRTL_new_complete_witness :
  exists h1 self,
    NRTL_new example_heap (VFloat 1) (VRef 4) VNone VNone
      (Some [VRef 1; VRef 2; VRef 2; VRef 2; VRef 2; VRef 2; VRef 3; VRef 2])
    = Ok (h1, self)
    /\ example_heap !! self = None
    /\ forall (T' : R) (xs' : value),
         exists h2 new, to_T_xs h1 self T' xs' = Ok (h2, new).
Proof.
  destruct example_construction as (h1 & self & Hrun).
  destruct (NRTL_new_complete _ _ _ _ _ _ _ _ Hrun)
    as (Hnew & attrs & A & N & z & _ & _ & _ & _ & _ & _ & _ & _ & _ & _ & _ & Hclone).
  exists h1, self. split; [exact Hrun|]. split; [exact Hnew|].
  intros T' xs'. destruct (Hclone T' xs') as [new_attrs Hto]. eauto.
Defined.

End ConstructionExample.

(** ** UNIQUAC *)

(** Evaluates the comprehension at the head of the goal, whose [k]-th value
    is [g] of the [k]-th mole fraction. *)
Ltac weigh_by xs g :=
  match goal with
  | |- mbind _ (comprehension _ ?f) = _ => rewrite (comprehension_weighted xs f g)
  end.

Section UNIQUACIdeal.
Local Open Scope R_scope.

Lemma getitem_map {A B} (f : A -> B) (l : list A) (i : nat) (x : A) :
  l !! i = Some x -> getitem (map f l) i = Ok (f x).
Proof. intros Hx. unfold getitem. rewrite list_lookup_fmap, Hx. reflexivity. Qed.

Lemma getitem_replicate {A} (n i : nat) (x : A) :
  (i < n)%nat -> getitem (replicate n x) i = Ok x.
Proof. intros Hi. unfold getitem. rewrite (lookup_replicate_2 n x i Hi). reflexivity. Qed.

Lemma pysum_map_scale (c : R) (l : list R) :
  pysum (map (fun x => c * x) l) = c * pysum l.
Proof.
  induction l as [|x l IH]; simpl.
  - rewrite pysum_nil. lra.
  - rewrite !pysum_cons, IH. lra.
Qed.

Variables (xs : list R) (r q : R) (taus : list (list R)).
Local Abbreviation N := (length xs).
Hypothesis Hxs : Forall (fun x => x <> 0) xs.
Hypothesis Hsum : pysum xs = 1.
Hypothesis Hr : r <> 0.
Hypothesis Hq : q <> 0.
Hypothesis Htaus :
  forall i j, (i < N)%nat -> (j < N)%nat -> getitem2 taus i j = Ok 1.

Lemma UNIQUAC_ideal_run :
  UNIQUAC xs (replicate N r) (replicate N q) taus = Ok (replicate N 1).
Proof.
  assert (forall k x, xs !! k = Some x -> (k < N)%nat) as Hlt
    by (intros k x Hx; exact (lookup_lt_Some _ _ _ Hx)).
  assert (forall k x, xs !! k = Some x -> x <> 0) as Hnz
    by (intros k x Hx; exact (proj1 (Forall_lookup _ _) Hxs k x Hx)).
  unfold UNIQUAC. cbv zeta.
  (* rsxs and phis *)
  weigh_by xs (fun x => r * x).
  2:{ intros k x Hx. rewrite (getitem_replicate N k r (Hlt k x Hx)), bind_Ok.
      unfold getitem. rewrite Hx. reflexivity. }
  rewrite bind_Ok, pysum_map_scale, Hsum.
  weigh_by xs (fun x => r * x / (r * 1)).
  2:{ intros k x Hx. rewrite (getitem_map _ xs k x Hx), bind_Ok.
      apply pydiv_ok. lra. }
  rewrite bind_Ok.
  (* qsxs and vs *)
  weigh_by xs (fun x => q * x).
  2:{ intros k x Hx. rewrite (getitem_replicate N k q (Hlt k x Hx)), bind_Ok.
      unfold getitem. rewrite Hx. reflexivity. }
  rewrite bind_Ok, pysum_map_scale, Hsum.
  weigh_by xs (fun x => q * x / (q * 1)).
  2:{ intros k x Hx. rewrite (getitem_map _ xs k x Hx), bind_Ok.
      apply pydiv_ok. lra. }
  rewrite bind_Ok.
  (* Ss *)
  weigh_by xs (fun _ : R => 1).
  2:{ intros k x Hx.
      weigh_by xs (fun x => q * x / (q * 1) * 1).
      - rewrite bind_Ok. f_equal.
        rewrite (pysum_map_id (fun x => q * x / (q * 1) * 1)) by (intros; field; lra).
        exact Hsum.
      - intros j y Hy. rewrite (getitem_map _ xs j y Hy), bind_Ok.
        rewrite (Htaus j k (Hlt j y Hy) (Hlt k x Hx)), bind_Ok. reflexivity. }
  rewrite bind_Ok.
  (* VsSs *)
  weigh_by xs (fun x => q * x / (q * 1) / 1).
  2:{ intros k x Hx.
      rewrite (getitem_map (fun x => q * x / (q * 1)) xs k x Hx), bind_Ok.
      rewrite (getitem_map (fun _ : R => 1) xs k x Hx), bind_Ok.
      apply pydiv_ok. lra. }
  rewrite bind_Ok.
  (* the activity coefficients *)
  apply comprehension_Ok; [apply length_replicate|].
  intros i one Hone. apply lookup_replicate in Hone as [-> Hi].
  destruct (lookup_lt_is_Some_2 xs i Hi) as [x Hx].
  pose proof (Hnz i x Hx) as Hx0.
  set (phis := map (fun x => r * x / (r * 1)) xs).
  set (vs := map (fun x => q * x / (q * 1)) xs).
  set (Ss := map (fun _ : R => 1) xs).
  set (VsSs := map (fun x => q * x / (q * 1) / 1) xs).
  assert (getitem phis i = Ok (r * x / (r * 1))) as Hphi
    by exact (getitem_map _ xs i x Hx).
  assert (getitem vs i = Ok (q * x / (q * 1))) as Hv
    by exact (getitem_map _ xs i x Hx).
  assert (getitem Ss i = Ok 1) as HS
    by exact (getitem_map (fun _ : R => 1) xs i x Hx).
  assert (getitem xs i = Ok x) as Hxi
    by (unfold getitem; rewrite Hx; reflexivity).
  assert (q * x / (q * 1) <> 0) as Hv0.
  { unfold Rdiv. apply Rmult_integral_contrapositive_currified.
    - apply Rmult_integral_contrapositive_currified; assumption.
    - apply Rinv_neq_0_compat. lra. }
  rewrite Hphi, bind_Ok, Hxi, bind_Ok.
  rewrite (pydiv_ok _ _ Hx0), bind_Ok.
  rewrite bind_Ok, Hv, bind_Ok.
  rewrite (pydiv_ok _ _ Hv0), bind_Ok.
  replace (r * x / (r * 1) / x) with 1 by (field; lra).
  replace (r * x / (r * 1) / (q * x / (q * 1))) with 1 by (field; lra).
  rewrite pylog_1, bind_Ok.
  rewrite (getitem_replicate N i q Hi), !bind_Ok.
  rewrite HS, bind_Ok.
  rewrite pylog_1, bind_Ok.
  match goal with
  | |- mbind _ (comprehension _ ?f) = _ =>
      rewrite (comprehension_weighted xs f (fun y => 1 * (q * y / (q * 1) / 1)))
  end.
  2:{ intros j y Hy. rewrite (Htaus i j Hi (Hlt j y Hy)), bind_Ok.
      unfold VsSs. rewrite (getitem_map _ xs j y Hy), bind_Ok. reflexivity. }
  rewrite bind_Ok.
  rewrite (pysum_map_id (fun y => 1 * (q * y / (q * 1) / 1))) by (intros; field; lra).
  rewrite Hsum. f_equal.
  replace (0 + 1.0 - 1 - 5.0 * q * (0 + 1.0 - 1) + q * (1.0 - 0 - 1)) with 0 by lra.
  apply exp_0.
Qed.

End UNIQUACIdeal.

Section UNIQUACIdealTheorem.
Local Open Scope R_scope.

(** X22: UNIQUAC reduces to ideality.  For species of one size and shape
    ([rs] and [qs] constant and nonzero), interaction parameters all 1 and
    nonzero mole fractions that sum to 1, every activity coefficient is 1. *)
Theorem UNIQUAC_ideal (xs : list R) (r q : R) (taus : list (list R)) :
  Forall (fun x => x <> 0) xs -> Rsum xs = 1 ->
  r <> 0 -> q <> 0 ->
  (forall i j, (i < length xs)%nat -> (j < length xs)%nat ->
               getitem2 taus i j = Ok 1) ->
  UNIQUAC xs (replicate (length xs) r) (replicate (length xs) q) taus
  = Ok (replicate (length xs) 1).
Proof.
  intros Hxs Hsum Hr Hq Htaus.
  apply UNIQUAC_ideal_run; try assumption.
  rewrite pysum_is_Rsum. exact Hsum.
Qed.

Lemma UNIQUAC_ideal_witness :
  UNIQUAC [0.25; 0.75] [2.5; 2.5] [2; 2] [[1; 1]; [1; 1]] = Ok [1; 1].
Proof.
  apply (UNIQUAC_ideal [0.25; 0.75] 2.5 2 [[1; 1]; [1; 1]]).
  - repeat constructor; lra.
  - unfold Rsum. simpl. lra.
  - lra.
  - lra.
  - intros [|[|i]] [|[|j]] Hi Hj; simpl in Hi, Hj; try lia; reflexivity.
Defined.

End UNIQUACIdealTheorem.

(** ** Degenerate inputs of the iterative solvers *)

Section DegenerateSolves.
Context `{Numerics}.
Local Open Scope R_scope.

Lemma pymax_elem (Ks : list R) (m : R) : pymax Ks = Ok m -> m ∈ Ks.
Proof.
  destruct Ks as [|x t]; simpl; [discriminate|]. intros [= <-].
  revert x. induction t as [|y t IH]; intros x; simpl; [left|].
  destruct (decide (y > x)).
  - right. apply IH.
  - specialize (IH x). apply elem_of_cons in IH as [->|Hin]; [left | do 2 right; exact Hin].
Qed.

Lemma index_elem (Ks : list R) (m : R) :
  m ∈ Ks -> exists i, index Ks m = Ok i /\ (i < length Ks)%nat.
Proof.
  induction Ks as [|y t IH]; intros Hin; [apply elem_of_nil in Hin; contradiction|].
  simpl. destruct (decide (y = m)) as [_|Hne].
  - exists 0%nat. split; [reflexivity | lia].
  - apply elem_of_cons in Hin as [->|Hin]; [contradiction|].
    destruct (IH Hin) as (i & -> & Hi). exists (S i). split; [reflexivity | lia].
Qed.

(** X23: [Rachford_Rice_solution] computes its bounds before any solver
    runs, and nothing guards them: without species [min(Ks)] raises
    [ValueError], and when the smallest or the largest K-value is exactly 1
    the bound [V_over_F_min] divides by zero. *)
Theorem Rachford_Rice_solution_degenerate (zs Ks : list R) (fprime fprime2 : bool) :
  Rachford_Rice_solution zs [] fprime fprime2 = Raise ValueError
  /\ (length zs = length Ks ->
      pymin Ks = Ok 1 \/ pymax Ks = Ok 1 ->
      Rachford_Rice_solution zs Ks fprime fprime2 = Raise ZeroDivisionError).
Proof.
  split; [reflexivity|].
  intros Hlen Hone. unfold Rachford_Rice_solution.
  destruct (pymin Ks) as [Kmin|e] eqn:Hmin.
  2:{ destruct Hone as [Hone|Hone]; [discriminate|].
      destruct Ks; [discriminate Hone | discriminate Hmin]. }
  destruct (pymax Ks) as [Kmax|e] eqn:Hmax.
  2:{ destruct Ks; [discriminate Hmin | discriminate Hmax]. }
  rewrite !bind_Ok.
  destruct (index_elem Ks Kmax (pymax_elem Ks Kmax Hmax)) as (i & -> & Hi).
  rewrite bind_Ok.
  destruct (getitem_lt zs i) as (z & _ & ->); [lia|].
  rewrite bind_Ok.
  assert ((1 - Kmin) * (Kmax - 1) = 0) as ->.
  { destruct Hone as [[= ->] | [= ->]]; ring. }
  rewrite pydiv_zero. reflexivity.
Qed.

Lemma insert_desc_length (a : R * R) (l : list (R * R)) :
  length (insert_desc a l) = S (length l).
Proof.
  induction l as [|b t IH]; simpl; [reflexivity|].
  destruct (pair_lt b a); simpl; [reflexivity | rewrite IH; reflexivity].
Qed.

Lemma insert_desc_Forall (P : R * R -> Prop) (a : R * R) (l : list (R * R)) :
  P a -> Forall P l -> Forall P (insert_desc a l).
Proof.
  intros Ha. induction 1 as [|b t Hb Ht IH]; simpl.
  - repeat constructor. exact Ha.
  - destruct (pair_lt b a); repeat constructor; assumption.
Qed.

Lemma sorted_reverse_length (l : list (R * R)) :
  length (sorted_reverse l) = length l.
Proof.
  unfold sorted_reverse. induction l as [|a l IH]; simpl; [reflexivity|].
  rewrite insert_desc_length, IH. reflexivity.
Qed.

Lemma sorted_reverse_Forall (P : R * R -> Prop) (l : list (R * R)) :
  Forall P l -> Forall P (sorted_reverse l).
Proof.
  unfold sorted_reverse. induction 1 as [|a l Ha Hl IH]; simpl; [constructor|].
  apply insert_desc_Forall; assumption.
Qed.

(** X24: [Li_Johns_Ahmadi_solution] cannot take a feed whose K-values are
    all equal, a single species included: its first bound divides by
    [k1 - kn], the difference of the largest and the smallest K-value, and
    raises [ZeroDivisionError]; without species it raises [IndexError]. *)
Theorem Li_Johns_Ahmadi_solution_degenerate (zs Ks : list R) (K : R) :
  Li_Johns_Ahmadi_solution zs [] = Raise IndexError
  /\ (Ks <> [] -> length zs = length Ks -> Forall (fun Ki => Ki = K) Ks ->
      Li_Johns_Ahmadi_solution zs Ks = Raise ZeroDivisionError).
Proof.
  split; [reflexivity|].
  intros Hne Hlen HK. unfold Li_Johns_Ahmadi_solution. cbv zeta.
  set (p := sorted_reverse (zip Ks zs)).
  assert (length p = length Ks) as Hp.
  { unfold p. rewrite sorted_reverse_length, length_zip_with. lia. }
  assert (Forall (fun kz => kz.1 = K) p) as HpK.
  { apply sorted_reverse_Forall. apply Forall_forall. intros [k z] Hin.
    apply list_elem_of_lookup in Hin as [i Hi].
    apply lookup_zip_with_Some in Hi as (k' & z' & [= <- <-] & Hk & _).
    simpl. exact (proj1 (Forall_lookup _ _) HK i k Hk). }
  assert (0 < length Ks)%nat as Hpos by (destruct Ks; [contradiction | simpl; lia]).
  assert (forall i, (i < length Ks)%nat -> getitem (map fst p) i = Ok K) as Hget.
  { intros i Hi. destruct (lookup_lt_is_Some_2 p i) as [kz Hkz]; [lia|].
    rewrite (getitem_map fst p i kz Hkz). f_equal.
    exact (proj1 (Forall_lookup _ _) HpK i kz Hkz). }
  rewrite (Hget 0%nat Hpos), bind_Ok.
  destruct (getitem_lt (map snd p) 0) as (z1 & _ & ->);
    [rewrite length_map; lia|].
  rewrite bind_Ok.
  rewrite Hget by (rewrite length_map; lia). rewrite bind_Ok.
  replace (K - K) with 0 by ring.
  rewrite pydiv_zero. reflexivity.
Qed.

End DegenerateSolves.

Section DegenerateSolvesExamples.
Local Open Scope R_scope.

Lemma Rachford_Rice_solution_degenerate_witness :
  Rachford_Rice_solution (H := diverging_numerics) [0.5; 0.5] [1; 2] false false
  = Raise ZeroDivisionError.
Proof.
  apply (proj2 (Rachford_Rice_solution_degenerate (H := diverging_numerics)
                  [0.5; 0.5] [1; 2] false false) eq_refl).
  left. simpl. destruct (decide (2 < 1)) as [Hlt|_]; [lra | reflexivity].
Defined.

Lemma Li_Johns_Ahmadi_solution_degenerate_witness :
  Li_Johns_Ahmadi_solution (H := diverging_numerics) [1] [2]
  = Raise ZeroDivisionError.
Proof.
  apply (proj2 (Li_Johns_Ahmadi_solution_degenerate (H := diverging_numerics)
                  [1] [2] 2)).
  - discriminate.
  - reflexivity.
  - repeat constructor.
Defined.

End DegenerateSolvesExamples.

(** ** The binary NRTL equations *)

Section BinaryNRTL.
Local Open Scope R_scope.

(** X25: for two species with zero diagonal interaction parameters, the
    general loop of [NRTL] computes the binary equations of Renon and
    Prausnitz:
    [ln gamma1 = x2^2 (tau21 (G21/(x1 + x2 G21))^2 + tau12 G12/(x2 + x1 G12)^2)]
    and symmetrically for [gamma2], with [G12 = exp(-alpha12 tau12)] and
    [G21 = exp(-alpha21 tau21)]. *)
Theorem NRTL_binary (x1 x2 t12 t21 a11 a12 a21 a22 : R) :
  let G12 := exp (- a12 * t12) in
  let G21 := exp (- a21 * t21) in
  x1 + x2 * G21 <> 0 -> x2 + x1 * G12 <> 0 ->
  NRTL [x1; x2] [[0; t12]; [t21; 0]] [[a11; a12]; [a21; a22]]
  = Ok [exp (x2 * x2 * (t21 * (G21 / (x1 + x2 * G21)) * (G21 / (x1 + x2 * G21))
                        + t12 * G12 / ((x2 + x1 * G12) * (x2 + x1 * G12))));
        exp (x1 * x1 * (t12 * (G12 / (x2 + x1 * G12)) * (G12 / (x2 + x1 * G12))
                        + t21 * G21 / ((x1 + x2 * G21) * (x1 + x2 * G21))))].
Proof.
  intros G12 G21 HD1 HD2.
  unfold NRTL, comprehension, range, for_range. simpl.
  unfold getitem2, getitem. simpl.
  replace (- a11 * 0) with 0 by ring. replace (- a22 * 0) with 0 by ring.
  rewrite exp_0. fold G12 G21.
  unfold pysum. simpl.
  rewrite !pydiv_ok by lra. simpl.
  rewrite !pydiv_ok by lra. simpl.
  f_equal. apply (f_equal2 cons); [|apply (f_equal2 cons); [|reflexivity]];
    f_equal; field; split; lra.
Qed.

Lemma NRTL_binary_witness :
  NRTL [0.252; 0.748] [[0; -(0.178)]; [1.963; 0]] [[0; 0.2974]; [0.2974; 0]]
  = Ok [exp (0.748 * 0.748
             * (1.963 * (exp (- (0.2974) * 1.963)
                         / (0.252 + 0.748 * exp (- (0.2974) * 1.963)))
                * (exp (- (0.2974) * 1.963)
                   / (0.252 + 0.748 * exp (- (0.2974) * 1.963)))
                + -(0.178) * exp (- (0.2974) * -(0.178))
                  / ((0.748 + 0.252 * exp (- (0.2974) * -(0.178)))
                     * (0.748 + 0.252 * exp (- (0.2974) * -(0.178))))));
        exp (0.252 * 0.252
             * (-(0.178) * (exp (- (0.2974) * -(0.178))
                            / (0.748 + 0.252 * exp (- (0.2974) * -(0.178))))
                * (exp (- (0.2974) * -(0.178))
                   / (0.748 + 0.252 * exp (- (0.2974) * -(0.178))))
                + 1.963 * exp (- (0.2974) * 1.963)
                  / ((0.252 + 0.748 * exp (- (0.2974) * 1.963))
                     * (0.252 + 0.748 * exp (- (0.2974) * 1.963)))))].
Proof.
  apply (NRTL_binary 0.252 0.748 (-(0.178)) 1.963 0 0.2974 0.2974 0).
  - pose proof (exp_pos (- (0.2974) * 1.963)). lra.
  - pose proof (exp_pos (- (0.2974) * -(0.178))). lra.
Defined.

End BinaryNRTL.

(** ** The binary Wilson equations *)

Section BinaryWilson.
Local Open Scope R_scope.

Lemma pylog_ok (x : R) : 0 < x -> pylog x = Ok (ln x).
Proof. intros Hx. unfold pylog. rewrite decide_True by exact Hx. reflexivity. Qed.

(** X26: for two species with unit diagonal parameters, the general loop of
    [Wilson] computes the binary Wilson equations
    [ln gamma1 = -ln(x1 + L12 x2) + x2 (L12/(x1 + L12 x2) - L21/(x2 + L21 x1))]
    and
    [ln gamma2 = -ln(x2 + L21 x1) - x1 (L12/(x1 + L12 x2) - L21/(x2 + L21 x1))]. *)
Theorem Wilson_binary (x1 x2 L12 L21 : R) :
  0 < x1 + L12 * x2 -> 0 < x2 + L21 * x1 ->
  Wilson [x1; x2] [[1; L12]; [L21; 1]]
  = Ok [exp (- ln (x1 + L12 * x2)
             + x2 * (L12 / (x1 + L12 * x2) - L21 / (x2 + L21 * x1)));
        exp (- ln (x2 + L21 * x1)
             - x1 * (L12 / (x1 + L12 * x2) - L21 / (x2 + L21 * x1)))].
Proof.
  intros HD1 HD2.
  unfold Wilson, comprehension, range, for_range. simpl.
  unfold getitem2, getitem. simpl.
  unfold pysum. simpl.
  replace (0 + 1 * x1 + L12 * x2) with (x1 + L12 * x2) by ring.
  replace (0 + L21 * x1 + 1 * x2) with (x2 + L21 * x1) by ring.
  repeat (first [rewrite pylog_ok by assumption | rewrite pydiv_ok by lra]; simpl).
  f_equal. apply (f_equal2 cons); [|apply (f_equal2 cons); [|reflexivity]];
    f_equal; field; split; lra.
Qed.

Lemma Wilson_binary_witness :
  Wilson [0.252; 0.748] [[1; 0.154]; [0.888; 1]]
  = Ok [exp (- ln (0.252 + 0.154 * 0.748)
             + 0.748 * (0.154 / (0.252 + 0.154 * 0.748)
                        - 0.888 / (0.748 + 0.888 * 0.252)));
        exp (- ln (0.748 + 0.888 * 0.252)
             - 0.252 * (0.154 / (0.252 + 0.154 * 0.748)
                        - 0.888 / (0.748 + 0.888 * 0.252)))].
Proof.
  apply (Wilson_binary 0.252 0.748 0.154 0.888); lra.
Defined.

End BinaryWilson.

(** ** Solver failures in the saturation-temperature modes *)

Section SaturationTemperature.
Context `{Numerics}.
Local Open Scope R_scope.

Lemma T_guess_sum_closed_form (c : R) (zs Tcs : list R) :
  length Tcs = length zs ->
  T_guess_sum c zs Tcs = Ok (pysum (zip_with (fun Tc z => c * Tc * z) Tcs zs)).
Proof.
  intros Hlen. unfold T_guess_sum. rewrite <- Hlen.
  rewrite (comprehension_zip_with (fun Tc z => c * Tc * z) Tcs zs Hlen).
  reflexivity.
Qed.

(** X27: the two saturation-temperature modes treat a failing [newton]
    differently.  With [P] supplied and [VF = 0] the exception of [newton]
    reaches the caller; with [VF = 1] it is swallowed and [brenth] is tried
    between [T_MAX] and [sum(0.1*Tcs[i]*zs[i])], and a [ValueError] of
    [brenth] becomes the "Bisecting solver could not find a solution"
    exception. *)
Theorem flash_wilson_solver_failures (zs Tcs Pcs omegas : list R) (P : R) (e : exn) :
  (forall f x kw, newton f x kw = Raise e) ->
  (forall f a b tol, brenth f a b tol = Raise ValueError) ->
  length Tcs = length zs ->
  flash_wilson zs Tcs Pcs omegas None (Some P) (Some 0) = Raise e
  /\ flash_wilson zs Tcs Pcs omegas None (Some P) (Some 1)
     = Raise (ExceptionFmt bisect_message
                [T_MAX; pysum (zip_with (fun Tc z => 0.1 * Tc * z) Tcs zs)]).
Proof.
  intros Hnewton Hbrenth Hlen. split.
  - unfold flash_wilson. cbn [flash_wilson_depth]. unfold flash_wilson_body at 1.
    cbn [is_None negb andb].
    rewrite (bool_decide_eq_false_2 (Some 0 = Some 1)) by (intros [= Hone]; lra).
    rewrite (bool_decide_eq_true_2 (Some 0 = Some 0)) by reflexivity.
    rewrite (T_guess_sum_closed_form 0.55 zs Tcs Hlen), bind_Ok.
    rewrite Hnewton. reflexivity.
  - unfold flash_wilson. cbn [flash_wilson_depth]. unfold flash_wilson_body at 1.
    cbn [is_None negb andb].
    rewrite (bool_decide_eq_true_2 (Some 1 = Some 1)) by reflexivity.
    rewrite (T_guess_sum_closed_form 0.666 zs Tcs Hlen), bind_Ok.
    rewrite Hnewton. cbn [is_None orb].
    rewrite (T_guess_sum_closed_form 0.1 zs Tcs Hlen), bind_Ok.
    rewrite Hbrenth. reflexivity.
Qed.

End SaturationTemperature.

Section SaturationTemperatureExample.
Local Open Scope R_scope.

Lemma flash_wilson_solver_failures_witness :
  flash_wilson (H := diverging_numerics) [0.4; 0.6] [305.322; 540.13]
    [4872200; 2736000] [0.099; 0.349] None (Some 1e5) (Some 0)
  = Raise (Exception "Failed to converge")
  /\ flash_wilson (H := diverging_numerics) [0.4; 0.6] [305.322; 540.13]
       [4872200; 2736000] [0.099; 0.349] None (Some 1e5) (Some 1)
     = Raise (ExceptionFmt bisect_message
                [T_MAX; pysum (zip_with (fun Tc z => 0.1 * Tc * z)
                                 [305.322; 540.13] [0.4; 0.6])]).
Proof.
  apply (flash_wilson_solver_failures (H := diverging_numerics)
           [0.4; 0.6] [305.322; 540.13] [4872200; 2736000] [0.099; 0.349] 1e5
           (Exception "Failed to converge")).
  - intros f x kw. reflexivity.
  - intros f a b tol. reflexivity.
  - reflexivity.
Defined.

End SaturationTemperatureExample.

(** ** Unit activity and fugacity coefficients *)

Section UnitCoefficients.
Local Open Scope R_scope.

Variables (zs Psats : list R).
Hypothesis Hlen : length zs = length Psats.
Local Abbreviation ones := (Some (Some <$> replicate (length zs) 1)).

Lemma getitem_ones (i : nat) :
  (i < length zs)%nat ->
  getitem (Some <$> replicate (length zs) 1) i = Ok (Some 1).
Proof.
  intros Hi. unfold getitem.
  rewrite list_lookup_fmap, (lookup_replicate_2 _ 1 i Hi). reflexivity.
Qed.

(** The terms of a branch, when its [i]-th term is [g zs[i] Psats[i]]. *)
Lemma branch_terms (body : nat -> res R) (g : R -> R -> R) :
  (forall i z p, zs !! i = Some z -> Psats !! i = Some p -> body i = Ok (g z p)) ->
  comprehension (length (Some <$> zs)) body = Ok (zip_with g zs Psats).
Proof.
  intros Hbody. apply comprehension_Ok.
  - rewrite length_fmap, length_zip_with. lia.
  - intros i x Hx. apply lookup_zip_with_Some in Hx as (z & p & -> & Hz & Hp).
    apply (Hbody i z p Hz Hp).
Qed.

Lemma bubble_at_T_ones :
  bubble_at_T (Some <$> zs) (Some <$> Psats) None ones
  = Ok (RetFloat (Rsum (zip_with Rmult zs Psats)))
  /\ bubble_at_T (Some <$> zs) (Some <$> Psats) ones None
     = Ok (RetFloat (Rsum (zip_with Rmult zs Psats)))
  /\ bubble_at_T (Some <$> zs) (Some <$> Psats) ones ones
     = Ok (RetFloat (Rsum (zip_with Rmult zs Psats))).
Proof.
  assert (forall i z, zs !! i = Some z -> (i < length zs)%nat) as Hlt
    by (intros i z Hz; exact (lookup_lt_Some _ _ _ Hz)).
  unfold bubble_at_T. cbn [is_None negb andb]. repeat split.
  - rewrite (branch_terms _ (fun z p => z * p * 1)).
    + simpl. rewrite pysum_is_Rsum. do 2 f_equal.
      apply Rsum_zip_with_ext. intros. ring.
    + intros i z p Hz Hp. unfold getitem. rewrite !list_lookup_fmap, Hz, Hp. simpl.
      rewrite ?(getitem_ones i (Hlt i z Hz)). reflexivity.
  - rewrite (branch_terms _ (fun z p => z * p / 1)).
    + simpl. rewrite pysum_is_Rsum. do 2 f_equal.
      apply Rsum_zip_with_ext. intros. field.
    + intros i z p Hz Hp. unfold getitem. rewrite !list_lookup_fmap, Hz, Hp. simpl.
      rewrite ?(getitem_ones i (Hlt i z Hz)). py_unfold.
      apply pydiv_ok. lra.
  - rewrite (branch_terms _ (fun z p => z * p * 1 / 1)).
    + simpl. rewrite pysum_is_Rsum. do 2 f_equal.
      apply Rsum_zip_with_ext. intros. field.
    + intros i z p Hz Hp. unfold getitem. rewrite !list_lookup_fmap, Hz, Hp. simpl.
      rewrite ?(getitem_ones i (Hlt i z Hz)). py_unfold.
      rewrite ?(getitem_ones i (Hlt i z Hz)). py_unfold.
      apply pydiv_ok. lra.
Qed.

Hypothesis Hps : Forall (fun p => p <> 0) Psats.
Hypothesis Hsum : Rsum (zip_with Rdiv zs Psats) <> 0.

Lemma dew_at_T_ones :
  dew_at_T (Some <$> zs) (Some <$> Psats) None ones
  = Ok (RetFloat (1 / Rsum (zip_with Rdiv zs Psats)))
  /\ dew_at_T (Some <$> zs) (Some <$> Psats) ones None
     = Ok (RetFloat (1 / Rsum (zip_with Rdiv zs Psats)))
  /\ dew_at_T (Some <$> zs) (Some <$> Psats) ones ones
     = Ok (RetFloat (1 / Rsum (zip_with Rdiv zs Psats))).
Proof.
  assert (forall i z, zs !! i = Some z -> (i < length zs)%nat) as Hlt
    by (intros i z Hz; exact (lookup_lt_Some _ _ _ Hz)).
  assert (forall i p, Psats !! i = Some p -> p <> 0) as Hp0
    by (intros i p Hp; exact (proj1 (Forall_lookup _ _) Hps i p Hp)).
  unfold dew_at_T. cbn [is_None negb andb]. repeat split.
  - rewrite (branch_terms _ (fun z p => z / (p * 1))).
    + simpl. rewrite pysum_is_Rsum.
      rewrite (Rsum_zip_with_ext_lookup (fun z p => z / (p * 1)) Rdiv).
      * rewrite pydiv_ok by assumption. reflexivity.
      * intros i z p _ Hp. pose proof (Hp0 i p Hp). field. lra.
    + intros i z p Hz Hp. unfold getitem. rewrite !list_lookup_fmap, Hz, Hp. simpl.
      rewrite ?(getitem_ones i (Hlt i z Hz)). py_unfold.
      apply pydiv_ok. pose proof (Hp0 i p Hp). lra.
  - rewrite (branch_terms _ (fun z p => z * 1 / p)).
    + simpl. rewrite pysum_is_Rsum.
      rewrite (Rsum_zip_with_ext_lookup (fun z p => z * 1 / p) Rdiv).
      * rewrite pydiv_ok by assumption. reflexivity.
      * intros i z p _ Hp. pose proof (Hp0 i p Hp). field. lra.
    + intros i z p Hz Hp. unfold getitem. rewrite !list_lookup_fmap, Hz. simpl.
      rewrite ?(getitem_ones i (Hlt i z Hz)). py_unfold.
      rewrite Hp. simpl. apply pydiv_ok, (Hp0 i p Hp).
  - rewrite (branch_terms _ (fun z p => z * 1 / (p * 1))).
    + simpl. rewrite pysum_is_Rsum.
      rewrite (Rsum_zip_with_ext_lookup (fun z p => z * 1 / (p * 1)) Rdiv).
      * rewrite pydiv_ok by assumption. reflexivity.
      * intros i z p _ Hp. pose proof (Hp0 i p Hp). field. lra.
    + intros i z p Hz Hp. unfold getitem. rewrite !list_lookup_fmap, Hz. simpl.
      rewrite ?(getitem_ones i (Hlt i z Hz)). py_unfold.
      rewrite Hp. simpl.
      rewrite ?(getitem_ones i (Hlt i z Hz)). py_unfold.
      apply pydiv_ok. pose proof (Hp0 i p Hp). lra.
Qed.

End UnitCoefficients.

Section UnitCoefficientsTheorem.
Local Open Scope R_scope.

(** X28: coefficients of one are the defaults.  For lists of one length with
    nonzero vapour pressures and a nonzero sum of [zs[i]/Psats[i]], passing
    all-ones [gammas], all-ones [fugacities], or both, to [dew_at_T] and
    [bubble_at_T] gives the result of the call that leaves them out. *)
Theorem saturation_unit_coefficients (zs Psats : list R) :
  length zs = length Psats ->
  Forall (fun p => p <> 0) Psats ->
  Rsum (zip_with Rdiv zs Psats) <> 0 ->
  let ones := Some (Some <$> replicate (length zs) 1) in
  let plain_dew := dew_at_T (Some <$> zs) (Some <$> Psats) None None in
  let plain_bubble := bubble_at_T (Some <$> zs) (Some <$> Psats) None None in
  (exists P_dew, plain_dew = Ok (RetFloat P_dew))
  /\ (exists P_bubble, plain_bubble = Ok (RetFloat P_bubble))
  /\ dew_at_T (Some <$> zs) (Some <$> Psats) None ones = plain_dew
  /\ dew_at_T (Some <$> zs) (Some <$> Psats) ones None = plain_dew
  /\ dew_at_T (Some <$> zs) (Some <$> Psats) ones ones = plain_dew
  /\ bubble_at_T (Some <$> zs) (Some <$> Psats) None ones = plain_bubble
  /\ bubble_at_T (Some <$> zs) (Some <$> Psats) ones None = plain_bubble
  /\ bubble_at_T (Some <$> zs) (Some <$> Psats) ones ones = plain_bubble.
Proof.
  intros Hlen Hps Hsum ones plain_dew plain_bubble.
  unfold plain_dew, plain_bubble.
  rewrite (dew_at_T_Raoult zs Psats Hlen Hps Hsum).
  rewrite (bubble_at_T_Raoult zs Psats Hlen).
  destruct (dew_at_T_ones zs Psats Hlen Hps Hsum) as (Hd1 & Hd2 & Hd3).
  destruct (bubble_at_T_ones zs Psats Hlen) as (Hb1 & Hb2 & Hb3).
  split; [eauto|]. split; [eauto|].
  repeat split; assumption.
Qed.

Lemma saturation_unit_coefficients_witness :
  dew_at_T [Some 0.5; Some 0.5] [Some 1400; Some 7000]
    (Some [Some 1; Some 1]) (Some [Some 1; Some 1])
  = dew_at_T [Some 0.5; Some 0.5] [Some 1400; Some 7000] None None
  /\ bubble_at_T [Some 0.5; Some 0.5] [Some 1400; Some 7000]
       (Some [Some 1; Some 1]) (Some [Some 1; Some 1])
     = bubble_at_T [Some 0.5; Some 0.5] [Some 1400; Some 7000] None None.
Proof.
  destruct (saturation_unit_coefficients [0.5; 0.5] [1400; 7000] eq_refl)
    as (_ & _ & _ & _ & Hdew & _ & _ & Hbubble).
  - repeat constructor; lra.
  - unfold Rsum. simpl. lra.
  - split; [exact Hdew | exact Hbubble].
Defined.

End UnitCoefficientsTheorem.

(** ** Monotonicity of the Rachford-Rice objective *)

Section ObjectiveMonotone.
Local Open Scope R_scope.

Lemma Rsum_zip_with_le {A B} (f g : A -> B -> R) (la : list A) (lb : list B) :
  (forall i a b, la !! i = Some a -> lb !! i = Some b -> f a b <= g a b) ->
  Rsum (zip_with f la lb) <= Rsum (zip_with g la lb).
Proof.
  revert lb. induction la as [|a la IH]; intros [|b lb] Hfg; cbn [zip_with];
    try (unfold Rsum; simpl; lra).
  rewrite !Rsum_cons.
  pose proof (Hfg 0%nat a b eq_refl eq_refl).
  assert (Rsum (zip_with f la lb) <= Rsum (zip_with g la lb)).
  { apply IH. intros i a' b'. apply (Hfg (S i)). }
  lra.
Qed.

Lemma Rachford_Rice_flash_error_closed_form (V : R) (zs Ks : list R) :
  Forall (fun K => 1 + V * (K - 1) <> 0) Ks ->
  Rachford_Rice_flash_error V zs Ks
  = Ok (Rsum (zip_with (fun K z => z * (K - 1) / (1 + V * (K - 1))) Ks zs)).
Proof.
  intros Hden. unfold Rachford_Rice_flash_error.
  rewrite (zip_comprehension_Ok _ (fun K z => z * (K - 1) / (1 + V * (K - 1)))).
  - simpl. rewrite pysum_is_Rsum. reflexivity.
  - intros i K z HK _. apply pydiv_ok.
    exact (proj1 (Forall_lookup _ _) Hden i K HK).
Qed.

(** X29: the Rachford-Rice objective never increases with [V_over_F].  For
    non-negative mole fractions and two vapour fractions [V1 <= V2] at which
    every denominator [1 + V*(Ks[i] - 1)] is positive, the value at [V2] is
    at most the value at [V1]. *)
Theorem Rachford_Rice_flash_error_decreasing (V1 V2 : R) (zs Ks : list R) :
  Forall (fun z => 0 <= z) zs ->
  Forall (fun K => 0 < 1 + V1 * (K - 1) /\ 0 < 1 + V2 * (K - 1)) Ks ->
  V1 <= V2 ->
  exists e1 e2,
    Rachford_Rice_flash_error V1 zs Ks = Ok e1
    /\ Rachford_Rice_flash_error V2 zs Ks = Ok e2
    /\ e2 <= e1.
Proof.
  intros Hzs Hden HV.
  do 2 eexists. split; [|split].
  - apply Rachford_Rice_flash_error_closed_form.
    eapply Forall_impl; [exact Hden|]. simpl. intros K [H1 _]. lra.
  - apply Rachford_Rice_flash_error_closed_form.
    eapply Forall_impl; [exact Hden|]. simpl. intros K [_ H2]. lra.
  - apply Rsum_zip_with_le. intros i K z HK Hz.
    destruct (proj1 (Forall_lookup _ _) Hden i K HK) as [Hd1 Hd2].
    pose proof (proj1 (Forall_lookup _ _) Hzs i z Hz) as Hz0.
    set (d1 := 1 + V1 * (K - 1)) in *. set (d2 := 1 + V2 * (K - 1)) in *.
    assert (z * (K - 1) / d1 - z * (K - 1) / d2
            = z * ((K - 1) * (K - 1)) * (V2 - V1) * / (d1 * d2)) as Hdiff.
    { unfold d1, d2. field. split; unfold d1, d2 in *; lra. }
    assert (0 <= z * ((K - 1) * (K - 1)) * (V2 - V1) * / (d1 * d2)) as Hpos.
    { apply Rmult_le_pos.
      - apply Rmult_le_pos; [|lra].
        apply Rmult_le_pos; [exact Hz0 | apply Rle_0_sqr].
      - left. apply Rinv_0_lt_compat. apply Rmult_lt_0_compat; assumption. }
    lra.
Qed.

Lemma Rachford_Rice_flash_error_decreasing_witness :
  exists e1 e2,
    Rachford_Rice_flash_error 0 [0.5; 0.3; 0.2] [1.685; 0.742; 0.532] = Ok e1
    /\ Rachford_Rice_flash_error 1 [0.5; 0.3; 0.2] [1.685; 0.742; 0.532] = Ok e2
    /\ e2 <= e1.
Proof.
  apply (Rachford_Rice_flash_error_decreasing 0 1
           [0.5; 0.3; 0.2] [1.685; 0.742; 0.532]).
  - repeat constructor; lra.
  - repeat constructor; lra.
  - lra.
Defined.

End ObjectiveMonotone.

(** ** The temperature of an instance *)

Section InstanceTemperature.
Local Open Scope R_scope.

Lemma example_cold_present (t : R) (name : string) :
  name ∈ "N" :: "cmps" :: take 6 coefficient_names ->
  is_Some ((<["T" := VFloat t]> example_attrs) !! name).
Proof.
  intros Hin. apply list_elem_of_In in Hin. simpl in Hin.
  repeat (destruct Hin as [<-|Hin]; [eexists; reflexivity|]). contradiction.
Qed.

(** X30: [taus()] needs a positive temperature.  On an instance that has its
    six tau coefficient matrices, [N] and [cmps], a temperature of [0.0]
    makes [1.0/T] raise [ZeroDivisionError], and a negative one makes
    [log(T)] raise [ValueError]; no tau is computed. *)
Theorem taus_needs_positive_T (h : heap) (self : loc) (attrs : gmap string value)
    (t : R) :
  h !! self = Some (OInstance attrs) ->
  (forall name, name ∈ "N" :: "cmps" :: take 6 coefficient_names ->
                is_Some (attrs !! name)) ->
  attrs !! "T" = Some (VFloat t) ->
  (t = 0 -> taus h self = Raise ZeroDivisionError)
  /\ (t < 0 -> taus h self = Raise ValueError).
Proof.
  intros Hself Hall HT.
  assert (forall name, name ∈ "N" :: "cmps" :: take 6 coefficient_names ->
                       exists v, getattr h self name = Ok v) as Hread.
  { intros name Hin. destruct (Hall name Hin) as [v Hv]. exists v.
    rewrite (getattr_instance h self attrs name Hself), Hv. reflexivity. }
  assert (getattr h self "T" = Ok (VFloat t)) as HreadT.
  { rewrite (getattr_instance h self attrs "T" Hself), HT. reflexivity. }
  destruct (Hread "tau_coeffs_A") as [vA HA]; [in_names|].
  destruct (Hread "tau_coeffs_B") as [vB HB]; [in_names|].
  destruct (Hread "tau_coeffs_E") as [vE HE]; [in_names|].
  destruct (Hread "tau_coeffs_F") as [vF HF]; [in_names|].
  destruct (Hread "tau_coeffs_G") as [vG HG]; [in_names|].
  destruct (Hread "tau_coeffs_H") as [vH HH]; [in_names|].
  destruct (Hread "N") as [vN HN]; [in_names|].
  destruct (Hread "cmps") as [vc Hc]; [in_names|].
  unfold taus.
  rewrite HA, bind_Ok, HB, bind_Ok, HE, bind_Ok, HF, bind_Ok, HG, bind_Ok,
    HH, bind_Ok, HreadT, bind_Ok, HN, bind_Ok, Hc, bind_Ok.
  cbn [vfloat]. rewrite bind_Ok.
  split.
  - intros ->. rewrite pydiv_zero. reflexivity.
  - intros Hneg. rewrite pydiv_ok by lra. rewrite bind_Ok.
    unfold pylog. rewrite decide_False by lra. reflexivity.
Qed.

Lemma taus_needs_positive_T_witness :
  taus (<[5%positive := OInstance (<["T" := VFloat 0]> example_attrs)]> example_heap) 5
  = Raise ZeroDivisionError
  /\ taus (<[5%positive := OInstance (<["T" := VFloat (-1)]> example_attrs)]>
            example_heap) 5
     = Raise ValueError.
Proof.
  split.
  - apply (proj1 (taus_needs_positive_T _ 5 (<["T" := VFloat 0]> example_attrs) 0
                    (lookup_insert_eq _ _ _)
                    (fun name Hin => example_cold_present 0 name Hin)
                    (lookup_insert_eq _ _ _))).
    reflexivity.
  - apply (proj2 (taus_needs_positive_T _ 5 (<["T" := VFloat (-1)]> example_attrs) (-1)
                    (lookup_insert_eq _ _ _)
                    (fun name Hin => example_cold_present (-1) name Hin)
                    (lookup_insert_eq _ _ _))).
    lra.
Defined.

End InstanceTemperature.
